(** * Verification of next-pwa-turbo's manifest, caching-rule and security layers

    Shallow embedding of
    - [src/src/worker/cache-strategies.ts]      (normalizeUrlPattern, mergeRuntimeCaching)
    - [src/.agents/architecture-decisions.md]   (the security utilities: sanitizePath,
                                                 sanitizeRuntimeCachingRule, escapeForServiceWorker)
    - [src/src/adapter/manifest-generator.ts]   (generatePrecacheManifest and its helpers)

    JavaScript strings are sequences of UTF-16 code units; they are modelled as
    [list N], one [N] per code unit. *)

From Stdlib Require Import List Bool ZArith NArith String Ascii Lia.
From Stdlib Require Strings.Byte.
Import ListNotations.
Open Scope N_scope.
Set Warnings "-register-all".

(** ** JavaScript strings *)

Definition jstr := list N.

(** ASCII literal to a JS string. *)
Definition u (s : string) : jstr := map (fun c => N_of_ascii c) (list_ascii_of_string s).

(** [String.prototype.startsWith] *)
Fixpoint starts_with (pre s : jstr) : bool :=
  match pre, s with
  | [], _ => true
  | p :: pre', c :: s' => (p =? c) && starts_with pre' s'
  | _ :: _, [] => false
  end.

(** [String.prototype.includes] *)
Fixpoint includes (s pat : jstr) : bool :=
  match s with
  | [] => starts_with pat []
  | c :: s' => starts_with pat s || includes s' pat
  end.

Fixpoint jstr_eqb (a b : jstr) : bool :=
  match a, b with
  | [], [] => true
  | x :: a', y :: b' => (x =? y) && jstr_eqb a' b'
  | _, _ => false
  end.

Lemma jstr_eqb_eq : forall a b, jstr_eqb a b = true <-> a = b.
Proof.
  induction a as [|x a IH]; destruct b as [|y b]; simpl; split; intro H;
    try discriminate; auto.
  - apply andb_prop in H as [H1 H2]. apply N.eqb_eq in H1. apply IH in H2. congruence.
  - inversion H; subst. rewrite N.eqb_refl. simpl. apply IH. reflexivity.
Qed.

Lemma jstr_eqb_refl : forall a, jstr_eqb a a = true.
Proof. intro a. apply jstr_eqb_eq. reflexivity. Qed.

(** ASCII case folding, as used by the [i] flag on these ASCII patterns. *)
Definition to_lower (c : N) : N := if (65 <=? c) && (c <=? 90) then c + 32 else c.

Fixpoint starts_with_ci (pre s : jstr) : bool :=
  match pre, s with
  | [], _ => true
  | p :: pre', c :: s' => (to_lower p =? to_lower c) && starts_with_ci pre' s'
  | _ :: _, [] => false
  end.

Fixpoint includes_ci (s pat : jstr) : bool :=
  match s with
  | [] => starts_with_ci pat []
  | c :: s' => starts_with_ci pat s || includes_ci s' pat
  end.

(** ** Runtime caching rules ([src/src/worker/cache-strategies.ts]) *)

Module CacheStrategies.

(** [RuntimeCachingRule["urlPattern"]]: a string, a RegExp or a matcher function. *)
Inductive UrlPattern :=
| PString (s : jstr)
| PRegExp (source flags : jstr)
| PFunction (text : jstr).       (* [text] is what [Function.prototype.toString] returns *)

Record RuntimeCachingRule := {
  urlPattern : UrlPattern;
  handler : jstr;
  method : option jstr;
  cacheName : option jstr
}.

(** [normalizeUrlPattern] *)
Definition normalizeUrlPattern (p : UrlPattern) : jstr :=
  match p with
  | PString s => s
  | PRegExp source _ => source
  | PFunction text => text
  end.

(** [Set.prototype.has] on the set built from a list of strings *)
Definition set_has (set : list jstr) (x : jstr) : bool :=
  existsb (jstr_eqb x) set.

(** [mergeRuntimeCaching] *)
Definition mergeRuntimeCaching (custom defaults : list RuntimeCachingRule)
  : list RuntimeCachingRule :=
  let customPatterns := map (fun rule => normalizeUrlPattern (urlPattern rule)) custom in
  let filteredDefaults :=
    filter (fun defaultRule =>
              negb (set_has customPatterns (normalizeUrlPattern (urlPattern defaultRule))))
           defaults in
  custom ++ filteredDefaults.

Definition identity (r : RuntimeCachingRule) : jstr := normalizeUrlPattern (urlPattern r).

End CacheStrategies.

(** ** Path guard ([sanitizePath], [hasPathTraversal] in the security utilities) *)

Module PathGuard.

(** The code units [String.prototype.trim] removes: WhiteSpace and LineTerminator. *)
Definition is_js_whitespace (c : N) : bool :=
  (c =? 9) || (c =? 10) || (c =? 11) || (c =? 12) || (c =? 13) || (c =? 32)
  || (c =? 160) || (c =? 5760) || ((8192 <=? c) && (c <=? 8202))
  || (c =? 8232) || (c =? 8233) || (c =? 8239) || (c =? 8287)
  || (c =? 12288) || (c =? 65279).

Fixpoint drop_while (p : N -> bool) (s : jstr) : jstr :=
  match s with
  | [] => []
  | c :: s' => if p c then drop_while p s' else s
  end.

(** [String.prototype.trim] *)
Definition trim (s : jstr) : jstr :=
  rev (drop_while is_js_whitespace (rev (drop_while is_js_whitespace s))).

(** [.replace(/\\/g, '/')] *)
Definition backslash_to_slash (s : jstr) : jstr :=
  map (fun c => if c =? 92 then 47 else c) s.

(** [.replace(/\0/g, '')] *)
Definition remove_nul (s : jstr) : jstr := filter (fun c => negb (c =? 0)) s.

(** [.replace(/\.\.(?:\/|$)/g, '')]: a left-to-right scan; a match is ["../"] or
    [".."] at the end of the string. *)
Fixpoint strip_parent_refs (s : jstr) : jstr :=
  match s with
  | [] => []
  | c :: tl =>
      match tl with
      | [] => [c]
      | d :: tl2 =>
          if (c =? 46) && (d =? 46) then
            match tl2 with
            | [] => []
            | e :: tl3 => if e =? 47 then strip_parent_refs tl3 else c :: strip_parent_refs tl
            end
          else c :: strip_parent_refs tl
      end
  end.

(** [.replace(/\.\/+/g, '')]: [skipping] is set while the slashes of a match
    are being consumed. *)
Fixpoint strip_current_refs_go (skipping : bool) (s : jstr) : jstr :=
  match s with
  | [] => []
  | c :: tl =>
      if skipping && (c =? 47) then strip_current_refs_go true tl
      else if (c =? 46) && match tl with d :: _ => d =? 47 | [] => false end
      then strip_current_refs_go true tl
      else c :: strip_current_refs_go false tl
  end.

Definition strip_current_refs (s : jstr) : jstr := strip_current_refs_go false s.

(** [.replace(/\/+/g, '/')] *)
Fixpoint collapse_slashes_go (prev_slash : bool) (s : jstr) : jstr :=
  match s with
  | [] => []
  | c :: tl =>
      if c =? 47 then
        if prev_slash then collapse_slashes_go true tl else c :: collapse_slashes_go true tl
      else c :: collapse_slashes_go false tl
  end.

Definition collapse_slashes (s : jstr) : jstr := collapse_slashes_go false s.

(** [.replace(/^\/+/, '')] *)
Definition strip_leading_slashes (s : jstr) : jstr := drop_while (fun c => c =? 47) s.

(** [.replace(/\/+$/, '')] *)
Definition strip_trailing_slashes (s : jstr) : jstr :=
  rev (drop_while (fun c => c =? 47) (rev s)).

(** [.replace(/\.\./g, '')] *)
Fixpoint remove_dotdot (s : jstr) : jstr :=
  match s with
  | [] => []
  | c :: tl =>
      match tl with
      | d :: tl2 => if (c =? 46) && (d =? 46) then remove_dotdot tl2 else c :: remove_dotdot tl
      | [] => [c]
      end
  end.

(** [while (sanitized.includes('..')) sanitized = sanitized.replace(/\.\./g, '')];
    every round removes at least two code units, so [List.length s] rounds suffice. *)
Fixpoint dotdot_loop (fuel : nat) (s : jstr) : jstr :=
  match fuel with
  | O => s
  | S fuel' => if includes s (u "..") then dotdot_loop fuel' (remove_dotdot s) else s
  end.

(** [sanitizePath] (on a string argument) *)
Definition sanitizePath (path : jstr) : jstr :=
  let sanitized :=
    strip_leading_slashes
      (collapse_slashes
         (strip_current_refs
            (strip_parent_refs
               (remove_nul (backslash_to_slash (trim path)))))) in
  let sanitized := dotdot_loop (List.length sanitized) sanitized in
  strip_trailing_slashes (strip_leading_slashes (collapse_slashes sanitized)).

(** [hasPathTraversal] (on a string argument) *)
Definition hasPathTraversal (input : jstr) : bool :=
  includes input (u "..")
  || includes input (u "..\")
  || includes_ci input (u "%2e%2e")
  || includes_ci input (u "%252e%252e")
  || includes_ci input (u ".%2e")
  || includes_ci input (u "%2e.").

End PathGuard.

(** ** JavaScript values *)

Module Js.

(** The values the security utilities receive as [unknown].  A finite
    number is held in one of two forms: [JNum z] for an integer of magnitude
    below [10^21], and [JNumDec neg s n] for every other finite number, given
    by the decomposition Number::toString prints it from: the value
    [(-1)^neg * s * 10^(n - k)] with [k] the number of decimal digits of [s]
    and [s] not a multiple of 10 (so a non-integer, or an integer of
    magnitude at least [10^21]); [JNumDec true 0 0] is [-0].  Objects are
    either fresh literals ([JArray], [JObject], reachable only from their
    parent) or references into a heap ([JRef]), so that shared and cyclic
    objects can be expressed.  Objects carry their own enumerable data
    properties, in property order. *)
Inductive jsval :=
| JUndefined
| JNull
| JBool (b : bool)
| JNum (z : Z)
| JNumDec (neg : bool) (s : N) (n : Z)
| JBigInt (z : Z)
| JString (s : jstr)
| JSymbol (description : jstr)
| JFunction (text : jstr)
| JArray (elems : list jsval)
| JObject (props : list (jstr * jsval))
| JRegExp (source flags : jstr)
| JRef (loc : nat).

Inductive heap_obj :=
| HArray (elems : list jsval)
| HObject (props : list (jstr * jsval)).

Definition heap := list heap_obj.

Fixpoint assoc_get (k : jstr) (ps : list (jstr * jsval)) : option jsval :=
  match ps with
  | [] => None
  | (k', v) :: ps' => if jstr_eqb k k' then Some v else assoc_get k ps'
  end.

(** [obj[key]] for the string keys the sanitizer reads (none of them is an
    array index, [length], or a RegExp or function own property). *)
Definition get (H : heap) (v : jsval) (key : jstr) : jsval :=
  let from_props ps := match assoc_get key ps with Some x => x | None => JUndefined end in
  match v with
  | JObject ps => from_props ps
  | JRef l =>
      match nth_error H l with
      | Some (HObject ps) => from_props ps
      | _ => JUndefined
      end
  | _ => JUndefined
  end.

(** [typeof v === 'object' && v !== null] *)
Definition is_object (v : jsval) : bool :=
  match v with
  | JArray _ | JObject _ | JRegExp _ _ | JRef _ => true
  | _ => false
  end.

End Js.

(** ** JSON text: [JSON.stringify], the service-worker escaper, [JSON.parse] *)

Module Json.
Import Js.

(** Outcome of SerializeJSONProperty: a text, [undefined], or a thrown TypeError. *)
Inductive ser_result := SOk (text : jstr) | SUndefined | SThrow.

Definition hex_digit (d : N) : N := if d <? 10 then 48 + d else 87 + d.

(** UnicodeEscape: [\u] and four lowercase hex digits. *)
Definition unicode_escape (c : N) : jstr :=
  [92; 117; hex_digit ((c / 4096) mod 16); hex_digit ((c / 256) mod 16);
   hex_digit ((c / 16) mod 16); hex_digit (c mod 16)].

Definition is_high_surrogate (c : N) : bool := (55296 <=? c) && (c <=? 56319).
Definition is_low_surrogate (c : N) : bool := (56320 <=? c) && (c <=? 57343).

(** The body of QuoteJSONString, over code units (paired surrogates are
    copied, lone ones escaped). *)
Fixpoint quote_units (s : jstr) : jstr :=
  match s with
  | [] => []
  | c :: tl =>
      if c =? 8 then 92 :: 98 :: quote_units tl
      else if c =? 9 then 92 :: 116 :: quote_units tl
      else if c =? 10 then 92 :: 110 :: quote_units tl
      else if c =? 12 then 92 :: 102 :: quote_units tl
      else if c =? 13 then 92 :: 114 :: quote_units tl
      else if c =? 34 then 92 :: 34 :: quote_units tl
      else if c =? 92 then 92 :: 92 :: quote_units tl
      else if c <? 32 then unicode_escape c ++ quote_units tl
      else if is_high_surrogate c then
        match tl with
        | d :: tl' =>
            if is_low_surrogate d then c :: d :: quote_units tl'
            else unicode_escape c ++ quote_units tl
        | [] => unicode_escape c
        end
      else if is_low_surrogate c then unicode_escape c ++ quote_units tl
      else c :: quote_units tl
  end.

Definition quote (s : jstr) : jstr := 34 :: quote_units s ++ [34].

(** Decimal digits of a natural number (Number::toString on integers). *)
Fixpoint digits_go (fuel : nat) (n : N) (acc : jstr) : jstr :=
  match fuel with
  | O => acc
  | S f =>
      let acc' := (48 + n mod 10) :: acc in
      if n <? 10 then acc' else digits_go f (n / 10) acc'
  end.

Definition n_digits (n : N) : jstr := digits_go (S (N.size_nat n)) n [].

Definition z_text (z : Z) : jstr :=
  if (z <? 0)%Z then 45 :: n_digits (Z.to_N (- z)) else n_digits (Z.to_N z).

Definition zeros (m : nat) : jstr := repeat 48 m.

(** The exponent part of Number::toString: ["e"], the sign, the digits. *)
Definition exp_text (e : Z) : jstr :=
  101 :: (if (e <? 0)%Z then 45 else 43) :: n_digits (Z.to_N (Z.abs e)).

(** Number::toString for the finite number [(-1)^neg * s * 10^(n - k)], [k]
    the number of digits of [s] (which is not a multiple of 10); [s = 0] is
    [+0] or [-0], both printed ["0"]. *)
Definition dec_text (neg : bool) (s : N) (n : Z) : jstr :=
  if s =? 0 then u "0"
  else
    let ds := n_digits s in
    let k := Z.of_nat (List.length ds) in
    (if neg then [45] else [])
    ++ (if (k <=? n)%Z && (n <=? 21)%Z then ds ++ zeros (Z.to_nat (n - k))
        else if (0 <? n)%Z && (n <=? 21)%Z then
          firstn (Z.to_nat n) ds ++ 46 :: skipn (Z.to_nat n) ds
        else if (-6 <? n)%Z && (n <=? 0)%Z then 48 :: 46 :: zeros (Z.to_nat (- n)) ++ ds
        else
          match ds with
          | [d] => d :: exp_text (n - 1)
          | d :: rest => d :: 46 :: rest ++ exp_text (n - 1)
          | [] => exp_text (n - 1)
          end).

(** [m = s * 10^(t' - t)] with [s] not a multiple of 10: the trailing zeros of
    [m] moved into the exponent [t]. *)
Fixpoint strip_zeros (fuel : nat) (m : N) (t : Z) : N * Z :=
  match fuel with
  | O => (m, t)
  | S f => if (0 <? m) && (m mod 10 =? 0) then strip_zeros f (m / 10) (t + 1) else (m, t)
  end.

(** Number::toString on an integer: its digits below [10^21] in magnitude,
    the exponent form from there on. *)
Definition int_text (z : Z) : jstr :=
  if (Z.abs z <? 10 ^ 21)%Z then z_text z
  else
    let m := Z.to_N (Z.abs z) in
    let '(s, t) := strip_zeros (N.size_nat m) m 0 in
    dec_text (z <? 0)%Z s (t + Z.of_nat (List.length (n_digits s))).

Fixpoint join_commas (parts : list jstr) : jstr :=
  match parts with
  | [] => []
  | [x] => x
  | x :: parts' => x ++ 44 :: join_commas parts'
  end.

Inductive parts_result := Parts (l : list jstr) | PartsThrow | PartsFuel.

Definition cons_part (t : jstr) (r : parts_result) : parts_result :=
  match r with Parts l => Parts (t :: l) | other => other end.

(** SerializeJSONArray's loop: [undefined] elements become [null]. *)
Fixpoint array_parts (rs : list (option ser_result)) : parts_result :=
  match rs with
  | [] => Parts []
  | None :: _ => PartsFuel
  | Some SThrow :: _ => PartsThrow
  | Some SUndefined :: rs' => cons_part (u "null") (array_parts rs')
  | Some (SOk t) :: rs' => cons_part t (array_parts rs')
  end.

(** SerializeJSONObject's loop: [undefined] members are skipped. *)
Fixpoint object_parts (rs : list (jstr * option ser_result)) : parts_result :=
  match rs with
  | [] => Parts []
  | (_, None) :: _ => PartsFuel
  | (_, Some SThrow) :: _ => PartsThrow
  | (_, Some SUndefined) :: rs' => object_parts rs'
  | (k, Some (SOk t)) :: rs' => cons_part (quote k ++ 58 :: t) (object_parts rs')
  end.

Definition finish (openc closec : N) (r : parts_result) : option ser_result :=
  match r with
  | Parts l => Some (SOk (openc :: join_commas l ++ [closec]))
  | PartsThrow => Some SThrow
  | PartsFuel => None
  end.

(** SerializeJSONProperty without replacer or indentation.  [stack] holds
    the heap objects being serialized; meeting one of them again throws
    (the cycle check of SerializeJSONArray/Object).  [fuel] bounds the number
    of heap objects entered; [None] means it ran out, which
    [ser_fuel_enough] below shows never happens from [escapeForServiceWorker]. *)
Fixpoint ser (fuel : nat) (H : heap) (stack : list nat) : jsval -> option ser_result :=
  fix go (v : jsval) : option ser_result :=
    match v with
    | JUndefined | JSymbol _ | JFunction _ => Some SUndefined
    | JNull => Some (SOk (u "null"))
    | JBool true => Some (SOk (u "true"))
    | JBool false => Some (SOk (u "false"))
    | JNum z => Some (SOk (int_text z))
    | JNumDec neg s n => Some (SOk (dec_text neg s n))
    | JBigInt _ => Some SThrow
    | JString s => Some (SOk (quote s))
    | JArray es => finish 91 93 (array_parts (map go es))
    | JObject ps => finish 123 125 (object_parts (map (fun kv => (fst kv, go (snd kv))) ps))
    | JRegExp _ _ => Some (SOk (u "{}"))
    | JRef l =>
        if existsb (Nat.eqb l) stack then Some SThrow
        else
          match nth_error H l with
          | None => Some SUndefined
          | Some o =>
              match fuel with
              | O => None
              | S f =>
                  match o with
                  | HArray es => finish 91 93 (array_parts (map (ser f H (l :: stack)) es))
                  | HObject ps =>
                      finish 123 125
                        (object_parts (map (fun kv => (fst kv, ser f H (l :: stack) (snd kv))) ps))
                  end
              end
          end
    end.

(** [JSON.stringify(value)]: [None] is a thrown error, [Some None] is [undefined]. *)
Definition stringify (H : heap) (v : jsval) : option (option jstr) :=
  match ser (S (List.length H)) H [] v with
  | Some (SOk t) => Some (Some t)
  | Some SUndefined => Some None
  | _ => None
  end.

(** Code-unit comparison used by [prefix_by]. *)
Fixpoint prefix_by (eq : N -> N -> bool) (pat s : jstr) : bool :=
  match pat, s with
  | [], _ => true
  | p :: pat', c :: s' => eq p c && prefix_by eq pat' s'
  | _ :: _, [] => false
  end.

(** [s.replace(/pat/g, repl)] for a literal, non-empty pattern [pat] whose code
    units are compared with [eq]: a left-to-right scan over non-overlapping
    matches; [skip] counts the code units of the current match still to drop. *)
Fixpoint replace_go (eq : N -> N -> bool) (pat repl : jstr) (skip : nat) (s : jstr) : jstr :=
  match s with
  | [] => []
  | c :: tl =>
      match skip with
      | S k => replace_go eq pat repl k tl
      | O =>
          if prefix_by eq pat s then repl ++ replace_go eq pat repl (pred (List.length pat)) tl
          else c :: replace_go eq pat repl O tl
      end
  end.

Definition replace_all (eq : N -> N -> bool) (pat repl s : jstr) : jstr :=
  replace_go eq pat repl O s.

Definition ci_eq (a b : N) : bool := to_lower a =? to_lower b.

(** The replacement chain of [escapeForServiceWorker], in source order. *)
Definition escape_text (t : jstr) : jstr :=
  let t := replace_all N.eqb [92] [92; 92] t in
  let t := replace_all N.eqb [96] [92; 96] t in
  let t := replace_all N.eqb (u "${") (u "\${") t in
  let t := replace_all ci_eq (u "</script>") (u "<\/script>") t in
  let t := replace_all N.eqb (u "<!--") (u "<\!--") t in
  let t := replace_all N.eqb [8232] (u "\u2028") t in
  replace_all N.eqb [8233] (u "\u2029") t.

(** [escapeForServiceWorker] *)
Definition escapeForServiceWorker (H : heap) (value : jsval) : jstr :=
  match value with
  | JUndefined => u "undefined"
  | JFunction _ => u "null"
  | JSymbol _ => u "null"
  | JBigInt z => 34 :: z_text z ++ [34]
  | _ =>
      match stringify H value with
      | None => u "null"
      | Some None => u "null"
      | Some (Some serialized) => escape_text serialized
      end
  end.

End Json.

(** [JSON.parse], the reader of the text the escaper produces. *)

Module JsonParse.
Import Js.

Definition is_json_ws (c : N) : bool := (c =? 9) || (c =? 10) || (c =? 13) || (c =? 32).
Definition skip_ws (s : jstr) : jstr := PathGuard.drop_while is_json_ws s.

Definition is_digit (c : N) : bool := (48 <=? c) && (c <=? 57).

Definition hex_val (h : N) : option N :=
  if is_digit h then Some (h - 48)
  else if (97 <=? h) && (h <=? 102) then Some (h - 87)
  else if (65 <=? h) && (h <=? 70) then Some (h - 55)
  else None.

Definition simple_escape (e : N) : option N :=
  if e =? 34 then Some 34 else if e =? 92 then Some 92 else if e =? 47 then Some 47
  else if e =? 98 then Some 8 else if e =? 102 then Some 12 else if e =? 110 then Some 10
  else if e =? 114 then Some 13 else if e =? 116 then Some 9 else None.

Definition cons_unit (x : N) (r : option (jstr * jstr)) : option (jstr * jstr) :=
  match r with Some (b, rest) => Some (x :: b, rest) | None => None end.

(** A string literal after its opening quote: its code units and the text
    after the closing quote. *)
Fixpoint parse_string_body (s : jstr) : option (jstr * jstr) :=
  match s with
  | [] => None
  | c :: tl =>
      if c =? 34 then Some ([], tl)
      else if c =? 92 then
        match tl with
        | [] => None
        | e :: tl2 =>
            if e =? 117 then
              match tl2 with
              | h1 :: h2 :: h3 :: h4 :: tl3 =>
                  match hex_val h1, hex_val h2, hex_val h3, hex_val h4 with
                  | Some a, Some b, Some c', Some d =>
                      cons_unit (a * 4096 + b * 256 + c' * 16 + d) (parse_string_body tl3)
                  | _, _, _, _ => None
                  end
              | _ => None
              end
            else
              match simple_escape e with
              | Some x => cons_unit x (parse_string_body tl2)
              | None => None
              end
        end
      else if c <? 32 then None
      else cons_unit c (parse_string_body tl)
  end.

Fixpoint span_digits (s : jstr) : jstr * jstr :=
  match s with
  | c :: tl => if is_digit c then let (d, r) := span_digits tl in (c :: d, r) else ([], s)
  | [] => ([], [])
  end.

Definition digits_value (ds : jstr) : N := fold_left (fun acc d => acc * 10 + (d - 48)) ds 0.

(** The value of the literal [(-1)^neg * m * 10^e], in the form [jsval]
    holds numbers.  The literal is read exactly: [JSON.parse] rounds it to
    the nearest double, which is the same value for every literal
    Number::toString prints. *)
Definition num_value (neg : bool) (m : N) (e : Z) : jsval :=
  if m =? 0 then (if neg then JNumDec true 0 0 else JNum 0)
  else
    let '(s, t) := Json.strip_zeros (N.size_nat m) m e in
    let k := Z.of_nat (List.length (Json.n_digits s)) in
    let n := (t + k)%Z in
    if (k <=? n)%Z && (n <=? 21)%Z then
      JNum (let z := (Z.of_N s * 10 ^ (n - k))%Z in if neg then (- z)%Z else z)
    else JNumDec neg s n.

(** The fraction of a number literal: ['.'] and at least one digit, or nothing. *)
Definition parse_frac (s : jstr) : option (jstr * jstr) :=
  match s with
  | c :: tl =>
      if c =? 46 then
        match span_digits tl with
        | ([], _) => None
        | (ds, r) => Some (ds, r)
        end
      else Some ([], s)
  | [] => Some ([], [])
  end.

(** The exponent of a number literal: [e] or [E], an optional sign and at
    least one digit, or nothing. *)
Definition parse_exp (s : jstr) : option (Z * jstr) :=
  match s with
  | c :: tl =>
      if (c =? 101) || (c =? 69) then
        let '(eneg, t) := match tl with
                          | d :: t' => if d =? 45 then (true, t')
                                       else if d =? 43 then (false, t') else (false, tl)
                          | [] => (false, tl)
                          end in
        match span_digits t with
        | ([], _) => None
        | (ds, r) => let x := Z.of_N (digits_value ds) in Some (if eneg then (- x)%Z else x, r)
        end
      else Some (0%Z, s)
  | [] => Some (0%Z, [])
  end.

(** A number literal: an optional minus, the integer part (["0"] or digits
    not starting with ["0"]), the fraction and the exponent. *)
Definition parse_number (s : jstr) : option (jsval * jstr) :=
  let '(neg, s1) := match s with
                    | c :: tl => if c =? 45 then (true, tl) else (false, s)
                    | [] => (false, s)
                    end in
  let int_part := match s1 with
                  | c :: tl =>
                      if c =? 48 then Some ([c], tl)
                      else if is_digit c then Some (span_digits s1) else None
                  | [] => None
                  end in
  match int_part with
  | None => None
  | Some (ids, r1) =>
      match parse_frac r1 with
      | None => None
      | Some (fds, r2) =>
          match parse_exp r2 with
          | None => None
          | Some (x, r3) =>
              Some (num_value neg (digits_value (ids ++ fds)) (x - Z.of_nat (List.length fds))%Z, r3)
          end
      end
  end.

(** CreateDataProperty on a parsed object: a repeated key keeps its place
    and takes the later value. *)
Fixpoint obj_set (ps : list (jstr * jsval)) (k : jstr) (v : jsval) : list (jstr * jsval) :=
  match ps with
  | [] => [(k, v)]
  | (k', v') :: ps' => if jstr_eqb k k' then (k', v) :: ps' else (k', v') :: obj_set ps' k v
  end.

Fixpoint parse_value (fuel : nat) (s : jstr) {struct fuel} : option (jsval * jstr) :=
  match fuel with
  | O => None
  | S f =>
      match s with
      | [] => None
      | c :: tl =>
          if c =? 110 then (if starts_with (u "ull") tl then Some (JNull, skipn 3 tl) else None)
          else if c =? 116 then (if starts_with (u "rue") tl then Some (JBool true, skipn 3 tl) else None)
          else if c =? 102 then (if starts_with (u "alse") tl then Some (JBool false, skipn 4 tl) else None)
          else if c =? 34 then
            match parse_string_body tl with
            | Some (b, r) => Some (JString b, r)
            | None => None
            end
          else if c =? 91 then
            match skip_ws tl with
            | d :: r => if d =? 93 then Some (JArray [], r) else parse_elements f [] (skip_ws tl)
            | [] => None
            end
          else if c =? 123 then
            match skip_ws tl with
            | d :: r => if d =? 125 then Some (JObject [], r) else parse_members f [] (skip_ws tl)
            | [] => None
            end
          else if (c =? 45) || is_digit c then parse_number s
          else None
      end
  end
with parse_elements (fuel : nat) (acc : list jsval) (s : jstr) {struct fuel}
  : option (jsval * jstr) :=
  match fuel with
  | O => None
  | S f =>
      match parse_value f s with
      | None => None
      | Some (v, r) =>
          match skip_ws r with
          | d :: r' =>
              if d =? 44 then parse_elements f (acc ++ [v]) (skip_ws r')
              else if d =? 93 then Some (JArray (acc ++ [v]), r')
              else None
          | [] => None
          end
      end
  end
with parse_members (fuel : nat) (acc : list (jstr * jsval)) (s : jstr) {struct fuel}
  : option (jsval * jstr) :=
  match fuel with
  | O => None
  | S f =>
      match s with
      | c :: tl =>
          if c =? 34 then
            match parse_string_body tl with
            | None => None
            | Some (k, r) =>
                match skip_ws r with
                | d :: r2 =>
                    if d =? 58 then
                      match parse_value f (skip_ws r2) with
                      | None => None
                      | Some (v, r3) =>
                          match skip_ws r3 with
                          | e :: r4 =>
                              if e =? 44 then parse_members f (obj_set acc k v) (skip_ws r4)
                              else if e =? 125 then Some (JObject (obj_set acc k v), r4)
                              else None
                          | [] => None
                          end
                      end
                    else None
                | [] => None
                end
            end
          else None
      | [] => None
      end
  end.

(** [JSON.parse(text)]; [None] is a SyntaxError.  Every call of the parser
    consumes input before the next one, so the fuel is never the limit. *)
Definition JSON_parse (text : jstr) : option jsval :=
  match parse_value (2 * List.length text + 2) (skip_ws text) with
  | Some (v, r) => match skip_ws r with [] => Some v | _ => None end
  | None => None
  end.

End JsonParse.

(** ** Rule sanitizer ([sanitizeRuntimeCachingRule] in the security utilities) *)

Module RuleSanitizer.
Import Js.

Definition ALLOWED_HANDLERS : list jstr :=
  [u "CacheFirst"; u "CacheOnly"; u "NetworkFirst"; u "NetworkOnly"; u "StaleWhileRevalidate"].

(** [ALLOWED_HANDLERS.includes(handler)] *)
Definition allowed_handler (h : jstr) : bool := existsb (jstr_eqb h) ALLOWED_HANDLERS.

Definition is_cache_name_char (c : N) : bool :=
  ((48 <=? c) && (c <=? 57)) || ((65 <=? c) && (c <=? 90)) || ((97 <=? c) && (c <=? 122))
  || (c =? 95) || (c =? 45).

(** [/^[a-zA-Z0-9_-]+$/.test(cacheName) && cacheName.length <= 100] *)
Definition cache_name_ok (s : jstr) : bool :=
  match s with
  | [] => false
  | _ => forallb is_cache_name_char s
  end && (List.length s <=? 100)%nat.

(** [typeof x === 'number' && Number.isInteger(x) && x > 0 && x <= bound]
    (a [JNumDec] is [-0], not an integer, or at least [10^21] in magnitude,
    so it never passes) *)
Definition positive_int_le (x : jsval) (bound : Z) : option Z :=
  match x with
  | JNum z => if (0 <? z)%Z && (z <=? bound)%Z then Some z else None
  | _ => None
  end.

(** The properties copied into [sanitizedExpiration]. *)
Definition sanitize_expiration (H : heap) (expiration : jsval) : list (jstr * jsval) :=
  match positive_int_le (get H expiration (u "maxEntries")) 10000 with
  | Some z => [(u "maxEntries", JNum z)]
  | None => []
  end
  ++ match positive_int_le (get H expiration (u "maxAgeSeconds")) 31536000 with
     | Some z => [(u "maxAgeSeconds", JNum z)]
     | None => []
     end.

(** The properties copied into [sanitizedOptions]. *)
Definition sanitize_options (H : heap) (options : jsval) : list (jstr * jsval) :=
  match get H options (u "cacheName") with
  | JString c => if cache_name_ok c then [(u "cacheName", JString c)] else []
  | _ => []
  end
  ++ (let expiration := get H options (u "expiration") in
      if is_object expiration then
        match sanitize_expiration H expiration with
        | [] => []
        | se => [(u "expiration", JObject se)]
        end
      else [])
  ++ match positive_int_le (get H options (u "networkTimeoutSeconds")) 300 with
     | Some z => [(u "networkTimeoutSeconds", JNum z)]
     | None => []
     end.

(** [sanitizeRuntimeCachingRule]; the returned object is built property by
    property, as the code builds it. *)
Definition sanitizeRuntimeCachingRule (H : heap) (rule : jsval) : option jsval :=
  if negb (is_object rule) then None
  else
    let urlPattern :=
      match get H rule (u "urlPattern") with
      | JString s => if (List.length s =? 0)%nat || includes s [0] then None else Some s
      | JRegExp source flags => Some (47 :: source ++ 47 :: flags)   (* RegExp#toString *)
      | _ => None
      end in
    match urlPattern with
    | None => None
    | Some urlPattern =>
        match get H rule (u "handler") with
        | JString handler =>
            if allowed_handler handler then
              let sanitized := [(u "urlPattern", JString urlPattern); (u "handler", JString handler)] in
              let options := get H rule (u "options") in
              if is_object options then
                match sanitize_options H options with
                | [] => Some (JObject sanitized)
                | so => Some (JObject (sanitized ++ [(u "options", JObject so)]))
                end
              else Some (JObject sanitized)
            else None
        | _ => None
        end
    end.

End RuleSanitizer.

(* ================================================================== *)
(** ** MD5 ([crypto.createHash("md5")] of Node.js) *)

Module Md5.
Open Scope Z_scope.

(** Round constants [floor (2^32 * |sin (i + 1)|)]. *)
Definition K : list Z :=
  [3614090360; 3905402710; 606105819; 3250441966; 4118548399; 1200080426; 2821735955; 4249261313;
   1770035416; 2336552879; 4294925233; 2304563134; 1804603682; 4254626195; 2792965006; 1236535329;
   4129170786; 3225465664; 643717713; 3921069994; 3593408605; 38016083; 3634488961; 3889429448;
   568446438; 3275163606; 4107603335; 1163531501; 2850285829; 4243563512; 1735328473; 2368359562;
   4294588738; 2272392833; 1839030562; 4259657740; 2763975236; 1272893353; 4139469664; 3200236656;
   681279174; 3936430074; 3572445317; 76029189; 3654602809; 3873151461; 530742520; 3299628645;
   4096336452; 1126891415; 2878612391; 4237533241; 1700485571; 2399980690; 4293915773; 2240044497;
   1873313359; 4264355552; 2734768916; 1309151649; 4149444226; 3174756917; 718787259; 3951481745].

(** Per-round left-rotation amounts. *)
Definition SHIFTS : list Z :=
  [7; 12; 17; 22; 7; 12; 17; 22; 7; 12; 17; 22; 7; 12; 17; 22;
   5; 9; 14; 20; 5; 9; 14; 20; 5; 9; 14; 20; 5; 9; 14; 20;
   4; 11; 16; 23; 4; 11; 16; 23; 4; 11; 16; 23; 4; 11; 16; 23;
   6; 10; 15; 21; 6; 10; 15; 21; 6; 10; 15; 21; 6; 10; 15; 21].

Definition add32 (a b : Z) : Z := (a + b) mod 2 ^ 32.
Definition not32 (x : Z) : Z := Z.lxor x (Z.ones 32).
Definition rotl32 (x c : Z) : Z :=
  Z.lor (Z.land (Z.shiftl x c) (Z.ones 32)) (Z.shiftr x (32 - c)).

(** Little-endian bytes of a [w]-byte word. *)
Fixpoint le_bytes (w : nat) (x : Z) : list Z :=
  match w with
  | O => []
  | S w' => x mod 256 :: le_bytes w' (x / 256)
  end.

Definition le_word (b0 b1 b2 b3 : Z) : Z := b0 + 256 * b1 + 65536 * b2 + 16777216 * b3.

Fixpoint words (bs : list Z) : list Z :=
  match bs with
  | b0 :: b1 :: b2 :: b3 :: rest => le_word b0 b1 b2 b3 :: words rest
  | _ => []
  end.

(** Padding: one [0x80] byte, zeros up to 56 mod 64, the bit length as a
    little-endian 64-bit word. *)
Definition pad (msg : list Z) : list Z :=
  let len := List.length msg in
  msg ++ [128] ++ repeat 0 ((119 - len mod 64) mod 64)%nat
      ++ le_bytes 8 ((8 * Z.of_nat len) mod 2 ^ 64).

Definition state := (Z * Z * Z * Z)%type.

Definition round (m : list Z) (st : state) (i : nat) : state :=
  let '(a, b, c, d) := st in
  let '(f, g) :=
    if (i <? 16)%nat then (Z.lor (Z.land b c) (Z.land (not32 b) d), i)
    else if (i <? 32)%nat then (Z.lor (Z.land d b) (Z.land (not32 d) c), (5 * i + 1) mod 16)%nat
    else if (i <? 48)%nat then (Z.lxor b (Z.lxor c d), (3 * i + 5) mod 16)%nat
    else (Z.lxor c (Z.lor b (not32 d)), (7 * i) mod 16)%nat in
  let f := add32 (add32 (add32 f a) (nth i K 0)) (nth g m 0) in
  (d, add32 b (rotl32 f (nth i SHIFTS 0)), b, c).

Definition block (st : state) (m : list Z) : state :=
  let '(a, b, c, d) := st in
  let '(a', b', c', d') := fold_left (round m) (seq 0 64) st in
  (add32 a a', add32 b b', add32 c c', add32 d d').

Fixpoint blocks (fuel : nat) (st : state) (bs : list Z) : state :=
  match fuel with
  | O => st
  | S f =>
      match bs with
      | [] => st
      | _ => blocks f (block st (words (firstn 64 bs))) (skipn 64 bs)
      end
  end.

Definition init : state := (1732584193, 4023233417, 2562383102, 271733878).

Definition digest (msg : list Z) : list Z :=
  let p := pad msg in
  let '(a, b, c, d) := blocks (List.length p) init p in
  le_bytes 4 a ++ le_bytes 4 b ++ le_bytes 4 c ++ le_bytes 4 d.

Close Scope Z_scope.

(** [digest("hex")]: two lower-case hex digits per byte. *)
Definition hex (bs : list Z) : jstr :=
  flat_map (fun b => [Json.hex_digit (Z.to_N b / 16); Json.hex_digit (Z.to_N b mod 16)]) bs.

End Md5.

(** ** Node's [path.posix] ([join], [normalize]) *)

Module NodePath.

Definition is_empty (s : jstr) : bool := match s with [] => true | _ => false end.

(** The segments between ['/'] separators. *)
Fixpoint split_slash_go (cur : jstr) (s : jstr) : list jstr :=
  match s with
  | [] => [rev cur]
  | c :: s' => if c =? 47 then rev cur :: split_slash_go [] s' else split_slash_go (c :: cur) s'
  end.

Definition split_slash (s : jstr) : list jstr := split_slash_go [] s.

Fixpoint join_slash (segs : list jstr) : jstr :=
  match segs with
  | [] => []
  | [s] => s
  | s :: rest => s ++ 47 :: join_slash rest
  end.

(** [normalizeString]: empty and ["."] segments vanish, [".."] removes the
    previous segment, or is kept when nothing is left to remove and
    [allowAboveRoot] holds.  [acc] is the result so far, last segment first. *)
Fixpoint normalize_segments (allowAboveRoot : bool) (acc : list jstr) (segs : list jstr)
  : list jstr :=
  match segs with
  | [] => acc
  | seg :: rest =>
      if is_empty seg || jstr_eqb seg (u ".") then normalize_segments allowAboveRoot acc rest
      else if jstr_eqb seg (u "..") then
        match acc with
        | top :: acc' =>
            if jstr_eqb top (u "..")
            then normalize_segments allowAboveRoot
                   (if allowAboveRoot then seg :: acc else acc) rest
            else normalize_segments allowAboveRoot acc' rest
        | [] => normalize_segments allowAboveRoot (if allowAboveRoot then [seg] else []) rest
        end
      else normalize_segments allowAboveRoot (seg :: acc) rest
  end.

(** [path.posix.normalize] *)
Definition normalize (path : jstr) : jstr :=
  match path with
  | [] => u "."
  | _ =>
      let isAbsolute := starts_with [47] path in
      let trailingSeparator := last path 0 =? 47 in
      let res := join_slash (rev (normalize_segments (negb isAbsolute) [] (split_slash path))) in
      match res with
      | [] => if isAbsolute then u "/" else if trailingSeparator then u "./" else u "."
      | _ =>
          let res := if trailingSeparator then res ++ [47] else res in
          if isAbsolute then 47 :: res else res
      end
  end.

(** [path.posix.join(...args)] *)
Definition join (args : list jstr) : jstr :=
  match join_slash (filter (fun a => negb (is_empty a)) args) with
  | [] => u "."
  | joined => normalize joined
  end.

End NodePath.

(** ** Precache manifest generator ([src/src/adapter/manifest-generator.ts]) *)

Module ManifestGen.
Import NodePath.

(** [PrecacheEntry] *)
Record PrecacheEntry := mkEntry { url : jstr; revision : option jstr }.

(** An element of [buildExcludes]: a string glob, or a RegExp object, given by
    its [test] method (a non-global, non-sticky RegExp, whose [test] does not
    depend on [lastIndex]). *)
Inductive ExcludePattern :=
| ExclString (pattern : jstr)
| ExclRegExp (test : jstr -> bool).

(** [ManifestGeneratorOptions]; [modifyURLPrefix] is listed in the
    [Object.entries] order of the record. *)
Record ManifestGeneratorOptions := {
  buildDir : jstr;
  publicDir : jstr;
  basePath : jstr;
  publicExcludes : list jstr;
  buildExcludes : list ExcludePattern;
  additionalManifestEntries : list PrecacheEntry;
  modifyURLPrefix : list (jstr * jstr);
  projectRoot : jstr
}.

(** [NextBuildManifest], as returned by [JSON.parse]; [pages] is listed in the
    [Object.values] order of the record. *)
Record NextBuildManifest := {
  polyfillFiles : option (list jstr);
  devFiles : option (list jstr);
  ampDevFiles : option (list jstr);
  lowPriorityFiles : option (list jstr);
  rootMainFiles : option (list jstr);
  pages : option (list (jstr * list jstr));
  ampFirstPages : option (list jstr)
}.

(** *** File system and effects *)

Inductive event :=
| EStat (path : jstr)
| EReadFile (path : jstr)
| EGlob (cwd : jstr) (ignore : list jstr).

(** What the generator observes of the file system. *)
Record FS := {
  fs_exists : jstr -> bool;                        (* [stat(path)] resolves *)
  fs_read : jstr -> option (list Byte.byte);       (* [readFile(path)] *)
  fs_build_manifest : jstr -> option NextBuildManifest;
    (* [JSON.parse(await readFile(path, "utf-8"))], [None] when either throws *)
  fs_glob : jstr -> list jstr -> option (list jstr);
    (* [globby("**/*", { cwd, onlyFiles: true, dot: false, ignore })] *)
  fs_clock : list event -> Z                       (* [Date.now()] after the given I/O *)
}.

Inductive outcome (A : Type) := Ok (a : A) | Err (message : jstr).
Arguments Ok {A} a.
Arguments Err {A} message.

(** An async function: runs against the I/O done so far, returns its outcome
    (a value, or a thrown error) and the I/O done after it. *)
Definition M (A : Type) : Type := list event -> outcome A * list event.

Definition ret {A} (a : A) : M A := fun tr => (Ok a, tr).

Definition bind {A B} (m : M A) (k : A -> M B) : M B :=
  fun tr => match m tr with
            | (Ok a, tr') => k a tr'
            | (Err e, tr') => (Err e, tr')
            end.

Definition throw {A} (message : jstr) : M A := fun tr => (Err message, tr).

Notation "x <- m ;; k" := (bind m (fun x => k))
  (at level 61, m at next level, right associativity).

(** [for (const x of xs)] over a loop state. *)
Fixpoint for_each {X S : Type} (step : X -> S -> M S) (xs : list X) (st : S) : M S :=
  match xs with
  | [] => ret st
  | x :: xs' => st' <- step x st ;; for_each step xs' st'
  end.

Section Generator.
Variable fs : FS.

Definition stat (path : jstr) : M bool :=
  fun tr => (Ok (fs_exists fs path), tr ++ [EStat path]).

Definition readFile (path : jstr) : M (option (list Byte.byte)) :=
  fun tr => (Ok (fs_read fs path), tr ++ [EReadFile path]).

Definition readManifestJson (path : jstr) : M (option NextBuildManifest) :=
  fun tr => (Ok (fs_build_manifest fs path), tr ++ [EReadFile path]).

Definition globby (cwd : jstr) (ignore : list jstr) : M (option (list jstr)) :=
  fun tr => (Ok (fs_glob fs cwd ignore), tr ++ [EGlob cwd ignore]).

Definition date_now : M Z := fun tr => (Ok (fs_clock fs tr), tr).

(** [isPathWithinProject] *)
Definition isPathWithinProject (filePath projectRoot : jstr) : bool :=
  let normalizedPath := join [filePath] in
  let normalizedRoot := join [projectRoot] in
  starts_with normalizedRoot normalizedPath.

(** [createHash("md5").update(bytes).digest("hex").slice(0, 8)] *)
Definition md5_hex8 (content : list Byte.byte) : jstr :=
  firstn 8 (Md5.hex (Md5.digest (map (fun b => Z.of_N (Byte.to_N b)) content))).

(** [Date.now().toString()] as the bytes hashed by [update]: its decimal
    digits are ASCII, so their UTF-8 bytes are the code units. *)
Definition now_bytes (t : Z) : list Byte.byte :=
  map (fun c => match Byte.of_N c with Some b => b | None => Byte.x00 end) (Json.z_text t).

(** [generateRevisionHash]; every failure is caught inside, so it never throws. *)
Definition generateRevisionHash (filePath : jstr) : M jstr :=
  content <- readFile filePath ;;
  match content with
  | Some bytes => ret (md5_hex8 bytes)
  | None => t <- date_now ;; ret (md5_hex8 (now_bytes t))
  end.

(** [.] in a RegExp without the [s] flag: anything but a line terminator. *)
Definition is_line_terminator (c : N) : bool :=
  (c =? 10) || (c =? 13) || (c =? 8232) || (c =? 8233).

(** [new RegExp(`^${regexPattern}$`).test(value)] for the [regexPattern] built
    from a glob: every metacharacter but [*] and [?] is escaped, then [*]
    becomes [.*] and [?] becomes [.]. *)
Fixpoint glob_test (pattern value : jstr) : bool :=
  match pattern with
  | [] => NodePath.is_empty value
  | 42 :: p' =>
      (fix star (v : jstr) : bool :=
         glob_test p' v
         || match v with
            | c :: v' => negb (is_line_terminator c) && star v'
            | [] => false
            end) value
  | 63 :: p' =>
      match value with
      | c :: v' => negb (is_line_terminator c) && glob_test p' v'
      | [] => false
      end
  | pc :: p' =>
      match value with
      | c :: v' => (pc =? c) && glob_test p' v'
      | [] => false
      end
  end.

(** [matchesExclusion] *)
Definition matchesExclusion (value : jstr) (patterns : list ExcludePattern) : bool :=
  existsb (fun pattern =>
             match pattern with
             | ExclString p => glob_test p value
             | ExclRegExp test => test value
             end) patterns.

(** [applyURLPrefixModifications] *)
Fixpoint applyURLPrefixModifications (modifiedUrl : jstr) (modifyURLPrefix : list (jstr * jstr))
  : jstr :=
  match modifyURLPrefix with
  | [] => modifiedUrl
  | (originalPrefix, newPrefix) :: rest =>
      if starts_with originalPrefix modifiedUrl
      then newPrefix ++ skipn (List.length originalPrefix) modifiedUrl
      else applyURLPrefixModifications modifiedUrl rest
  end.

(** [new Set(...)] / [Set.prototype.add]: insertion order, no repeats. *)
Fixpoint set_add_all (set : list jstr) (xs : list jstr) : list jstr :=
  match xs with
  | [] => set
  | x :: xs' => set_add_all (if CacheStrategies.set_has set x then set else set ++ [x]) xs'
  end.

Definition opt_list (o : option (list jstr)) : list jstr :=
  match o with Some l => l | None => [] end.

(** [readBuildManifest] *)
Definition readBuildManifest (buildDir : jstr) : M (option NextBuildManifest) :=
  let manifestPath := join [buildDir; u "build-manifest.json"] in
  readManifestJson manifestPath.

(** [extractAssetsFromManifest] *)
Definition extractAssetsFromManifest (manifest : NextBuildManifest) : list jstr :=
  let assets := set_add_all [] (opt_list (polyfillFiles manifest)) in
  let assets := set_add_all assets (opt_list (rootMainFiles manifest)) in
  let assets := set_add_all assets (opt_list (lowPriorityFiles manifest)) in
  match pages manifest with
  | Some ps => fold_left (fun s pageAssets => set_add_all s (snd pageAssets)) ps assets
  | None => assets
  end.

(** [getStaticBuildFiles] *)
Definition getStaticBuildFiles (buildDir projectRoot : jstr) : M (list jstr) :=
  let staticDir := join [buildDir; u "static"] in
  exists_ <- stat staticDir ;;
  if negb exists_ then ret [] else
  files <- globby staticDir [] ;;
  match files with
  | None => ret []
  | Some files =>
      ret (filter (fun file => negb (PathGuard.hasPathTraversal file))
                  (map (fun file => u "/_next/static/" ++ file) files))
  end.

(** [getPublicFiles] *)
Definition getPublicFiles (publicDir projectRoot : jstr) (excludePatterns : list jstr)
  : M (list jstr) :=
  exists_ <- stat publicDir ;;
  if negb exists_ then ret [] else
  if negb (isPathWithinProject publicDir projectRoot) then ret [] else
  files <- globby publicDir excludePatterns ;;
  match files with
  | None => ret []
  | Some files =>
      ret (filter (fun file => negb (PathGuard.hasPathTraversal file))
                  (map (fun file => 47 :: file) files))
  end.

(** [/\.[a-f0-9]{8,}\.(js|css|woff2?|ttf|eot|svg|png|jpg|jpeg|gif|webp|avif)$/i] *)
Definition hash_extensions : list jstr :=
  map u ["js"; "css"; "woff"; "woff2"; "ttf"; "eot"; "svg"; "png"; "jpg"; "jpeg"; "gif";
         "webp"; "avif"]%string.

Definition is_hex_ci (c : N) : bool :=
  ((48 <=? c) && (c <=? 57)) || ((97 <=? to_lower c) && (to_lower c <=? 102)).

Fixpoint count_while (p : N -> bool) (s : jstr) : nat :=
  match s with
  | c :: s' => if p c then S (count_while p s') else O
  | [] => O
  end.

(** [s] ends with a dot followed by at least 8 hex digits (any case). *)
Definition ends_dot_hex8 (s : jstr) : bool :=
  let r := rev s in
  let h := count_while is_hex_ci r in
  (8 <=? h)%nat && match skipn h r with 46 :: _ => true | _ => false end.

Definition hashPattern_test (url : jstr) : bool :=
  existsb (fun ext =>
             let suffix := 46 :: ext in
             starts_with_ci (rev suffix) (rev url)
             && ends_dot_hex8 (firstn (List.length url - List.length suffix) url))
          hash_extensions.

(** [/[a-f0-9]{8,}-/]: a dash after at least 8 lower-case hex digits. *)
Definition is_hex_lower (c : N) : bool := ((48 <=? c) && (c <=? 57)) || ((97 <=? c) && (c <=? 102)).

Fixpoint chunk_go (run : nat) (s : jstr) : bool :=
  match s with
  | [] => false
  | c :: s' =>
      if c =? 45 then (8 <=? run)%nat || chunk_go O s'
      else if is_hex_lower c then chunk_go (S run) s'
      else chunk_go O s'
  end.

Definition chunkHashPattern_test (url : jstr) : bool := chunk_go O url.

(** [needsRevision] *)
Definition needsRevision (url : jstr) : bool :=
  if hashPattern_test url then false
  else if chunkHashPattern_test url then false
  else true.

(** [basePath && basePath !== "/"] *)
Definition basePath_applies (basePath : jstr) : bool :=
  negb (is_empty basePath) && negb (jstr_eqb basePath (u "/")).

(** [asset.replace(/^\/_next\//, "")] *)
Definition strip_next (asset : jstr) : jstr :=
  if starts_with (u "/_next/") asset then skipn 7 asset else asset.

(** The state of the three loops: [entries] and [seenUrls]. *)
Record loop_state := { entries : list PrecacheEntry; seenUrls : list jstr }.

Definition add_seen (url : jstr) (st : loop_state) : loop_state :=
  {| entries := entries st; seenUrls := seenUrls st ++ [url] |}.

Definition push_entry (e : PrecacheEntry) (st : loop_state) : loop_state :=
  {| entries := entries st ++ [e]; seenUrls := seenUrls st |}.

Section Loops.
Variable o : ManifestGeneratorOptions.

(** Body of the build-asset loop (step 4). *)
Definition build_asset_step (asset : jstr) (st : loop_state) : M loop_state :=
  let sanitizedAsset := PathGuard.sanitizePath asset in
  if is_empty sanitizedAsset && negb (is_empty asset) then ret st else
  if matchesExclusion asset (buildExcludes o) then ret st else
  let url := if starts_with (u "/") asset then asset else 47 :: asset in
  let url := if basePath_applies (basePath o) then basePath o ++ url else url in
  let url := applyURLPrefixModifications url (modifyURLPrefix o) in
  if CacheStrategies.set_has (seenUrls st) url then ret st else
  let st := add_seen url st in
  revision <- (if needsRevision url
               then let filePath := join [buildDir o; strip_next asset] in
                    r <- generateRevisionHash filePath ;; ret (Some r)
               else ret None) ;;
  ret (push_entry (mkEntry url revision) st).

(** Body of the public-file loop (step 5). *)
Definition public_file_step (file : jstr) (st : loop_state) : M loop_state :=
  let url := file in
  let url := if basePath_applies (basePath o) then basePath o ++ file else url in
  let url := applyURLPrefixModifications url (modifyURLPrefix o) in
  if CacheStrategies.set_has (seenUrls st) url then ret st else
  let st := add_seen url st in
  let filePath := join [publicDir o; skipn 1 file] in
  revision <- generateRevisionHash filePath ;;
  ret (push_entry (mkEntry url (Some revision)) st).

(** Body of the additional-entry loop (step 6). *)
Definition additional_entry_step (entry : PrecacheEntry) (st : loop_state) : M loop_state :=
  if is_empty (url entry) then ret st else
  if PathGuard.hasPathTraversal (url entry) then ret st else
  let url0 := url entry in
  let url0 := if starts_with (u "/") url0 && basePath_applies (basePath o)
              then basePath o ++ url0 else url0 in
  let url0 := applyURLPrefixModifications url0 (modifyURLPrefix o) in
  if CacheStrategies.set_has (seenUrls st) url0 then ret st else
  let st := add_seen url0 st in
  ret (push_entry (mkEntry url0 (revision entry)) st).

End Loops.

(** [generatePrecacheManifest] *)
Definition generatePrecacheManifest (o : ManifestGeneratorOptions) : M (list PrecacheEntry) :=
  if negb (isPathWithinProject (buildDir o) (projectRoot o))
  then throw (u "Build directory is outside project root - security violation") else
  if negb (isPathWithinProject (publicDir o) (projectRoot o))
  then throw (u "Public directory is outside project root - security violation") else
  let st := {| entries := []; seenUrls := [] |} in
  buildManifest <- readBuildManifest (buildDir o) ;;
  let manifestAssets :=
    match buildManifest with
    | Some m => extractAssetsFromManifest m
    | None => []
    end in
  staticFiles <- getStaticBuildFiles (buildDir o) (projectRoot o) ;;
  let allBuildAssets := set_add_all [] (manifestAssets ++ staticFiles) in
  st <- for_each (build_asset_step o) allBuildAssets st ;;
  publicFiles <- getPublicFiles (publicDir o) (projectRoot o) (publicExcludes o) ;;
  st <- for_each (public_file_step o) publicFiles st ;;
  st <- for_each (additional_entry_step o) (additionalManifestEntries o) st ;;
  ret (entries st).

End Generator.

End ManifestGen.

(** ** Scope and file-name validation (the security utilities) *)

Module Security.
Import Js.

(** [String.prototype.endsWith] *)
Definition ends_with (suf s : jstr) : bool := starts_with (rev suf) (rev s).

(** [validateScope(scope, basePath)]; an absent [basePath] is [JUndefined]. *)
Definition validateScope (scope basePath : jsval) : bool :=
  match scope with
  | JString scope =>
      if NodePath.is_empty scope then false
      else if negb (starts_with (u "/") scope) then false
      else if includes scope (u "..") then false
      else if includes scope [0] then false
      else if includes scope (u "?") then false
      else if includes scope (u "#") then false
      else if includes scope [92] then false
      else
        match basePath with
        | JUndefined => true
        | JString basePath =>
            let normalizedBase := if ends_with (u "/") basePath then basePath else basePath ++ [47] in
            let normalizedScope := if ends_with (u "/") scope then scope else scope ++ [47] in
            starts_with normalizedBase normalizedScope
        | _ => false
        end
  | _ => false
  end.

(** [[a-zA-Z0-9]] *)
Definition is_alnum (c : N) : bool :=
  ((48 <=? c) && (c <=? 57)) || ((65 <=? c) && (c <=? 90)) || ((97 <=? c) && (c <=? 122)).

(** [[a-zA-Z0-9._-]] *)
Definition is_name_char (c : N) : bool := is_alnum c || (c =? 46) || (c =? 95) || (c =? 45).

(** The tail [[a-zA-Z0-9._-]*\.js$] of the file-name pattern: the remaining
    text is [".js"], or a name character followed by a matching tail. *)
Fixpoint name_tail_test (s : jstr) : bool :=
  jstr_eqb s (u ".js")
  || match s with
     | c :: s' => is_name_char c && name_tail_test s'
     | [] => false
     end.

(** [/^[a-zA-Z0-9][a-zA-Z0-9._-]*\.js$/.test(filename)] *)
Definition validFilenamePattern_test (s : jstr) : bool :=
  match s with
  | c :: s' => is_alnum c && name_tail_test s'
  | [] => false
  end.

(** [isValidFilename(filename)] *)
Definition isValidFilename (filename : jsval) : bool :=
  match filename with
  | JString filename =>
      if Nat.eqb (List.length filename) 0 then false
      else if Nat.ltb 255 (List.length filename) then false
      else if includes filename [0] then false
      else if includes filename (u "/") then false
      else if includes filename [92] then false
      else if jstr_eqb filename (u ".") || jstr_eqb filename (u "..") then false
      else if negb (ends_with (u ".js") filename) then false
      else if jstr_eqb filename (u ".js") then false
      else if negb (validFilenamePattern_test filename) then false
      else true
  | _ => false
  end.

End Security.

(** * Properties *)
(* ================================================================== *)

Module MergeFacts.
Import CacheStrategies.

(** Rule [d] is not overridden by [custom]: no rule of [custom] has its identity. *)
Definition not_overridden (custom : list RuntimeCachingRule) (d : RuntimeCachingRule) : bool :=
  forallb (fun c => negb (jstr_eqb (identity c) (identity d))) custom.

Lemma not_overridden_spec : forall custom d,
  not_overridden custom d = true <-> (forall c, In c custom -> identity c <> identity d).
Proof.
  intros custom d. unfold not_overridden. rewrite forallb_forall. split.
  - intros H c Hc Heq. specialize (H c Hc). rewrite Heq, jstr_eqb_refl in H. discriminate.
  - intros H c Hc. destruct (jstr_eqb (identity c) (identity d)) eqn:E; [|reflexivity].
    apply jstr_eqb_eq in E. exfalso. exact (H c Hc E).
Qed.

Lemma set_has_map : forall custom d,
  negb (set_has (map identity custom) (identity d)) = not_overridden custom d.
Proof.
  induction custom as [|c custom IH]; intro d; simpl; [reflexivity|].
  rewrite negb_orb, IH. f_equal.
  destruct (jstr_eqb (identity d) (identity c)) eqn:E1;
    destruct (jstr_eqb (identity c) (identity d)) eqn:E2; try reflexivity.
  - apply jstr_eqb_eq in E1. rewrite E1, jstr_eqb_refl in E2. discriminate.
  - apply jstr_eqb_eq in E2. rewrite E2, jstr_eqb_refl in E1. discriminate.
Qed.

Lemma merge_filter : forall custom defaults,
  mergeRuntimeCaching custom defaults = custom ++ filter (not_overridden custom) defaults.
Proof.
  intros custom defaults. unfold mergeRuntimeCaching. f_equal.
  apply filter_ext. intro d. apply set_has_map.
Qed.

Lemma NoDup_map_filter : forall {A B} (f : A -> B) p l,
  NoDup (map f l) -> NoDup (map f (filter p l)).
Proof.
  intros A B f p l. induction l as [|x l IH]; simpl; intro H; [constructor|].
  inversion H; subst. destruct (p x); simpl; auto.
  constructor; auto. intro Hin. apply H2.
  apply in_map_iff in Hin as [y [Hy Hin]]. apply filter_In in Hin as [Hin _].
  rewrite <- Hy. apply in_map. exact Hin.
Qed.

(** Claim C2: [mergeRuntimeCaching custom defaults] is [custom], in order,
    followed by exactly the rules of [defaults] whose identity (string as is,
    RegExp source, function text) is the identity of no rule of [custom], in
    their order in [defaults]; its length is [length custom] plus the number of
    such rules.  The function is pure: it builds a new list and changes
    neither argument. *)
Theorem merge_runtime_caching_spec : forall custom defaults,
  mergeRuntimeCaching custom defaults = custom ++ filter (not_overridden custom) defaults
  /\ (forall d, not_overridden custom d = true <->
                (forall c, In c custom -> normalizeUrlPattern (urlPattern c)
                                          <> normalizeUrlPattern (urlPattern d)))
  /\ List.length (mergeRuntimeCaching custom defaults)
     = (List.length custom + List.length (filter (not_overridden custom) defaults))%nat.
Proof.
  intros custom defaults. split; [|split].
  - apply merge_filter.
  - intro d. apply not_overridden_spec.
  - rewrite merge_filter, length_app. reflexivity.
Qed.

Definition rule (p : jstr) (h : jstr) : RuntimeCachingRule :=
  {| urlPattern := PString p; handler := h; method := None; cacheName := None |}.

(** Claim C7 fails when [custom] itself repeats an identity: both rules are kept. *)
Lemma merge_keeps_custom_duplicates :
  map identity (mergeRuntimeCaching [rule (u ".*") (u "CacheFirst"); rule (u ".*") (u "NetworkFirst")] [])
    = [u ".*"; u ".*"]
  /\ ~ NoDup (map identity
                (mergeRuntimeCaching [rule (u ".*") (u "CacheFirst"); rule (u ".*") (u "NetworkFirst")] [])).
Proof.
  split; [reflexivity|]. simpl. intro Hnd. inversion Hnd; subst. apply H1. left. reflexivity.
Qed.

(** Claim C7, amended: when [custom] and [defaults] each have pairwise-distinct
    identities, no two rules of the merge share an identity. *)
Theorem merge_identities_distinct : forall custom defaults,
  NoDup (map identity custom) -> NoDup (map identity defaults) ->
  NoDup (map identity (mergeRuntimeCaching custom defaults)).
Proof.
  intros custom defaults Hc Hd. rewrite merge_filter, map_app.
  apply NoDup_app; [exact Hc | apply NoDup_map_filter; exact Hd |].
  intros a Ha Hb. apply in_map_iff in Hb as [d [Hd' Hb]]. apply filter_In in Hb as [_ Hno].
  apply in_map_iff in Ha as [c [Hc' Ha]].
  apply (proj1 (not_overridden_spec custom d) Hno c Ha). unfold identity in *. congruence.
Qed.

Lemma merge_identities_distinct_witness :
  NoDup (map identity [rule (u "^/api/.*") (u "CacheFirst")])
  /\ NoDup (map identity [rule (u "^/api/.*") (u "NetworkFirst"); rule (u ".*") (u "NetworkFirst")])
  /\ NoDup (map identity (mergeRuntimeCaching [rule (u "^/api/.*") (u "CacheFirst")]
                            [rule (u "^/api/.*") (u "NetworkFirst"); rule (u ".*") (u "NetworkFirst")])).
Proof.
  assert (H1 : NoDup (map identity [rule (u "^/api/.*") (u "CacheFirst")])).
  { simpl. constructor; [intros []|constructor]. }
  assert (H2 : NoDup (map identity [rule (u "^/api/.*") (u "NetworkFirst"); rule (u ".*") (u "NetworkFirst")])).
  { simpl. constructor; [|constructor; [intros []|constructor]].
    intros [Heq|[]]. discriminate. }
  split; [exact H1|split; [exact H2|]].
  exact (merge_identities_distinct _ _ H1 H2).
Defined.

End MergeFacts.

Module RuleFacts.
Import Js RuleSanitizer.

(** Every property key of [ps] is in [allowed]. *)
Definition in_keys (allowed : list jstr) (ps : list (jstr * jsval)) : Prop :=
  forall k x, In (k, x) ps -> In k allowed.

(** The shape of a [SanitizedRuntimeCachingRule] object. *)
Definition sanitized_shape (out : jsval) : Prop :=
  exists ps, out = JObject ps
    /\ in_keys [u "urlPattern"; u "handler"; u "options"] ps
    /\ (exists h, In (u "handler", JString h) ps /\ In h ALLOWED_HANDLERS)
    /\ (forall x, In (u "options", x) ps ->
          exists o, x = JObject o
            /\ in_keys [u "cacheName"; u "expiration"; u "networkTimeoutSeconds"] o
            /\ (forall y, In (u "expiration", y) o ->
                  exists eo, y = JObject eo /\ in_keys [u "maxEntries"; u "maxAgeSeconds"] eo)).

Ltac solve_keys :=
  let k := fresh "k" in let x := fresh "x" in let Hin := fresh "Hin" in
  intros k x Hin; simpl in Hin;
  repeat match goal with
         | [ H : _ \/ _ |- _ ] => destruct H
         | [ H : (_, _) = (_, _) |- _ ] => inversion H; subst; clear H
         | [ H : False |- _ ] => destruct H
         end; simpl; tauto.

Lemma allowed_handler_In : forall h, allowed_handler h = true <-> In h ALLOWED_HANDLERS.
Proof.
  intro h. unfold allowed_handler. rewrite existsb_exists. split.
  - intros [x [Hin Heq]]. apply jstr_eqb_eq in Heq. subst. exact Hin.
  - intro Hin. exists h. split; [exact Hin | apply jstr_eqb_refl].
Qed.

Lemma in_keys_app : forall allowed a b,
  in_keys allowed a -> in_keys allowed b -> in_keys allowed (a ++ b).
Proof.
  unfold in_keys. intros allowed a b Ha Hb k x Hin. apply in_app_or in Hin as [Hin|Hin]; eauto.
Qed.

Lemma sanitize_expiration_keys : forall H e,
  in_keys [u "maxEntries"; u "maxAgeSeconds"] (sanitize_expiration H e).
Proof.
  intros H e. unfold sanitize_expiration. apply in_keys_app;
    [destruct (positive_int_le (get H e (u "maxEntries")) 10000)
    |destruct (positive_int_le (get H e (u "maxAgeSeconds")) 31536000)];
    solve_keys.
Qed.

Lemma sanitize_options_keys : forall H o,
  in_keys [u "cacheName"; u "expiration"; u "networkTimeoutSeconds"] (sanitize_options H o)
  /\ (forall y, In (u "expiration", y) (sanitize_options H o) ->
        exists eo, y = JObject eo /\ in_keys [u "maxEntries"; u "maxAgeSeconds"] eo).
Proof.
  intros H o. unfold sanitize_options. split.
  - repeat apply in_keys_app.
    + destruct (get H o (u "cacheName")); try (intros k x Hin; destruct Hin).
      destruct (cache_name_ok s); solve_keys.
    + destruct (is_object (get H o (u "expiration"))); [|intros k x []].
      destruct (sanitize_expiration H (get H o (u "expiration"))); solve_keys.
    + destruct (positive_int_le (get H o (u "networkTimeoutSeconds")) 300);
        solve_keys.
  - intros y Hin. apply in_app_or in Hin as [Hin|Hin].
    + destruct (get H o (u "cacheName")); try destruct Hin.
      destruct (cache_name_ok s); simpl in Hin; [|destruct Hin].
      destruct Hin as [Heq|[]]. discriminate.
    + apply in_app_or in Hin as [Hin|Hin].
      * destruct (is_object (get H o (u "expiration"))); [|destruct Hin].
        pose proof (sanitize_expiration_keys H (get H o (u "expiration"))) as Hk.
        destruct (sanitize_expiration H (get H o (u "expiration"))) as [|p l] eqn:E;
          [destruct Hin|].
        destruct Hin as [Heq|[]]. inversion Heq; subst. exists (p :: l). split; auto.
      * destruct (positive_int_le (get H o (u "networkTimeoutSeconds")) 300);
          [|destruct Hin]. destruct Hin as [Heq|[]]. discriminate.
Qed.

Lemma base_shape : forall url h so,
  In h ALLOWED_HANDLERS ->
  (so = [] \/
   (in_keys [u "cacheName"; u "expiration"; u "networkTimeoutSeconds"] so
    /\ (forall y, In (u "expiration", y) so ->
          exists eo, y = JObject eo /\ in_keys [u "maxEntries"; u "maxAgeSeconds"] eo))) ->
  sanitized_shape
    (JObject ([(u "urlPattern", JString url); (u "handler", JString h)]
              ++ match so with [] => [] | _ => [(u "options", JObject so)] end)).
Proof.
  intros url h so Hh Hso. eexists. split; [reflexivity|]. split; [|split].
  - destruct so; solve_keys.
  - exists h. split; [simpl; auto | exact Hh].
  - intros x Hin. destruct so as [|p so'].
    + simpl in Hin. repeat destruct Hin as [Hin|Hin]; try discriminate; destruct Hin.
    + simpl in Hin. destruct Hin as [Hin|[Hin|[Hin|[]]]]; try discriminate.
      inversion Hin; subst. exists (p :: so'). split; [reflexivity|].
      destruct Hso as [Hso|Hso]; [discriminate|exact Hso].
Qed.

Lemma sanitize_shape_of_result : forall H v out,
  sanitizeRuntimeCachingRule H v = Some out -> sanitized_shape out.
Proof.
  intros H v out. unfold sanitizeRuntimeCachingRule.
  destruct (is_object v); [|discriminate]. simpl.
  destruct (match get H v (u "urlPattern") with
            | JString s => if (List.length s =? 0)%nat || includes s [0] then None else Some s
            | JRegExp source flags => Some (47 :: source ++ 47 :: flags)
            | _ => None end) as [url|]; [|discriminate].
  destruct (get H v (u "handler")) as [| | | | | |h| | | | | |]; try discriminate.
  destruct (allowed_handler h) eqn:Ah; [|discriminate].
  apply allowed_handler_In in Ah.
  destruct (is_object (get H v (u "options"))).
  - pose proof (sanitize_options_keys H (get H v (u "options"))) as Hk.
    destruct (sanitize_options H (get H v (u "options"))) as [|p so] eqn:E; intro Hout;
      inversion Hout; subst.
    + pose proof (base_shape url h [] Ah (or_introl eq_refl)) as Hs.
      rewrite app_nil_r in Hs. exact Hs.
    + exact (base_shape url h (p :: so) Ah (or_intror Hk)).
  - intro Hout. inversion Hout; subst.
    pose proof (base_shape url h [] Ah (or_introl eq_refl)) as Hs.
    rewrite app_nil_r in Hs. exact Hs.
Qed.

(** Claim C5: a non-null result of [sanitizeRuntimeCachingRule] has only the
    allow-listed keys ([urlPattern], [handler], [options] with [cacheName],
    [expiration.maxEntries], [expiration.maxAgeSeconds],
    [networkTimeoutSeconds]) and a handler among the five names; a candidate
    that is not an object, or whose [handler] is anything else (compared
    exactly), yields [null]. *)
Theorem sanitize_rule_allow_listed : forall (H : heap) (v : jsval),
  (is_object v = false -> sanitizeRuntimeCachingRule H v = None)
  /\ (~ (exists h, get H v (u "handler") = JString h /\ In h ALLOWED_HANDLERS) ->
      sanitizeRuntimeCachingRule H v = None)
  /\ (forall out, sanitizeRuntimeCachingRule H v = Some out -> sanitized_shape out).
Proof.
  intros H v. split; [|split].
  - intro Hobj. unfold sanitizeRuntimeCachingRule. rewrite Hobj. reflexivity.
  - intro Hh. unfold sanitizeRuntimeCachingRule.
    destruct (is_object v); [|reflexivity]. simpl.
    destruct (match get H v (u "urlPattern") with
              | JString s => if (List.length s =? 0)%nat || includes s [0] then None else Some s
              | JRegExp source flags => Some (47 :: source ++ 47 :: flags)
              | _ => None end) as [url|]; [|reflexivity].
    destruct (get H v (u "handler")) as [| | | | | |h| | | | | |] eqn:Eh; try reflexivity.
    destruct (allowed_handler h) eqn:Ah; [|reflexivity].
    exfalso. apply Hh. exists h. split; [reflexivity|]. apply allowed_handler_In. exact Ah.
  - apply sanitize_shape_of_result.
Qed.

(** The rule of the RegExp examples below. *)
Definition regexp_rule (source flags : jstr) : jsval :=
  JObject [(u "urlPattern", JRegExp source flags); (u "handler", JString (u "CacheFirst"))].

(** Claim C8 fails: for [/abc/] the sanitized [urlPattern] is ["/abc/"], the
    RegExp's [toString] text, not its source ["abc"]. *)
Lemma sanitize_regexp_not_source :
  sanitizeRuntimeCachingRule [] (regexp_rule (u "abc") [])
    = Some (JObject [(u "urlPattern", JString (u "/abc/")); (u "handler", JString (u "CacheFirst"))])
  /\ u "/abc/" <> u "abc".
Proof. split; [reflexivity | discriminate]. Qed.

(** Claim C8, as the code does it: when [urlPattern] is a RegExp, the non-null
    result's [urlPattern] is ["/" + source + "/" + flags], i.e. [toString()]. *)
Theorem sanitize_regexp_to_string : forall (H : heap) (v : jsval) source flags out,
  get H v (u "urlPattern") = JRegExp source flags ->
  sanitizeRuntimeCachingRule H v = Some out ->
  get [] out (u "urlPattern") = JString (47 :: source ++ 47 :: flags).
Proof.
  intros H v source flags out Hup. unfold sanitizeRuntimeCachingRule. rewrite Hup.
  destruct (is_object v); [|discriminate]. simpl.
  destruct (get H v (u "handler")) as [| | | | | |h| | | | | |]; try discriminate.
  destruct (allowed_handler h); [|discriminate].
  destruct (is_object (get H v (u "options"))).
  - destruct (sanitize_options H (get H v (u "options"))); intro Hout; inversion Hout; reflexivity.
  - intro Hout. inversion Hout. reflexivity.
Qed.

Lemma sanitize_regexp_to_string_witness :
  get [] (regexp_rule (u "^\/api\/") (u "i")) (u "urlPattern") = JRegExp (u "^\/api\/") (u "i")
  /\ get [] (JObject [(u "urlPattern", JString (u "/^\/api\//i"));
                      (u "handler", JString (u "CacheFirst"))]) (u "urlPattern")
     = JString (u "/^\/api\//i").
Proof.
  split; [reflexivity|].
  apply (sanitize_regexp_to_string [] (regexp_rule (u "^\/api\/") (u "i")) (u "^\/api\/") (u "i"));
    reflexivity.
Defined.

(** Claim C10: the NUL check applies to string patterns only; a RegExp whose
    source holds a NUL code unit, with an allowed handler, is accepted and its
    [urlPattern] string keeps the NUL. *)
Theorem sanitize_regexp_keeps_nul :
  exists (v : jsval) (source flags : jstr) (out : jsval) (url : jstr),
    get [] v (u "urlPattern") = JRegExp source flags
    /\ In 0 source
    /\ In (u "CacheFirst") ALLOWED_HANDLERS
    /\ get [] v (u "handler") = JString (u "CacheFirst")
    /\ sanitizeRuntimeCachingRule [] v = Some out
    /\ get [] out (u "urlPattern") = JString url
    /\ includes url [0] = true.
Proof.
  exists (regexp_rule [97; 0; 98] []), [97; 0; 98], [],
    (JObject [(u "urlPattern", JString [47; 97; 0; 98; 47]); (u "handler", JString (u "CacheFirst"))]),
    [47; 97; 0; 98; 47].
  repeat split; simpl; auto 10.
Qed.

End RuleFacts.

Module JsonFacts.
Import Js Json JsonParse.

Definition is_container (v : jsval) : bool :=
  match v with JArray _ | JObject _ => true | _ => false end.

Section JsvalInd.
Variable P : jsval -> Prop.
Hypothesis H_atom : forall v, is_container v = false -> P v.
Hypothesis H_arr : forall es, Forall P es -> P (JArray es).
Hypothesis H_obj : forall ps, Forall (fun kv => P (snd kv)) ps -> P (JObject ps).

Fixpoint jsval_ind' (v : jsval) : P v :=
  match v with
  | JArray es =>
      H_arr es ((fix go (l : list jsval) : Forall P l :=
                   match l with
                   | [] => Forall_nil P
                   | x :: l' => @Forall_cons _ P x l' (jsval_ind' x) (go l')
                   end) es)
  | JObject ps =>
      H_obj ps ((fix go (l : list (jstr * jsval)) : Forall (fun kv => P (snd kv)) l :=
                   match l with
                   | [] => Forall_nil _
                   | kv :: l' => @Forall_cons _ (fun kv => P (snd kv)) kv l' (jsval_ind' (snd kv)) (go l')
                   end) ps)
  | JUndefined => H_atom JUndefined eq_refl
  | JNull => H_atom JNull eq_refl
  | JBool b => H_atom (JBool b) eq_refl
  | JNum z => H_atom (JNum z) eq_refl
  | JNumDec ng m x => H_atom (JNumDec ng m x) eq_refl
  | JBigInt z => H_atom (JBigInt z) eq_refl
  | JString s => H_atom (JString s) eq_refl
  | JSymbol d => H_atom (JSymbol d) eq_refl
  | JFunction t => H_atom (JFunction t) eq_refl
  | JRegExp s f => H_atom (JRegExp s f) eq_refl
  | JRef l => H_atom (JRef l) eq_refl
  end.
End JsvalInd.

(** Unfolding equations of [ser]. *)
Lemma ser_arr : forall fuel H stack es,
  ser fuel H stack (JArray es) = finish 91 93 (array_parts (map (ser fuel H stack) es)).
Proof. destruct fuel; reflexivity. Qed.

Lemma ser_obj : forall fuel H stack ps,
  ser fuel H stack (JObject ps)
  = finish 123 125 (object_parts (map (fun kv => (fst kv, ser fuel H stack (snd kv))) ps)).
Proof. destruct fuel; reflexivity. Qed.

Definition ser_heap_obj (f : nat) (H : heap) (stack : list nat) (l : nat) (o : heap_obj)
  : option ser_result :=
  match o with
  | HArray es => finish 91 93 (array_parts (map (ser f H (l :: stack)) es))
  | HObject ps =>
      finish 123 125 (object_parts (map (fun kv => (fst kv, ser f H (l :: stack) (snd kv))) ps))
  end.

Lemma ser_ref : forall fuel H stack l,
  ser fuel H stack (JRef l)
  = if existsb (Nat.eqb l) stack then Some SThrow
    else match nth_error H l with
         | None => Some SUndefined
         | Some o => match fuel with O => None | S f => ser_heap_obj f H stack l o end
         end.
Proof. destruct fuel; intros; simpl; [reflexivity|]. destruct (nth_error H l) as [[]|]; reflexivity. Qed.

Lemma finish_none : forall o c r, finish o c r = None <-> r = PartsFuel.
Proof. intros o c []; simpl; split; congruence. Qed.

Lemma array_parts_not_fuel : forall rs,
  (forall r, In r rs -> r <> None) -> array_parts rs <> PartsFuel.
Proof.
  induction rs as [|r rs IH]; intros Hr; simpl; [discriminate|].
  destruct r as [[t| |]|]; [| | discriminate | exfalso; apply (Hr None); simpl; auto].
  - specialize (IH (fun r' H' => Hr r' (or_intror H'))).
    destruct (array_parts rs); simpl; congruence.
  - specialize (IH (fun r' H' => Hr r' (or_intror H'))).
    destruct (array_parts rs); simpl; congruence.
Qed.

Lemma object_parts_not_fuel : forall rs,
  (forall kr, In kr rs -> snd kr <> None) -> object_parts rs <> PartsFuel.
Proof.
  induction rs as [|[k r] rs IH]; intros Hr; simpl; [discriminate|].
  specialize (IH (fun r' H' => Hr r' (or_intror H'))).
  destruct r as [[t| |]|]; [| assumption | discriminate | exfalso; apply (Hr (k, None)); simpl; auto].
  destruct (object_parts rs); simpl; congruence.
Qed.

Lemma array_parts_throw : forall rs,
  (forall r, In r rs -> r <> None) -> In (Some SThrow) rs -> array_parts rs = PartsThrow.
Proof.
  induction rs as [|r rs IH]; intros Hr Hin; simpl in *; [contradiction|].
  destruct Hin as [Heq|Hin]; [subst r; reflexivity|].
  specialize (IH (fun r' H' => Hr r' (or_intror H')) Hin).
  destruct r as [[t| |]|]; rewrite ?IH; try reflexivity.
  exfalso; apply (Hr None); auto.
Qed.

Lemma object_parts_throw : forall rs k,
  (forall kr, In kr rs -> snd kr <> None) -> In (k, Some SThrow) rs -> object_parts rs = PartsThrow.
Proof.
  induction rs as [|[k' r] rs IH]; intros k Hr Hin; simpl in *; [contradiction|].
  destruct Hin as [Heq|Hin]; [inversion Heq; reflexivity|].
  specialize (IH k (fun r' H' => Hr r' (or_intror H')) Hin).
  destruct r as [[t| |]|]; rewrite ?IH; try reflexivity.
  exfalso; apply (Hr (k', None)); auto.
Qed.

(** The stack of a serialization in progress: distinct heap locations. *)
Definition stack_ok (H : heap) (stack : list nat) : Prop :=
  NoDup stack /\ (forall l, In l stack -> (l < List.length H)%nat).

Lemma stack_ok_push : forall H stack l o,
  stack_ok H stack -> existsb (Nat.eqb l) stack = false -> nth_error H l = Some o ->
  stack_ok H (l :: stack) /\ (S (List.length stack) <= List.length H)%nat.
Proof.
  intros H stack l o [Hnd Hlt] Hnot Hnth.
  assert (Hl : (l < List.length H)%nat) by (apply nth_error_Some; congruence).
  assert (Hni : ~ In l stack).
  { intro Hin. assert (existsb (Nat.eqb l) stack = true) by
      (apply existsb_exists; exists l; split; [exact Hin | apply Nat.eqb_refl]). congruence. }
  assert (Hok : stack_ok H (l :: stack)).
  { split; [constructor; assumption|]. intros l' [<-|Hin]; auto. }
  split; [exact Hok|].
  destruct Hok as [Hnd' Hlt'].
  change (S (List.length stack)) with (List.length (l :: stack)).
  rewrite <- (length_seq (List.length H) 0).
  apply NoDup_incl_length; [exact Hnd'|].
  intros x Hx. apply in_seq. specialize (Hlt' x Hx). lia.
Qed.

(** [ser_fuel_enough]: with one unit of fuel per heap location not on the
    stack, [ser] never runs out of fuel. *)
Lemma ser_fuel_enough : forall fuel H stack v,
  stack_ok H stack -> (List.length H < fuel + List.length stack)%nat ->
  ser fuel H stack v <> None.
Proof.
  induction fuel as [|f IHf]; intros H stack v Hok Hlen;
    induction v as [v Hv|es IHes|ps IHps] using jsval_ind'.
  all: try (rewrite ser_arr; intro Hn; apply finish_none in Hn; revert Hn;
            apply array_parts_not_fuel; intros r Hr; apply in_map_iff in Hr as [e [<- He]];
            rewrite Forall_forall in IHes; apply IHes; exact He).
  all: try (rewrite ser_obj; intro Hn; apply finish_none in Hn; revert Hn;
            apply object_parts_not_fuel; intros kr Hr; apply in_map_iff in Hr as [kv [<- Hkv]];
            rewrite Forall_forall in IHps; apply IHps; exact Hkv).
  all: destruct v as [| |[]|z|ng m x|z|s|d|t|es|ps|s fl|l]; try discriminate Hv; try (simpl; discriminate).
  all: rewrite ser_ref; destruct (existsb (Nat.eqb l) stack) eqn:Hst; [discriminate|].
  all: destruct (nth_error H l) as [o|] eqn:Hnth; [|discriminate].
  all: destruct (stack_ok_push H stack l o Hok Hst Hnth) as [Hok' Hle].
  - lia.
  - unfold ser_heap_obj; destruct o as [es|ps]; intro Hn; apply finish_none in Hn; revert Hn.
    + apply array_parts_not_fuel; intros r Hr; apply in_map_iff in Hr as [e [<- _]].
      apply IHf; [exact Hok' | simpl; lia].
    + apply object_parts_not_fuel; intros kr Hr; apply in_map_iff in Hr as [kv [<- _]].
      apply IHf; [exact Hok' | simpl; lia].
Qed.

(** [e] is an element or property value of the heap object at [l]. *)
Definition child (H : heap) (l : nat) (e : jsval) : Prop :=
  (exists es, nth_error H l = Some (HArray es) /\ In e es)
  \/ (exists ps k, nth_error H l = Some (HObject ps) /\ In (k, e) ps).

(** [reaches H v l]: the heap object at [l] is reachable from [v]. *)
Inductive reaches (H : heap) : jsval -> nat -> Prop :=
| reaches_here : forall l, reaches H (JRef l) l
| reaches_arr : forall es e l, In e es -> reaches H e l -> reaches H (JArray es) l
| reaches_obj : forall ps k e l, In (k, e) ps -> reaches H e l -> reaches H (JObject ps) l
| reaches_ref : forall l' e l, child H l' e -> reaches H e l -> reaches H (JRef l') l.

(** A cyclic value: it reaches a heap object that reaches itself. *)
Definition cyclic (H : heap) (v : jsval) : Prop :=
  exists l e, reaches H v l /\ child H l e /\ reaches H e l.

Lemma in_stack_existsb : forall l stack, In l stack -> existsb (Nat.eqb l) stack = true.
Proof. intros l stack Hin. apply existsb_exists. exists l. split; [exact Hin | apply Nat.eqb_refl]. Qed.

Lemma child_nth : forall H l e, child H l e -> exists o, nth_error H l = Some o.
Proof. intros H l e [[es [Hn _]]|[ps [k [Hn _]]]]; eauto. Qed.

Lemma heap_obj_throw : forall f H stack l o e,
  nth_error H l = Some o -> child H l e -> stack_ok H (l :: stack) ->
  (List.length H < f + S (List.length stack))%nat ->
  ser f H (l :: stack) e = Some SThrow -> ser_heap_obj f H stack l o = Some SThrow.
Proof.
  intros f H stack l o e Hnth Hch Hok Hlen Hthrow.
  destruct Hch as [[es [Hn Hin]]|[ps [k [Hn Hin]]]]; rewrite Hn in Hnth; inversion Hnth; subst o;
    unfold ser_heap_obj.
  - rewrite array_parts_throw; [reflexivity| |].
    + intros r Hr. apply in_map_iff in Hr as [x [<- _]]. apply ser_fuel_enough; [exact Hok | simpl; lia].
    + apply in_map_iff. exists e. auto.
  - rewrite (object_parts_throw _ k); [reflexivity| |].
    + intros kr Hr. apply in_map_iff in Hr as [kv [<- _]]. apply ser_fuel_enough; [exact Hok | simpl; lia].
    + apply in_map_iff. exists (k, e). simpl. split; [congruence | exact Hin].
Qed.

Lemma ser_container_throw_arr : forall fuel H stack es e,
  stack_ok H stack -> (List.length H < fuel + List.length stack)%nat ->
  In e es -> ser fuel H stack e = Some SThrow -> ser fuel H stack (JArray es) = Some SThrow.
Proof.
  intros fuel H stack es e Hok Hlen Hin He. rewrite ser_arr, array_parts_throw; [reflexivity| |].
  - intros r Hr. apply in_map_iff in Hr as [x [<- _]]. apply ser_fuel_enough; assumption.
  - apply in_map_iff. exists e. auto.
Qed.

Lemma ser_container_throw_obj : forall fuel H stack ps k e,
  stack_ok H stack -> (List.length H < fuel + List.length stack)%nat ->
  In (k, e) ps -> ser fuel H stack e = Some SThrow -> ser fuel H stack (JObject ps) = Some SThrow.
Proof.
  intros fuel H stack ps k e Hok Hlen Hin He. rewrite ser_obj, (object_parts_throw _ k); [reflexivity| |].
  - intros kr Hr. apply in_map_iff in Hr as [kv [<- _]]. apply ser_fuel_enough; assumption.
  - apply in_map_iff. exists (k, e). simpl. split; [congruence | exact Hin].
Qed.

(** Reaching an object that is already being serialized throws. *)
Lemma ser_reaches_stack : forall H v l, reaches H v l ->
  forall fuel stack, stack_ok H stack -> (List.length H < fuel + List.length stack)%nat ->
  In l stack -> ser fuel H stack v = Some SThrow.
Proof.
  intros H v l Hr. induction Hr as [l|es e l Hin Hr IH|ps k e l Hin Hr IH|l' e l Hch Hr IH];
    intros fuel stack Hok Hlen Hl.
  - rewrite ser_ref, in_stack_existsb by exact Hl. reflexivity.
  - apply ser_container_throw_arr with e; auto.
  - apply ser_container_throw_obj with k e; auto.
  - rewrite ser_ref. destruct (existsb (Nat.eqb l') stack) eqn:Hst; [reflexivity|].
    destruct (child_nth H l' e Hch) as [o Hnth]. rewrite Hnth.
    destruct (stack_ok_push H stack l' o Hok Hst Hnth) as [Hok' Hle].
    destruct fuel as [|f]; [lia|].
    apply heap_obj_throw with e; auto; [simpl; lia|].
    apply IH; [exact Hok' | simpl; lia | right; exact Hl].
Qed.

(** Reaching an object that reaches itself throws. *)
Lemma ser_reaches_cycle : forall H v l, reaches H v l ->
  forall e, child H l e -> reaches H e l ->
  forall fuel stack, stack_ok H stack -> (List.length H < fuel + List.length stack)%nat ->
  ser fuel H stack v = Some SThrow.
Proof.
  intros H v l Hr e0 Hch0 Hr0.
  induction Hr as [l|es e l Hin Hr IH|ps k e l Hin Hr IH|l' e l Hch Hr IH];
    intros fuel stack Hok Hlen.
  - rewrite ser_ref. destruct (existsb (Nat.eqb l) stack) eqn:Hst; [reflexivity|].
    destruct (child_nth H l e0 Hch0) as [o Hnth]. rewrite Hnth.
    destruct (stack_ok_push H stack l o Hok Hst Hnth) as [Hok' Hle].
    destruct fuel as [|f]; [lia|].
    apply heap_obj_throw with e0; auto; [simpl; lia|].
    apply ser_reaches_stack with l; [exact Hr0 | exact Hok' | simpl; lia | left; reflexivity].
  - apply ser_container_throw_arr with e; auto.
  - apply ser_container_throw_obj with k e; auto.
  - rewrite ser_ref. destruct (existsb (Nat.eqb l') stack) eqn:Hst; [reflexivity|].
    destruct (child_nth H l' e Hch) as [o Hnth]. rewrite Hnth.
    destruct (stack_ok_push H stack l' o Hok Hst Hnth) as [Hok' Hle].
    destruct fuel as [|f]; [lia|].
    apply heap_obj_throw with e; auto; [simpl; lia|].
    apply IH; [exact Hch0 | exact Hr0 | exact Hok' | simpl; lia].
Qed.

Lemma escape_cyclic : forall H v, cyclic H v -> escapeForServiceWorker H v = u "null".
Proof.
  intros H v [l [e [Hr [Hch Hre]]]].
  assert (Hs : ser (S (List.length H)) H [] v = Some SThrow).
  { apply (ser_reaches_cycle H v l Hr e Hch Hre); [split; [constructor | intros ? []] | simpl; lia]. }
  unfold escapeForServiceWorker, stringify.
  inversion Hr; subst; rewrite Hs; reflexivity.
Qed.

(** ** Literal replacement and concatenation *)

Section Replace.
Variable eq : N -> N -> bool.
Variable pat repl : jstr.

(** No occurrence of [pat] starts anywhere in [s]. *)
Fixpoint no_match (s : jstr) : bool :=
  match s with
  | [] => true
  | _ :: s' => negb (prefix_by eq pat s) && no_match s'
  end.

(** [x] cannot stand at a non-final position of a match, [y] at a non-initial one. *)
Definition noncont (x : N) : bool := negb (existsb (fun p => eq p x) (removelast pat)).
Definition nonfollow (y : N) : bool := negb (existsb (fun p => eq p y) (tl pat)).

Lemma prefix_by_length : forall p x, prefix_by eq p x = true -> (List.length p <= List.length x)%nat.
Proof.
  induction p as [|a p IH]; intros [|c x] Hp; simpl in *; try lia; try discriminate.
  apply andb_prop in Hp as [_ Hp]. apply IH in Hp. lia.
Qed.

Lemma prefix_by_app_l : forall p a b, prefix_by eq p a = true -> prefix_by eq p (a ++ b) = true.
Proof.
  induction p as [|x p IH]; intros [|c a] b Hp; simpl in *; try reflexivity; try discriminate.
  apply andb_prop in Hp as [H1 H2]. rewrite H1, (IH a b H2). reflexivity.
Qed.

Lemma prefix_by_app_within : forall p a b, (List.length p <= List.length a)%nat ->
  prefix_by eq p (a ++ b) = prefix_by eq p a.
Proof.
  induction p as [|x p IH]; intros [|c a] b Hl; simpl in *; try reflexivity; try lia.
  rewrite IH by lia. reflexivity.
Qed.

Lemma prefix_by_straddle : forall a2 p b, a2 <> [] -> prefix_by eq p (a2 ++ b) = true ->
  (List.length a2 < List.length p)%nat ->
  existsb (fun q => eq q (last a2 0)) (removelast p) = true
  /\ existsb (fun q => eq q (hd 0 b)) (tl p) = true.
Proof.
  induction a2 as [|x a2 IH]; intros p b Hne Hp Hl; [contradiction|].
  destruct p as [|q p]; [simpl in Hl; lia|].
  simpl in Hp. apply andb_prop in Hp as [Hq Hp].
  destruct a2 as [|y a2'].
  - simpl in *. destruct p as [|q2 p]; [simpl in Hl; lia|].
    destruct b as [|c b]; [discriminate|]. simpl in Hp. apply andb_prop in Hp as [Hq2 _].
    simpl. rewrite Hq, Hq2. split; reflexivity.
  - assert (Hne' : y :: a2' <> []) by discriminate.
    assert (Hl' : (List.length (y :: a2') < List.length p)%nat) by (cbn [List.length] in *; lia).
    destruct (IH p b Hne' Hp Hl') as [H1 H2].
    destruct p as [|q2 p]; [cbn [List.length] in *; lia|].
    split.
    + change (last (x :: y :: a2') 0) with (last (y :: a2') 0).
      change (removelast (q :: q2 :: p)) with (q :: removelast (q2 :: p)).
      cbn [existsb]. rewrite H1, orb_true_r. reflexivity.
    + cbn [existsb tl] in *. rewrite H2, orb_true_r. reflexivity.
Qed.

(** No match starting in [a] runs into [b]. *)
Definition no_straddle (a b : jstr) : Prop :=
  forall a1 a2, a = a1 ++ a2 -> a2 <> [] -> prefix_by eq pat (a2 ++ b) = true ->
  (List.length pat <= List.length a2)%nat.

Lemma last_app_ne : forall (a1 a2 : jstr) d, a2 <> [] -> last (a1 ++ a2) d = last a2 d.
Proof.
  induction a1 as [|x a1 IH]; intros a2 d Hne; [reflexivity|].
  rewrite <- app_comm_cons. simpl. rewrite IH by exact Hne.
  destruct (a1 ++ a2) eqn:E; [apply app_eq_nil in E as [_ E]; contradiction | reflexivity].
Qed.

Lemma boundary_no_straddle : forall a b,
  noncont (last a 0) = true \/ nonfollow (hd 0 b) = true -> no_straddle a b.
Proof.
  intros a b Hb a1 a2 -> Hne Hp.
  destruct (Nat.le_gt_cases (List.length pat) (List.length a2)) as [Hle|Hgt]; [exact Hle|].
  exfalso. destruct (prefix_by_straddle a2 pat b Hne Hp Hgt) as [H1 H2].
  unfold noncont, nonfollow in Hb. rewrite last_app_ne in Hb by exact Hne.
  rewrite H1, H2 in Hb. destruct Hb; discriminate.
Qed.

Lemma replace_go_app : forall a k b, (k <= List.length a)%nat -> no_straddle a b ->
  replace_go eq pat repl k (a ++ b) = replace_go eq pat repl k a ++ replace_go eq pat repl O b.
Proof.
  induction a as [|c a IH]; intros k b Hk Hns.
  - simpl in Hk. assert (k = O) by lia. subst k. reflexivity.
  - assert (Hns' : no_straddle a b).
    { intros a1 a2 Ha Hne Hp. apply (Hns (c :: a1) a2); [rewrite Ha; reflexivity | exact Hne | exact Hp]. }
    destruct k as [|k]; simpl in Hk |- *.
    + destruct (prefix_by eq pat (c :: a ++ b)) eqn:Hp.
      * assert (Hl : (List.length pat <= List.length (c :: a))%nat)
          by (apply (Hns [] (c :: a)); [reflexivity | discriminate | exact Hp]).
        change (c :: a ++ b) with ((c :: a) ++ b) in Hp.
        rewrite prefix_by_app_within in Hp by exact Hl. rewrite Hp.
        rewrite IH; [apply app_assoc | simpl in Hl; lia | exact Hns'].
      * destruct (prefix_by eq pat (c :: a)) eqn:Hp'.
        { apply (prefix_by_app_l pat (c :: a) b) in Hp'. simpl in Hp'. congruence. }
        rewrite IH; [reflexivity | lia | exact Hns'].
    + apply IH; [lia | exact Hns'].
Qed.

Lemma replace_app : forall a b,
  noncont (last a 0) = true \/ nonfollow (hd 0 b) = true ->
  replace_all eq pat repl (a ++ b) = replace_all eq pat repl a ++ replace_all eq pat repl b.
Proof.
  intros a b Hb. unfold replace_all. apply replace_go_app; [lia | apply boundary_no_straddle; exact Hb].
Qed.

Lemma replace_no_match : forall s, no_match s = true -> replace_all eq pat repl s = s.
Proof.
  unfold replace_all. induction s as [|c s IH]; intro Hm; [reflexivity|].
  simpl in Hm |- *. apply andb_prop in Hm as [H1 H2].
  destruct (prefix_by eq pat (c :: s)); [discriminate|]. rewrite IH by exact H2. reflexivity.
Qed.

Lemma no_match_head : forall s, pat <> [] ->
  (forall c, In c s -> eq (hd 0 pat) c = false) -> no_match s = true.
Proof.
  induction s as [|c s IH]; intros Hne Hc; [reflexivity|].
  simpl. rewrite IH; [|exact Hne|intros d Hd; apply Hc; right; exact Hd].
  destruct pat as [|p pat']; [contradiction|]. simpl in Hc |- *.
  rewrite (Hc c (or_introl eq_refl)). reflexivity.
Qed.

End Replace.

(** A one-unit pattern is replaced unit by unit. *)
Lemma replace_single : forall eq x repl s,
  replace_all eq [x] repl s = flat_map (fun c => if eq x c then repl else [c]) s.
Proof.
  intros eq x repl. unfold replace_all. induction s as [|c s IH]; [reflexivity|].
  simpl. rewrite IH. destruct (eq x c); reflexivity.
Qed.

(** ** JSON-safe values *)

(** Code units that [JSON.stringify] copies as they are: no control
    character, quote or backslash, and surrogates only in pairs
    ([after_high]: the previous unit was a high surrogate). *)
Fixpoint plain_go (after_high : bool) (s : jstr) : bool :=
  match s with
  | [] => negb after_high
  | c :: tl =>
      if after_high then is_low_surrogate c && plain_go false tl
      else if is_high_surrogate c then plain_go true tl
      else negb (is_low_surrogate c) && (32 <=? c) && negb (c =? 34) && negb (c =? 92)
           && plain_go false tl
  end.

Definition plain_units (s : jstr) : bool := plain_go false s.

(** Every match of [pat] compared with [eq1] starting in [s] is also a
    match compared with [eq2]. *)
Fixpoint matches_within (eq1 eq2 : N -> N -> bool) (pat s : jstr) : bool :=
  match s with
  | [] => true
  | _ :: s' => (negb (prefix_by eq1 pat s) || prefix_by eq2 pat s) && matches_within eq1 eq2 pat s'
  end.

(** Strings that [JSON.stringify] copies, that hold no backtick, [${] or
    [<!--], and in which [</script>] occurs, if at all, in lower case only. *)
Definition safe_string (s : jstr) : bool :=
  plain_units s && no_match N.eqb [96] s && no_match N.eqb (u "${") s
  && no_match N.eqb (u "<!--") s && matches_within ci_eq N.eqb (u "</script>") s.

(** The canonical decomposition of a [JNumDec] (see [Js.jsval]), without [-0]. *)
Definition dec_canonical (s : N) (n : Z) : bool :=
  let k := Z.of_nat (List.length (n_digits s)) in
  (0 <? s) && negb (s mod 10 =? 0) && negb ((k <=? n)%Z && (n <=? 21)%Z).

Fixpoint keys_distinct (ks : list jstr) : bool :=
  match ks with
  | [] => true
  | k :: ks' => negb (existsb (jstr_eqb k) ks') && keys_distinct ks'
  end.

(** JSON data trees: [null], booleans, finite numbers other than [-0] (in
    the form [Js.jsval] holds them), safe strings, arrays, and objects with
    distinct safe keys. *)
Fixpoint json_safe (v : jsval) : bool :=
  match v with
  | JNull | JBool _ => true
  | JNum z => (Z.abs z <? 10 ^ 21)%Z
  | JNumDec _ s n => dec_canonical s n
  | JString s => safe_string s
  | JArray es => forallb json_safe es
  | JObject ps =>
      keys_distinct (map fst ps)
      && forallb (fun kv => safe_string (fst kv) && json_safe (snd kv)) ps
  | _ => false
  end.

(** The JSON text of a data tree, with string bodies rendered by [qb]. *)
Fixpoint tt (qb : jstr -> jstr) (v : jsval) : jstr :=
  match v with
  | JNull => u "null"
  | JBool true => u "true"
  | JBool false => u "false"
  | JNum z => int_text z
  | JNumDec neg s n => dec_text neg s n
  | JString s => 34 :: qb s ++ [34]
  | JArray es => 91 :: join_commas (map (tt qb) es) ++ [93]
  | JObject ps =>
      123 :: join_commas (map (fun kv => (34 :: qb (fst kv) ++ [34]) ++ 58 :: tt qb (snd kv)) ps)
      ++ [125]
  | _ => []
  end.

(** What the escaper leaves of a safe string: [</script>] as [<\/script>],
    U+2028 and U+2029 as escapes. *)
Definition esc_unit (c : N) : jstr :=
  if c =? 8232 then u "\u2028" else if c =? 8233 then u "\u2029" else [c].

Definition esc_lt (s : jstr) : jstr := flat_map esc_unit s.

Definition script_esc (s : jstr) : jstr := replace_all N.eqb (u "</script>") (u "<\/script>") s.

Definition esc_units (s : jstr) : jstr := esc_lt (script_esc s).

Definition rest_ok (rest : jstr) : Prop :=
  match rest with [] => True | c :: _ => c = 44 \/ c = 93 \/ c = 125 end.


Lemma plain_go_quote : forall s,
  (plain_go false s = true -> quote_units s = s)
  /\ (forall c, is_high_surrogate c = true -> plain_go true s = true -> quote_units (c :: s) = c :: s).
Proof.
  induction s as [|d tl [IH1 IH2]]; split.
  - reflexivity.
  - intros c _ Hp. discriminate Hp.
  - intro Hp. simpl in Hp. destruct (is_high_surrogate d) eqn:Hh.
    + apply IH2; assumption.
    + apply andb_prop in Hp as [Hp Hpt]. apply andb_prop in Hp as [Hp H92].
      apply andb_prop in Hp as [Hp H34]. apply andb_prop in Hp as [Hl H32].
      apply negb_true_iff in H92, H34, Hl. apply N.leb_le in H32.
      apply N.eqb_neq in H92, H34.
      assert (E : forall k, k < 32 \/ k = 34 \/ k = 92 -> (d =? k) = false)
        by (intros k Hk; apply N.eqb_neq; lia).
      cbn [quote_units]. rewrite !E by lia.
      rewrite (proj2 (N.ltb_ge d 32)) by lia. rewrite Hh, Hl, IH1 by exact Hpt. reflexivity.
  - intros c Hc Hp. simpl in Hp. apply andb_prop in Hp as [Hl Hpt].
    assert (Hc32 : 55296 <= c)
      by (unfold is_high_surrogate in Hc; apply andb_prop in Hc as [Hc _]; apply N.leb_le in Hc; lia).
    assert (E : forall k, k < 32 \/ k = 34 \/ k = 92 -> (c =? k) = false)
      by (intros k Hk; apply N.eqb_neq; lia).
    cbn [quote_units]. rewrite !E by lia. rewrite (proj2 (N.ltb_ge c 32)) by lia.
    rewrite Hc, Hl, IH1 by exact Hpt. reflexivity.
Qed.

Lemma plain_go_units : forall s b, plain_go b s = true ->
  forall c, In c s -> 32 <= c /\ c <> 34 /\ c <> 92.
Proof.
  induction s as [|d tl IH]; intros b Hp c Hin; [destruct Hin|].
  simpl in Hp. destruct Hin as [<-|Hin].
  - destruct b.
    + apply andb_prop in Hp as [Hl _]. unfold is_low_surrogate in Hl.
      apply andb_prop in Hl as [Hl _]. apply N.leb_le in Hl. lia.
    + destruct (is_high_surrogate d) eqn:Hh.
      * unfold is_high_surrogate in Hh. apply andb_prop in Hh as [Hh _]. apply N.leb_le in Hh. lia.
      * apply andb_prop in Hp as [Hp _]. apply andb_prop in Hp as [Hp H92].
        apply andb_prop in Hp as [Hp H34]. apply andb_prop in Hp as [_ H32].
        apply negb_true_iff, N.eqb_neq in H92, H34. apply N.leb_le in H32. lia.
  - destruct b; [apply andb_prop in Hp as [_ Hp]|destruct (is_high_surrogate d)];
      [| |apply andb_prop in Hp as [_ Hp]]; eapply IH; eauto.
Qed.

Lemma replace_go_skipn : forall eq q r k s,
  replace_go eq q r k s = replace_go eq q r O (skipn k s).
Proof.
  intros eq q r k. induction k as [|k IH]; intro s; [reflexivity|].
  destruct s as [|c s]; [reflexivity|]. cbn [replace_go skipn]. apply IH.
Qed.

Lemma script_esc_cons : forall c tl,
  script_esc (c :: tl)
  = if prefix_by N.eqb (u "</script>") (c :: tl) then u "<\/script>" ++ script_esc (skipn 8 tl)
    else c :: script_esc tl.
Proof.
  intros c tl. unfold script_esc, replace_all. cbn [replace_go].
  destruct (prefix_by N.eqb (u "</script>") (c :: tl)); [|reflexivity].
  rewrite replace_go_skipn. reflexivity.
Qed.

Lemma prefix_by_eqb_split : forall p s, prefix_by N.eqb p s = true -> s = p ++ skipn (List.length p) s.
Proof.
  induction p as [|x p IH]; intros s Hp; [reflexivity|].
  destruct s as [|c s]; [discriminate|]. cbn [prefix_by] in Hp. apply andb_prop in Hp as [Hx Hp].
  apply N.eqb_eq in Hx. subst c. cbn [app List.length skipn]. f_equal. apply IH. exact Hp.
Qed.

Lemma prefix_by_eqb_ci : forall p s, prefix_by N.eqb p s = true -> prefix_by ci_eq p s = true.
Proof.
  induction p as [|x p IH]; intros s Hp; [reflexivity|].
  destruct s as [|c s]; [discriminate|]. cbn [prefix_by] in Hp |- *. apply andb_prop in Hp as [Hx Hp].
  apply N.eqb_eq in Hx. subst c. unfold ci_eq. rewrite N.eqb_refl, IH by exact Hp. reflexivity.
Qed.

(** Where every case-insensitive match is an exact one, the case-insensitive
    replacement is the exact one. *)
Lemma replace_go_within : forall pat repl s k,
  matches_within ci_eq N.eqb pat s = true ->
  replace_go ci_eq pat repl k s = replace_go N.eqb pat repl k s.
Proof.
  intros pat repl. induction s as [|c s IH]; intros k Hw; [reflexivity|].
  cbn [matches_within] in Hw. apply andb_prop in Hw as [Hc Hw].
  destruct k as [|k]; cbn [replace_go]; [|apply IH; exact Hw].
  assert (E : prefix_by ci_eq pat (c :: s) = prefix_by N.eqb pat (c :: s)).
  { destruct (prefix_by N.eqb pat (c :: s)) eqn:Ee.
    - apply prefix_by_eqb_ci. exact Ee.
    - destruct (prefix_by ci_eq pat (c :: s)); [discriminate Hc | reflexivity]. }
  rewrite E, !IH by exact Hw. reflexivity.
Qed.

Lemma no_match_skipn : forall eq p n s, no_match eq p s = true -> no_match eq p (skipn n s) = true.
Proof.
  intros eq p. induction n as [|n IH]; intros s Hs; [exact Hs|].
  destruct s as [|c s]; [reflexivity|]. cbn [skipn]. apply IH.
  cbn [no_match] in Hs. apply andb_prop in Hs as [_ Hs]. exact Hs.
Qed.

(** The [</script>] replacement cannot create or destroy a match of a word
    without ['<']. *)
Lemma prefix_script_esc : forall w, (forall x, In x w -> x <> 60) ->
  forall s, prefix_by N.eqb w (script_esc s) = prefix_by N.eqb w s.
Proof.
  induction w as [|x w IH]; intros Hw s; [reflexivity|].
  destruct s as [|c tl]; [reflexivity|]. rewrite script_esc_cons.
  assert (Hx : x <> 60) by (apply Hw; left; reflexivity).
  destruct (prefix_by N.eqb (u "</script>") (c :: tl)) eqn:Hp.
  - cbn [prefix_by] in Hp. apply andb_prop in Hp as [Hc _]. apply N.eqb_eq in Hc. subst c.
    simpl. rewrite (proj2 (N.eqb_neq x 60) Hx). reflexivity.
  - cbn [prefix_by]. rewrite IH by (intros y Hy; apply Hw; right; exact Hy). reflexivity.
Qed.

Lemma no_match_comment_scr : forall X,
  no_match N.eqb (u "<!--") (u "<\/script>" ++ X) = no_match N.eqb (u "<!--") X.
Proof. intro X. reflexivity. Qed.

Lemma no_match_script_esc : forall n s, (List.length s <= n)%nat ->
  no_match N.eqb (u "<!--") s = true -> no_match N.eqb (u "<!--") (script_esc s) = true.
Proof.
  induction n as [|n IH]; intros s Hl Hs.
  - destruct s; [reflexivity | cbn in Hl; lia].
  - destruct s as [|c tl]; [reflexivity|]. rewrite script_esc_cons.
    destruct (prefix_by N.eqb (u "</script>") (c :: tl)).
    + rewrite no_match_comment_scr. apply IH.
      * rewrite length_skipn. cbn [List.length] in Hl. lia.
      * apply (no_match_skipn _ _ 9 (c :: tl)). exact Hs.
    + cbn [no_match] in Hs |- *. apply andb_prop in Hs as [Hc Hs].
      assert (E : prefix_by N.eqb (u "<!--") (c :: script_esc tl) = prefix_by N.eqb (u "<!--") (c :: tl)).
      { change (prefix_by N.eqb (u "<!--") (c :: script_esc tl))
          with ((60 =? c) && prefix_by N.eqb [33; 45; 45] (script_esc tl)).
        change (prefix_by N.eqb (u "<!--") (c :: tl))
          with ((60 =? c) && prefix_by N.eqb [33; 45; 45] tl).
        rewrite prefix_script_esc; [reflexivity|].
        intros y Hy. cbn in Hy. lia. }
      rewrite E, Hc. cbn [andb negb]. apply IH; [cbn [List.length] in Hl; lia | exact Hs].
Qed.

Lemma parse_script_esc : forall Y,
  parse_string_body (u "<\/script>" ++ Y)
  = match parse_string_body Y with Some (b, r) => Some (u "</script>" ++ b, r) | None => None end.
Proof. intro Y. cbn. destruct (parse_string_body Y) as [[b r]|]; reflexivity. Qed.

Lemma esc_lt_app : forall a b, esc_lt (a ++ b) = esc_lt a ++ esc_lt b.
Proof. intros a b. apply flat_map_app. Qed.

Lemma parse_string_body_esc_n : forall n s rest, (List.length s <= n)%nat ->
  (forall c, In c s -> 32 <= c /\ c <> 34 /\ c <> 92) ->
  parse_string_body (esc_units s ++ 34 :: rest) = Some (s, rest).
Proof.
  induction n as [|n IH]; intros s rest Hl Hs.
  - destruct s; [reflexivity | cbn in Hl; lia].
  - destruct s as [|c tl]; [reflexivity|]. unfold esc_units. rewrite script_esc_cons.
    destruct (prefix_by N.eqb (u "</script>") (c :: tl)) eqn:Hp.
    + apply prefix_by_eqb_split in Hp. cbn [List.length skipn] in Hp.
      rewrite esc_lt_app, <- app_assoc.
      change (esc_lt (u "<\/script>")) with (u "<\/script>").
      rewrite parse_script_esc. fold (esc_units (skipn 8 tl)).
      rewrite IH.
      * rewrite Hp. reflexivity.
      * rewrite length_skipn. cbn [List.length] in Hl. lia.
      * intros d Hd. apply Hs. right. rewrite <- (firstn_skipn 8 tl). apply in_or_app. right. exact Hd.
    + unfold esc_lt. cbn [flat_map]. fold (esc_lt (script_esc tl)). fold (esc_units tl).
      rewrite <- app_assoc.
      assert (IH' := IH tl rest ltac:(cbn [List.length] in Hl; lia) (fun d Hd => Hs d (or_intror Hd))).
      destruct (Hs c (or_introl eq_refl)) as [H32 [H34 H92]].
      unfold esc_unit at 1.
      destruct (c =? 8232) eqn:E1; [apply N.eqb_eq in E1; subst c; simpl; rewrite IH'; reflexivity|].
      destruct (c =? 8233) eqn:E2; [apply N.eqb_eq in E2; subst c; simpl; rewrite IH'; reflexivity|].
      cbn [app parse_string_body].
      rewrite (proj2 (N.eqb_neq c 34) H34), (proj2 (N.eqb_neq c 92) H92), (proj2 (N.ltb_ge c 32) H32).
      rewrite IH'. reflexivity.
Qed.

Lemma parse_string_body_esc : forall s rest,
  (forall c, In c s -> 32 <= c /\ c <> 34 /\ c <> 92) ->
  parse_string_body (esc_units s ++ 34 :: rest) = Some (s, rest).
Proof. intros s rest. apply (parse_string_body_esc_n (List.length s)). lia. Qed.

Lemma no_match_units : forall s x, plain_units s = true -> (x < 32 \/ x = 34 \/ x = 92) ->
  no_match N.eqb [x] s = true.
Proof.
  intros s x Hp Hx. apply no_match_head; [discriminate|].
  intros c Hc. destruct (plain_go_units s false Hp c Hc) as [H1 [H2 H3]].
  simpl. apply N.eqb_neq. lia.
Qed.

Lemma flat_map_esc : forall s,
  flat_map (fun c => if 8233 =? c then u "\u2029" else [c])
    (flat_map (fun c => if 8232 =? c then u "\u2028" else [c]) s) = esc_lt s.
Proof.
  induction s as [|c s IH]; [reflexivity|].
  cbn [flat_map]. rewrite flat_map_app, IH. unfold esc_lt. cbn [flat_map]. f_equal.
  unfold esc_unit. rewrite (N.eqb_sym c 8232), (N.eqb_sym c 8233).
  destruct (8232 =? c) eqn:E1; [reflexivity|].
  cbn [flat_map]. destruct (8233 =? c); reflexivity.
Qed.

Lemma escape_text_safe : forall s, safe_string s = true -> escape_text (quote_units s) = esc_units s.
Proof.
  intros s Hs. unfold safe_string in Hs.
  apply andb_prop in Hs as [Hs H5]. apply andb_prop in Hs as [Hs H4].
  apply andb_prop in Hs as [Hs H3]. apply andb_prop in Hs as [Hp H2].
  rewrite (proj1 (plain_go_quote s) Hp).
  unfold escape_text.
  rewrite (replace_no_match N.eqb [92]) by (apply no_match_units; [exact Hp | lia]).
  rewrite (replace_no_match N.eqb [96]) by exact H2.
  rewrite (replace_no_match N.eqb (u "${")) by exact H3.
  assert (Hci : replace_all ci_eq (u "</script>") (u "<\/script>") s = script_esc s).
  { unfold replace_all, script_esc, replace_all. apply replace_go_within. exact H5. }
  rewrite Hci.
  rewrite (replace_no_match N.eqb (u "<!--"))
    by (apply (no_match_script_esc (List.length s)); [lia | exact H4]).
  rewrite !replace_single. apply flat_map_esc.
Qed.


(** ** Integers *)

Lemma pos_size_nat_bound : forall p, N.pos p < 2 ^ N.of_nat (Pos.size_nat p).
Proof.
  induction p as [p IH|p IH|]; [| |reflexivity]; cbn [Pos.size_nat];
    rewrite Nat2N.inj_succ, N.pow_succ_r'.
  - change (N.pos p~1) with (2 * N.pos p + 1). lia.
  - change (N.pos p~0) with (2 * N.pos p). lia.
Qed.

Lemma size_nat_bound : forall n, n < 10 ^ N.of_nat (S (N.size_nat n)).
Proof.
  intros [|p]; [reflexivity|]. cbn [N.size_nat].
  assert (H1 := pos_size_nat_bound p).
  assert (H2 : 2 ^ N.of_nat (Pos.size_nat p) <= 10 ^ N.of_nat (Pos.size_nat p))
    by (apply N.pow_le_mono_l; lia).
  assert (H3 : 10 ^ N.of_nat (Pos.size_nat p) <= 10 ^ N.of_nat (S (Pos.size_nat p)))
    by (apply N.pow_le_mono_r; lia).
  lia.
Qed.

Definition digit_ok (d : N) : bool := is_digit d.

Lemma digits_value_app : forall ds d,
  digits_value (ds ++ [d]) = digits_value ds * 10 + (d - 48).
Proof. intros ds d. unfold digits_value. rewrite fold_left_app. reflexivity. Qed.

Lemma digits_go_S : forall f n acc,
  digits_go (S f) n acc
  = if n <? 10 then (48 + n mod 10) :: acc else digits_go f (n / 10) ((48 + n mod 10) :: acc).
Proof. reflexivity. Qed.

Lemma digits_go_spec : forall f n acc, n < 10 ^ N.of_nat (S f) ->
  exists ds, digits_go (S f) n acc = ds ++ acc /\ ds <> []
    /\ Forall (fun d => is_digit d = true) ds /\ digits_value ds = n
    /\ (0 < n -> hd 0 ds <> 48).
Proof.
  induction f as [|f IH]; intros n acc Hn.
  - rewrite digits_go_S. simpl in Hn.
    assert (Hlt : (n <? 10) = true) by (apply N.ltb_lt; lia). rewrite Hlt.
    exists [48 + n mod 10]. rewrite N.mod_small by lia.
    split; [reflexivity|]. split; [discriminate|]. split.
    + constructor; [unfold is_digit; apply andb_true_intro; split; apply N.leb_le; lia | constructor].
    + split; [unfold digits_value; cbn [fold_left]; lia | cbn [hd]; lia].
  - rewrite digits_go_S. destruct (n <? 10) eqn:Hlt.
    + apply N.ltb_lt in Hlt. exists [48 + n mod 10]. rewrite N.mod_small by lia.
      split; [reflexivity|]. split; [discriminate|]. split.
      * constructor; [unfold is_digit; apply andb_true_intro; split; apply N.leb_le; lia | constructor].
      * split; [unfold digits_value; cbn [fold_left]; lia | cbn [hd]; lia].
    + apply N.ltb_ge in Hlt.
      assert (Hq : n / 10 < 10 ^ N.of_nat (S f)).
      { rewrite Nat2N.inj_succ, N.pow_succ_r' in Hn. apply N.Div0.div_lt_upper_bound. lia. }
      destruct (IH (n / 10) ((48 + n mod 10) :: acc) Hq) as [ds [Heq [Hne [Hd [Hv Hh]]]]].
      exists (ds ++ [48 + n mod 10]). rewrite Heq, <- app_assoc. split; [reflexivity|].
      split; [destruct ds; [contradiction|discriminate]|]. split.
      * apply Forall_app. split; [exact Hd|]. constructor; [|constructor].
        assert (Hm : n mod 10 < 10) by (apply N.mod_lt; lia).
        remember (n mod 10) as m.
        unfold is_digit; apply andb_true_intro; split; apply N.leb_le; lia.
      * split.
        -- rewrite digits_value_app, Hv. pose proof (N.div_mod n 10 ltac:(lia)) as Hdm.
           remember (n / 10) as q. remember (n mod 10) as m. lia.
        -- intros _. destruct ds as [|d ds]; [contradiction|]. simpl.
           apply Hh. apply N.div_str_pos. lia.
Qed.

Lemma n_digits_spec : forall n,
  exists ds, n_digits n = ds /\ ds <> [] /\ Forall (fun d => is_digit d = true) ds
    /\ digits_value ds = n /\ (0 < n -> hd 0 ds <> 48).
Proof.
  intro n. unfold n_digits. destruct (digits_go_spec (N.size_nat n) n [] (size_nat_bound n))
    as [ds [Heq H]]. exists ds. rewrite Heq, app_nil_r. auto.
Qed.

Lemma span_digits_app : forall ds rest, Forall (fun d => is_digit d = true) ds ->
  match rest with [] => True | c :: _ => is_digit c = false end ->
  span_digits (ds ++ rest) = (ds, rest).
Proof.
  induction ds as [|d ds IH]; intros rest Hd Hr.
  - destruct rest as [|c rest]; [reflexivity|]. simpl. rewrite Hr. reflexivity.
  - inversion Hd as [|? ? Hd1 Hds]; subst. simpl. rewrite Hd1, IH by assumption. reflexivity.
Qed.

Lemma rest_ok_not_digit : forall rest, rest_ok rest ->
  match rest with [] => True | c :: _ => is_digit c = false end.
Proof. intros [|c rest] Hr; [exact I|]. destruct Hr as [-> | [-> | ->]]; reflexivity. Qed.

Lemma z_text_units : forall z c, In c (z_text z) -> c = 45 \/ is_digit c = true.
Proof.
  intros z c Hc. unfold z_text in Hc.
  destruct (z <? 0)%Z.
  - destruct Hc as [Hc|Hc]; [left; symmetry; exact Hc|]. right.
    destruct (n_digits_spec (Z.to_N (- z))) as [ds [Hds [_ [Hd _]]]].
    rewrite Hds in Hc. rewrite Forall_forall in Hd. apply Hd. exact Hc.
  - right. destruct (n_digits_spec (Z.to_N z)) as [ds [Hds [_ [Hd _]]]].
    rewrite Hds in Hc. rewrite Forall_forall in Hd. apply Hd. exact Hc.
Qed.

Lemma digit_cases : forall c, is_digit c = true -> In c [48; 49; 50; 51; 52; 53; 54; 55; 56; 57].
Proof.
  intros c Hc. unfold is_digit in Hc. apply andb_prop in Hc as [H1 H2].
  apply N.leb_le in H1, H2. simpl. lia.
Qed.

(** ** Numbers: Number::toString read back by [JSON.parse] *)

Lemma digits_value_acc : forall ds a,
  fold_left (fun acc d => acc * 10 + (d - 48)) ds a
  = a * 10 ^ N.of_nat (List.length ds) + digits_value ds.
Proof.
  induction ds as [|d ds IH]; intro a; [unfold digits_value; cbn; lia|].
  unfold digits_value. cbn [fold_left List.length]. rewrite !IH.
  rewrite Nat2N.inj_succ, N.pow_succ_r'. remember (d - 48) as x. ring.
Qed.

Lemma digits_value_concat : forall a b,
  digits_value (a ++ b) = digits_value a * 10 ^ N.of_nat (List.length b) + digits_value b.
Proof. intros a b. unfold digits_value at 1. rewrite fold_left_app. apply digits_value_acc. Qed.

Lemma digits_value_zeros : forall m ds, digits_value (zeros m ++ ds) = digits_value ds.
Proof.
  intros m ds. rewrite digits_value_concat.
  assert (Hz : digits_value (zeros m) = 0).
  { induction m as [|m IH]; [reflexivity|]. unfold zeros in *. cbn [repeat].
    unfold digits_value in *. cbn [fold_left]. exact IH. }
  rewrite Hz. lia.
Qed.

Lemma digits_value_cons : forall d ds,
  digits_value (d :: ds) = (d - 48) * 10 ^ N.of_nat (List.length ds) + digits_value ds.
Proof.
  intros d ds. change (d :: ds) with ([d] ++ ds). rewrite digits_value_concat.
  assert (H1 : digits_value [d] = d - 48) by (unfold digits_value; cbn; lia).
  rewrite H1. reflexivity.
Qed.

Lemma digit_range : forall d, is_digit d = true -> 48 <= d <= 57.
Proof. intros d Hd. unfold is_digit in Hd. apply andb_prop in Hd as [H1 H2]. apply N.leb_le in H1, H2. lia. Qed.

Lemma digits_value_lt : forall ds, Forall (fun d => is_digit d = true) ds ->
  digits_value ds < 10 ^ N.of_nat (List.length ds).
Proof.
  induction ds as [|d ds IH]; intro Hd; [reflexivity|].
  inversion Hd as [|? ? Hd1 Hds]; subst. rewrite digits_value_cons.
  specialize (IH Hds). apply digit_range in Hd1.
  cbn [List.length]. rewrite Nat2N.inj_succ, N.pow_succ_r'.
  remember (10 ^ N.of_nat (List.length ds)) as P. nia.
Qed.

Lemma digits_value_ge : forall d ds, is_digit d = true -> d <> 48 ->
  10 ^ N.of_nat (List.length ds) <= digits_value (d :: ds).
Proof.
  intros d ds Hd H48. rewrite digits_value_cons. apply digit_range in Hd.
  remember (10 ^ N.of_nat (List.length ds)) as P. nia.
Qed.

Lemma n_digits_bounds : forall s, 0 < s ->
  (1 <= List.length (n_digits s))%nat
  /\ 10 ^ (N.of_nat (List.length (n_digits s)) - 1) <= s
  /\ s < 10 ^ N.of_nat (List.length (n_digits s)).
Proof.
  intros s Hs. destruct (n_digits_spec s) as [ds [-> [Hne [Hd [Hv Hh]]]]].
  destruct ds as [|d ds]; [contradiction|]. split; [cbn; lia|].
  inversion Hd as [|? ? Hd1 Hds]; subst. split.
  - cbn [List.length]. rewrite Nat2N.inj_succ, N.sub_1_r, N.pred_succ.
    apply digits_value_ge; [exact Hd1 | apply Hh; exact Hs].
  - apply digits_value_lt. exact Hd.
Qed.

Lemma size_nat_pow2 : forall m, m < 2 ^ N.of_nat (N.size_nat m).
Proof. intros [|p]; [reflexivity|]. apply pos_size_nat_bound. Qed.

Lemma strip_zeros_spec : forall fuel m t, 0 < m -> m < 2 ^ N.of_nat fuel ->
  exists s j, strip_zeros fuel m t = (s, (t + Z.of_N j)%Z) /\ m = s * 10 ^ j /\ 0 < s
              /\ s mod 10 <> 0.
Proof.
  induction fuel as [|f IH]; intros m t Hm Hf; [cbn in Hf; lia|].
  cbn [strip_zeros]. rewrite (proj2 (N.ltb_lt 0 m) Hm). cbn [andb].
  destruct (m mod 10 =? 0) eqn:E.
  - apply N.eqb_eq in E.
    pose proof (N.div_mod m 10 ltac:(lia)) as Hdm. rewrite E in Hdm.
    assert (Hq : 0 < m / 10) by lia.
    assert (Hqf : m / 10 < 2 ^ N.of_nat f) by (rewrite Nat2N.inj_succ, N.pow_succ_r' in Hf; lia).
    destruct (IH (m / 10) (t + 1)%Z Hq Hqf) as [s [j [Es [Ej [Hs Hs10]]]]].
    exists s, (j + 1). rewrite Es. split; [f_equal; lia|]. split; [|split; assumption].
    rewrite N.pow_add_r, N.pow_1_r, N.mul_assoc, <- Ej. lia.
  - exists m, 0. split; [f_equal; lia|]. split; [rewrite N.pow_0_r; lia|].
    split; [exact Hm | apply N.eqb_neq; exact E].
Qed.

Lemma strip_zeros_stop : forall s t, 0 < s -> s mod 10 <> 0 ->
  strip_zeros (N.size_nat s) s t = (s, t).
Proof.
  intros s t Hs H10.
  assert (Hf : exists f, N.size_nat s = S f).
  { destruct s as [|p]; [lia|]. destruct p; cbn; eexists; reflexivity. }
  destruct Hf as [f ->]. cbn [strip_zeros].
  rewrite (proj2 (N.ltb_lt 0 s) Hs), (proj2 (N.eqb_neq _ 0) H10). reflexivity.
Qed.

(** [num_value] gives back a canonical [JNumDec] from its digits and exponent. *)
Lemma num_value_dec : forall neg s n, dec_canonical s n = true ->
  num_value neg s (n - Z.of_nat (List.length (n_digits s))) = JNumDec neg s n.
Proof.
  intros neg s n Hc. unfold dec_canonical in Hc.
  apply andb_prop in Hc as [Hc Hk]. apply andb_prop in Hc as [Hs H10].
  apply N.ltb_lt in Hs. apply negb_true_iff, N.eqb_neq in H10. apply negb_true_iff in Hk.
  unfold num_value. rewrite (proj2 (N.eqb_neq s 0)) by lia.
  rewrite strip_zeros_stop by assumption. cbv beta iota zeta.
  replace (n - Z.of_nat (List.length (n_digits s)) + Z.of_nat (List.length (n_digits s)))%Z
    with n by lia.
  rewrite Hk. reflexivity.
Qed.

(** [num_value] gives back an integer below [10^21] in magnitude. *)
Lemma num_value_int : forall z, (Z.abs z < 10 ^ 21)%Z ->
  num_value (z <? 0)%Z (Z.to_N (Z.abs z)) 0 = JNum z.
Proof.
  intros z Hz. unfold num_value.
  destruct (Z.eq_dec z 0) as [->|Hz0]; [reflexivity|].
  assert (Hm : 0 < Z.to_N (Z.abs z)) by lia.
  rewrite (proj2 (N.eqb_neq _ 0)) by lia.
  destruct (strip_zeros_spec (N.size_nat (Z.to_N (Z.abs z))) (Z.to_N (Z.abs z)) 0 Hm
              (size_nat_pow2 _)) as [s [j [Es [Ej [Hs Hs10]]]]].
  rewrite Es. cbv beta iota zeta.
  destruct (n_digits_bounds s Hs) as [Hk1 [Hlo Hhi]].
  remember (List.length (n_digits s)) as k.
  assert (Hm21 : Z.to_N (Z.abs z) < 10 ^ 21).
  { apply N2Z.inj_lt. rewrite Z2N.id by lia. exact Hz. }
  assert (Hkj : N.of_nat k - 1 + j < 21).
  { apply (N.pow_lt_mono_r_iff 10); [lia|]. rewrite N.pow_add_r.
    apply (N.le_lt_trans _ (s * 10 ^ j)); [apply N.mul_le_mono_r; exact Hlo|].
    rewrite <- Ej. exact Hm21. }
  assert (Hcond : ((Z.of_nat k <=? 0 + Z.of_N j + Z.of_nat k)%Z
                   && (0 + Z.of_N j + Z.of_nat k <=? 21)%Z) = true).
  { apply andb_true_intro. split; apply Z.leb_le; lia. }
  rewrite Hcond. f_equal.
  replace (0 + Z.of_N j + Z.of_nat k - Z.of_nat k)%Z with (Z.of_N j) by lia.
  assert (Hv : (Z.of_N s * 10 ^ Z.of_N j)%Z = Z.abs z).
  { rewrite <- (Z2N.id (Z.abs z)) by lia. rewrite Ej, N2Z.inj_mul, N2Z.inj_pow. reflexivity. }
  rewrite Hv. destruct (z <? 0)%Z eqn:E; [apply Z.ltb_lt in E | apply Z.ltb_ge in E]; lia.
Qed.

Definition head_nondigit (r : jstr) : Prop :=
  match r with [] => True | c :: _ => is_digit c = false end.

(** The integer part of a literal: ["0"], or digits not starting with ["0"]. *)
Definition int_ok (ids : jstr) : Prop :=
  ids = [48] \/ (Forall (fun d => is_digit d = true) ids /\ hd 0 ids <> 48 /\ ids <> []).

Lemma parse_int_ok : forall ids R, int_ok ids -> head_nondigit R ->
  (match ids ++ R with
   | c :: tl =>
       if c =? 48 then Some ([c], tl)
       else if is_digit c then Some (span_digits (ids ++ R)) else None
   | [] => None
   end) = Some (ids, R).
Proof.
  intros ids R [-> | [Hd [Hh Hne]]] HR; [reflexivity|].
  destruct ids as [|d ds]; [contradiction|].
  inversion Hd as [|? ? Hd1 Hds]; subst. cbn [app hd] in *.
  rewrite (proj2 (N.eqb_neq d 48) Hh), Hd1.
  change (d :: ds ++ R) with ((d :: ds) ++ R).
  rewrite span_digits_app; [reflexivity | exact Hd | exact HR].
Qed.

Lemma parse_frac_none : forall R, match R with [] => True | c :: _ => c <> 46 end ->
  parse_frac R = Some ([], R).
Proof.
  intros [|c R] Hc; [reflexivity|]. unfold parse_frac.
  rewrite (proj2 (N.eqb_neq c 46) Hc). reflexivity.
Qed.

Lemma parse_frac_some : forall fds R, fds <> [] -> Forall (fun d => is_digit d = true) fds ->
  head_nondigit R -> parse_frac (46 :: fds ++ R) = Some (fds, R).
Proof.
  intros fds R Hne Hd HR. unfold parse_frac. rewrite N.eqb_refl.
  rewrite span_digits_app by assumption. destruct fds; [contradiction | reflexivity].
Qed.

Lemma parse_exp_none : forall R, match R with [] => True | c :: _ => c <> 101 /\ c <> 69 end ->
  parse_exp R = Some (0%Z, R).
Proof.
  intros [|c R] Hc; [reflexivity|]. destruct Hc as [H1 H2]. unfold parse_exp.
  rewrite (proj2 (N.eqb_neq c 101) H1), (proj2 (N.eqb_neq c 69) H2). reflexivity.
Qed.

Lemma parse_exp_text : forall x R, head_nondigit R -> parse_exp (exp_text x ++ R) = Some (x, R).
Proof.
  intros x R HR. unfold exp_text, parse_exp. cbn [app]. rewrite N.eqb_refl. cbn [orb].
  destruct (n_digits_spec (Z.to_N (Z.abs x))) as [ds [Hds [Hne [Hd [Hv _]]]]]. rewrite Hds.
  destruct (x <? 0)%Z eqn:Hx; [apply Z.ltb_lt in Hx | apply Z.ltb_ge in Hx];
    cbn [N.eqb Pos.eqb]; rewrite span_digits_app by assumption;
    (destruct ds as [|d ds']; [contradiction|]); cbv beta iota; rewrite Hv;
    rewrite Z2N.id by lia; f_equal; f_equal; lia.
Qed.

Lemma parse_number_parts : forall (neg : bool) ids R1 fds R2 x R3,
  int_ok ids -> head_nondigit R1 ->
  parse_frac R1 = Some (fds, R2) -> parse_exp R2 = Some (x, R3) ->
  parse_number ((if neg then [45] else []) ++ ids ++ R1)
  = Some (num_value neg (digits_value (ids ++ fds)) (x - Z.of_nat (List.length fds))%Z, R3).
Proof.
  intros neg ids R1 fds R2 x R3 Hi HR Hf He. unfold parse_number.
  destruct neg.
  - cbn [app]. rewrite N.eqb_refl. cbv beta iota.
    rewrite parse_int_ok by assumption. rewrite Hf, He. reflexivity.
  - cbn [app].
    assert (Hh : exists d t, ids ++ R1 = d :: t /\ is_digit d = true).
    { destruct Hi as [-> | [Hd [_ Hne]]]; [eexists _, _; split; reflexivity|].
      destruct ids as [|d ds]; [contradiction|]. inversion Hd; subst.
      exists d, (ds ++ R1). split; [reflexivity | assumption]. }
    destruct Hh as [d [t [Ht Hd]]].
    pose proof (parse_int_ok ids R1 Hi HR) as Hi'. rewrite Ht in Hi' |- *.
    rewrite (proj2 (N.eqb_neq d 45)) by (apply digit_range in Hd; lia).
    cbv beta iota in Hi' |- *. rewrite Hi', Hf, He. reflexivity.
Qed.

Lemma rest_ok_facts : forall rest, rest_ok rest ->
  head_nondigit rest /\ (match rest with [] => True | c :: _ => c <> 46 end)
  /\ (match rest with [] => True | c :: _ => c <> 101 /\ c <> 69 end).
Proof.
  intros [|c r] Hr; [repeat split|].
  destruct Hr as [-> | [-> | ->]]; cbn; repeat split; (reflexivity || discriminate).
Qed.

Lemma int_text_small : forall z, (Z.abs z < 10 ^ 21)%Z ->
  int_text z = (if (z <? 0)%Z then [45] else []) ++ n_digits (Z.to_N (Z.abs z)).
Proof.
  intros z Hz. unfold int_text. rewrite (proj2 (Z.ltb_lt _ _) Hz). unfold z_text.
  destruct (z <? 0)%Z eqn:E; [apply Z.ltb_lt in E | apply Z.ltb_ge in E].
  - replace (Z.abs z) with (- z)%Z by lia. reflexivity.
  - replace (Z.abs z) with z by lia. reflexivity.
Qed.

Lemma n_digits_int_ok : forall m, int_ok (n_digits m).
Proof.
  intro m. destruct (N.eq_dec m 0) as [->|Hm]; [left; reflexivity|].
  destruct (n_digits_spec m) as [ds [-> [Hne [Hd [_ Hh]]]]].
  right. split; [exact Hd|]. split; [apply Hh; lia | exact Hne].
Qed.

(** Number::toString of an integer below [10^21] in magnitude is read back. *)
Lemma parse_int_text : forall z rest, (Z.abs z < 10 ^ 21)%Z -> rest_ok rest ->
  parse_number (int_text z ++ rest) = Some (JNum z, rest).
Proof.
  intros z rest Hz Hr. destruct (rest_ok_facts rest Hr) as [Hnd [H46 Hexp]].
  rewrite int_text_small by exact Hz. rewrite <- app_assoc.
  rewrite (parse_number_parts _ _ rest [] rest 0%Z rest).
  - rewrite app_nil_r. destruct (n_digits_spec (Z.to_N (Z.abs z))) as [ds [-> [_ [_ [Hv _]]]]].
    rewrite Hv. cbn [List.length Z.of_nat Z.sub]. rewrite num_value_int by exact Hz. reflexivity.
  - apply n_digits_int_ok.
  - exact Hnd.
  - apply parse_frac_none. exact H46.
  - apply parse_exp_none. exact Hexp.
Qed.

Lemma Forall_firstn_skipn : forall (P : N -> Prop) n l, Forall P l ->
  Forall P (firstn n l) /\ Forall P (skipn n l).
Proof.
  intros P n l H. rewrite <- (firstn_skipn n l) in H. apply Forall_app in H. exact H.
Qed.

Lemma zeros_digits : forall m, Forall (fun d => is_digit d = true) (zeros m).
Proof. intro m. apply Forall_forall. intros x Hx. apply repeat_spec in Hx. subst x. reflexivity. Qed.

(** Number::toString of a canonical [JNumDec] is read back. *)
Lemma parse_dec_text : forall neg s n rest, dec_canonical s n = true -> rest_ok rest ->
  parse_number (dec_text neg s n ++ rest) = Some (JNumDec neg s n, rest).
Proof.
  intros neg s n rest Hc Hr. destruct (rest_ok_facts rest Hr) as [Hnd [H46 Hexp]].
  rewrite <- (num_value_dec neg s n Hc).
  pose proof Hc as Hc'. unfold dec_canonical in Hc'.
  apply andb_prop in Hc' as [Hc' Hk]. apply andb_prop in Hc' as [Hs H10].
  apply N.ltb_lt in Hs. apply negb_true_iff in Hk.
  destruct (n_digits_spec s) as [ds [Hds [Hne [Hd [Hv Hh]]]]].
  assert (Hh' : hd 0 ds <> 48) by (apply Hh; exact Hs).
  unfold dec_text. rewrite (proj2 (N.eqb_neq s 0)) by lia. rewrite Hds in Hk |- *.
  cbv zeta. rewrite Hk.
  set (k := Z.of_nat (List.length ds)) in *.
  assert (Hk' : ~ ((k <= n)%Z /\ (n <= 21)%Z)).
  { intros [H1 H2]. apply Z.leb_le in H1, H2. rewrite H1, H2 in Hk. discriminate. }
  destruct ((0 <? n)%Z && (n <=? 21)%Z) eqn:Ha.
  - apply andb_prop in Ha as [Ha1 Ha2]. apply Z.ltb_lt in Ha1. apply Z.leb_le in Ha2.
    assert (Hnk : (n < k)%Z) by lia.
    set (m := Z.to_nat n).
    assert (Hm1 : (1 <= m)%nat) by (unfold m; lia).
    assert (Hmk : (m < List.length ds)%nat) by (unfold m, k in *; lia).
    destruct (Forall_firstn_skipn _ m ds Hd) as [Hdf Hds'].
    rewrite <- !app_assoc, <- app_comm_cons.
    rewrite (parse_number_parts neg (firstn m ds) (46 :: skipn m ds ++ rest) (skipn m ds) rest
               0%Z rest).
    + rewrite firstn_skipn, Hv. rewrite length_skipn. do 3 f_equal. unfold m, k in *. lia.
    + right. split; [exact Hdf|]. destruct ds as [|d ds']; [contradiction|].
      destruct m as [|m']; [lia|]. split; [exact Hh' | discriminate].
    + reflexivity.
    + apply parse_frac_some; [| exact Hds' | exact Hnd].
      intro E. apply (f_equal (@List.length N)) in E. rewrite length_skipn in E. cbn in E. lia.
    + apply parse_exp_none. exact Hexp.
  - destruct ((-6 <? n)%Z && (n <=? 0)%Z) eqn:Hb.
    + apply andb_prop in Hb as [Hb1 Hb2]. apply Z.ltb_lt in Hb1. apply Z.leb_le in Hb2.
      replace (((if neg then [45] else []) ++ 48 :: 46 :: zeros (Z.to_nat (- n)) ++ ds) ++ rest)
        with ((if neg then [45] else []) ++ [48] ++ 46 :: (zeros (Z.to_nat (- n)) ++ ds) ++ rest)
        by (destruct neg; cbn [app]; rewrite <- ?app_assoc; reflexivity).
      rewrite (parse_number_parts neg [48] (46 :: (zeros (Z.to_nat (- n)) ++ ds) ++ rest)
                 (zeros (Z.to_nat (- n)) ++ ds) rest 0%Z rest).
      * change ([48] ++ zeros (Z.to_nat (- n)) ++ ds) with (zeros (S (Z.to_nat (- n))) ++ ds).
        rewrite digits_value_zeros, Hv, length_app. unfold zeros. rewrite repeat_length.
        do 3 f_equal. unfold k. lia.
      * left. reflexivity.
      * reflexivity.
      * apply parse_frac_some; [| | exact Hnd].
        -- destruct ds; [contradiction|]. destruct (zeros _); discriminate.
        -- apply Forall_app. split; [apply zeros_digits | exact Hd].
      * apply parse_exp_none. exact Hexp.
    + destruct ds as [|d ds']; [contradiction|].
      pose proof Hd as Hdc. apply Forall_cons_iff in Hdc as [Hd1 Hds'].
      destruct ds' as [|d2 ds''].
      * replace (((if neg then [45] else []) ++ d :: exp_text (n - 1)) ++ rest)
          with ((if neg then [45] else []) ++ [d] ++ exp_text (n - 1) ++ rest)
          by (destruct neg; cbn [app]; rewrite <- ?app_assoc; reflexivity).
        rewrite (parse_number_parts neg [d] (exp_text (n - 1) ++ rest) []
                   (exp_text (n - 1) ++ rest) (n - 1)%Z rest).
        -- rewrite app_nil_r, Hv. do 3 f_equal. unfold k. cbn. lia.
        -- right. split; [exact Hd|]. split; [exact Hh' | discriminate].
        -- reflexivity.
        -- apply parse_frac_none. discriminate.
        -- apply parse_exp_text. exact Hnd.
      * replace (((if neg then [45] else []) ++ d :: 46 :: (d2 :: ds'') ++ exp_text (n - 1)) ++ rest)
          with ((if neg then [45] else []) ++ [d] ++ 46 :: (d2 :: ds'') ++ exp_text (n - 1) ++ rest)
          by (destruct neg; cbn [app]; rewrite <- ?app_assoc; reflexivity).
        rewrite (parse_number_parts neg [d] (46 :: (d2 :: ds'') ++ exp_text (n - 1) ++ rest)
                   (d2 :: ds'') (exp_text (n - 1) ++ rest) (n - 1)%Z rest).
        -- change ([d] ++ d2 :: ds'') with (d :: d2 :: ds''). rewrite Hv. do 3 f_equal.
           unfold k. cbn [List.length]. lia.
        -- right. split; [constructor; [exact Hd1 | constructor]|]. split; [exact Hh' | discriminate].
        -- reflexivity.
        -- apply parse_frac_some; [discriminate | exact Hds' |].
           unfold exp_text. reflexivity.
        -- apply parse_exp_text. exact Hnd.
Qed.

(** The code units of a number's text. *)
Definition num_char (c : N) : bool :=
  (c =? 43) || (c =? 45) || (c =? 46) || (c =? 101) || is_digit c.

Lemma num_char_cases : forall c, num_char c = true ->
  In c [43; 45; 46; 101; 48; 49; 50; 51; 52; 53; 54; 55; 56; 57].
Proof.
  intros c Hc. unfold num_char in Hc.
  repeat (apply orb_prop in Hc as [Hc | Hc]); try (apply N.eqb_eq in Hc; subst c; simpl; tauto).
  apply digit_cases in Hc. simpl in Hc |- *. tauto.
Qed.

Lemma digits_num : forall ds, Forall (fun d => is_digit d = true) ds -> Forall (fun c => num_char c = true) ds.
Proof.
  intros ds H. refine (Forall_impl _ _ H). intros d Hd. unfold num_char. rewrite Hd. apply orb_true_r.
Qed.

Lemma exp_text_num : forall e, Forall (fun c => num_char c = true) (exp_text e).
Proof.
  intro e. unfold exp_text. constructor; [reflexivity|].
  constructor; [destruct (e <? 0)%Z; reflexivity|].
  destruct (n_digits_spec (Z.to_N (Z.abs e))) as [ds [-> [_ [Hd _]]]]. apply digits_num. exact Hd.
Qed.

Lemma dec_text_num : forall neg s n, Forall (fun c => num_char c = true) (dec_text neg s n).
Proof.
  intros neg s n. unfold dec_text. destruct (s =? 0); [repeat constructor|].
  destruct (n_digits_spec s) as [ds [-> [_ [Hd _]]]].
  pose proof (digits_num ds Hd) as Hn.
  destruct (Forall_firstn_skipn _ (Z.to_nat n) ds Hn) as [Hf Hs].
  apply Forall_app. split; [destruct neg; repeat constructor|]. cbv zeta.
  destruct (_ && _)%Z; [apply Forall_app; split; [exact Hn | apply digits_num, zeros_digits]|].
  destruct (_ && _)%Z; [apply Forall_app; split; [exact Hf | constructor; [reflexivity | exact Hs]]|].
  destruct (_ && _)%Z.
  - constructor; [reflexivity|]. constructor; [reflexivity|].
    apply Forall_app. split; [apply digits_num, zeros_digits | exact Hn].
  - destruct ds as [|d [|d2 ds']]; [apply exp_text_num | |].
    + inversion Hn; subst. constructor; [assumption | apply exp_text_num].
    + inversion Hn as [|? ? Hd1 Hn']; subst. constructor; [exact Hd1|].
      constructor; [reflexivity|]. apply Forall_app. split; [exact Hn' | apply exp_text_num].
Qed.

Lemma int_text_num : forall z, Forall (fun c => num_char c = true) (int_text z).
Proof.
  intro z. unfold int_text. destruct (Z.abs z <? 10 ^ 21)%Z.
  - apply Forall_forall. intros c Hc. destruct (z_text_units z c Hc) as [-> | Hd]; [reflexivity|].
    unfold num_char. rewrite Hd. apply orb_true_r.
  - destruct (strip_zeros _ _ _). apply dec_text_num.
Qed.

Lemma dec_text_head : forall neg s n,
  exists c t, dec_text neg s n = c :: t /\ (c = 45 \/ is_digit c = true).
Proof.
  intros neg s n. unfold dec_text. destruct (s =? 0); [eexists _, _; split; [reflexivity | right; reflexivity]|].
  destruct neg; [eexists _, _; split; [reflexivity | left; reflexivity]|].
  cbn [app]. destruct (n_digits_spec s) as [ds [-> [Hne [Hd _]]]].
  destruct ds as [|d ds']; [contradiction|]. inversion Hd as [|? ? Hd1 _]; subst. cbv zeta.
  destruct ((Z.of_nat (List.length (d :: ds')) <=? n)%Z && (n <=? 21)%Z);
    [eexists _, _; split; [reflexivity | right; exact Hd1]|].
  destruct ((0 <? n)%Z && (n <=? 21)%Z) eqn:E2.
  - apply andb_prop in E2 as [E2 _]. apply Z.ltb_lt in E2.
    destruct (Z.to_nat n) as [|m] eqn:Em; [lia|].
    eexists _, _. split; [reflexivity | right; exact Hd1].
  - destruct ((-6 <? n)%Z && (n <=? 0)%Z); [eexists _, _; split; [reflexivity | right; reflexivity]|].
    destruct ds' as [|d2 ds'']; eexists _, _; (split; [reflexivity | right; exact Hd1]).
Qed.

Lemma int_text_head : forall z,
  exists c t, int_text z = c :: t /\ (c = 45 \/ is_digit c = true).
Proof.
  intro z. unfold int_text. destruct (Z.abs z <? 10 ^ 21)%Z.
  - destruct (z_text z) as [|c t] eqn:E.
    + exfalso. unfold z_text in E. destruct (z <? 0)%Z; [discriminate|].
      destruct (n_digits_spec (Z.to_N z)) as [ds [Hds [Hne _]]]. congruence.
    + exists c, t. split; [reflexivity|]. apply (z_text_units z). rewrite E. left. reflexivity.
  - destruct (strip_zeros _ _ _). apply dec_text_head.
Qed.


(** ** The escaper on JSON texts *)

(** A replacement pass that cannot match inside the punctuation, literals
    and numbers of a JSON text, nor across its punctuation. *)
Definition pass_ok (eq : N -> N -> bool) (pat : jstr) : bool :=
  negb (match pat with [] => true | _ => false end)
  && forallb (noncont eq pat) [34; 91; 123; 44; 58]
  && forallb (nonfollow eq pat) [34; 93; 125; 44; 58]
  && forallb (no_match eq pat) [u "null"; u "true"; u "false"; [34]; [91]; [93]; [123]; [125]; [44]; [58]]
  && forallb (fun c => negb (eq (hd 0 pat) c)) [43; 45; 46; 101; 48; 49; 50; 51; 52; 53; 54; 55; 56; 57].

Section Pass.
Variable eq : N -> N -> bool.
Variable pat repl : jstr.
Hypothesis Hok : pass_ok eq pat = true.

Let R := replace_all eq pat repl.

Lemma pass_facts :
  pat <> []
  /\ (forall c, In c [34; 91; 123; 44; 58] -> noncont eq pat c = true)
  /\ (forall c, In c [34; 93; 125; 44; 58] -> nonfollow eq pat c = true)
  /\ (forall t, In t [u "null"; u "true"; u "false"; [34]; [91]; [93]; [123]; [125]; [44]; [58]]
        -> no_match eq pat t = true)
  /\ (forall c, In c [43; 45; 46; 101; 48; 49; 50; 51; 52; 53; 54; 55; 56; 57] -> eq (hd 0 pat) c = false).
Proof.
  unfold pass_ok in Hok. repeat (apply andb_prop in Hok as [Hok ?]).
  repeat split.
  - destruct pat; [discriminate|]. discriminate.
  - rewrite forallb_forall in *. auto.
  - rewrite forallb_forall in *. auto.
  - rewrite forallb_forall in *. auto.
  - intros c Hc. rewrite forallb_forall in *. apply negb_true_iff. auto.
Qed.

Lemma R_single : forall c, In c [34; 91; 93; 123; 125; 44; 58] -> R [c] = [c].
Proof.
  intros c Hc. apply replace_no_match. destruct pass_facts as [_ [_ [_ [Hm _]]]].
  apply Hm. simpl in Hc |- *. intuition (subst; auto 20).
Qed.

Lemma R_cons : forall c y, In c [34; 91; 123; 44; 58] -> R (c :: y) = c :: R y.
Proof.
  intros c y Hc. change (c :: y) with ([c] ++ y). unfold R. rewrite replace_app.
  - fold R. rewrite R_single; [reflexivity|]. simpl in Hc |- *. intuition.
  - left. destruct pass_facts as [_ [Hnc _]]. apply Hnc. exact Hc.
Qed.

Lemma R_snoc : forall x c, In c [34; 93; 125; 44; 58] -> R (x ++ [c]) = R x ++ [c].
Proof.
  intros x c Hc. unfold R. rewrite replace_app.
  - fold R. rewrite R_single; [reflexivity|]. simpl in Hc |- *. intuition.
  - right. destruct pass_facts as [_ [_ [Hnf _]]]. apply Hnf. exact Hc.
Qed.

Lemma R_mid : forall x c y, In c [34; 44; 58] -> R (x ++ c :: y) = R x ++ c :: R y.
Proof.
  intros x c y Hc. unfold R. rewrite replace_app.
  - fold R. rewrite R_cons; [reflexivity|]. simpl in Hc |- *. intuition.
  - right. destruct pass_facts as [_ [_ [Hnf _]]]. apply Hnf. simpl in Hc |- *. intuition.
Qed.

Lemma R_join : forall (A : Type) (xs : list A) (g f : A -> jstr),
  (forall x, In x xs -> R (g x) = f x) ->
  R (join_commas (map g xs)) = join_commas (map f xs).
Proof.
  intros A. induction xs as [|x xs IH]; intros g f Hf; [reflexivity|].
  destruct xs as [|y xs].
  - simpl. apply Hf. left. reflexivity.
  - change (join_commas (map g (x :: y :: xs))) with (g x ++ 44 :: join_commas (map g (y :: xs))).
    change (join_commas (map f (x :: y :: xs))) with (f x ++ 44 :: join_commas (map f (y :: xs))).
    rewrite R_mid by (simpl; auto). rewrite Hf by (left; reflexivity).
    rewrite (IH g f); [reflexivity|]. intros z Hz. apply Hf. right. exact Hz.
Qed.

Lemma pass_tt : forall v, json_safe v = true ->
  forall qb, R (tt qb v) = tt (fun s => R (qb s)) v.
Proof.
  destruct pass_facts as [Hne [_ [_ [Hm Hhd]]]].
  induction v as [v Hv|es IHes|ps IHps] using jsval_ind'; intros Hs qb.
  - destruct v as [| |[]|z|ng m x|z|s|d|t|es|ps|s fl|l]; try discriminate Hv; try discriminate Hs.
    + apply replace_no_match, Hm. simpl; auto.
    + apply replace_no_match, Hm. simpl; auto.
    + apply replace_no_match, Hm. simpl; auto.
    + apply replace_no_match, no_match_head; [exact Hne|]. intros c Hc.
      apply Hhd, num_char_cases. pose proof (int_text_num z) as Hn.
      rewrite Forall_forall in Hn. apply Hn. exact Hc.
    + apply replace_no_match, no_match_head; [exact Hne|]. intros c Hc.
      apply Hhd, num_char_cases. pose proof (dec_text_num ng m x) as Hn.
      rewrite Forall_forall in Hn. apply Hn. exact Hc.
    + cbn [tt]. rewrite R_cons by (simpl; auto). rewrite R_snoc by (simpl; auto). reflexivity.
  - cbn [tt]. rewrite R_cons by (simpl; auto). rewrite R_snoc by (simpl; auto 10).
    rewrite (R_join _ es (tt qb) (tt (fun s => R (qb s)))); [reflexivity|].
    intros e He.
    rewrite Forall_forall in IHes. apply IHes; [exact He|].
    simpl in Hs. rewrite forallb_forall in Hs. apply Hs. exact He.
  - cbn [tt]. rewrite R_cons by (simpl; auto). rewrite R_snoc by (simpl; auto 10).
    rewrite (R_join _ ps _ (fun kv => (34 :: R (qb (fst kv)) ++ [34]) ++ 58 :: tt (fun s => R (qb s)) (snd kv)));
      [reflexivity|].
    intros kv Hkv.
    simpl in Hs. apply andb_prop in Hs as [_ Hs]. rewrite forallb_forall in Hs.
    specialize (Hs kv Hkv). apply andb_prop in Hs as [_ Hs].
    rewrite R_mid by (simpl; auto). rewrite R_cons by (simpl; auto). rewrite R_snoc by (simpl; auto).
    rewrite Forall_forall in IHps. rewrite IHps by assumption. reflexivity.
Qed.

End Pass.

Lemma escape_tt : forall v, json_safe v = true ->
  forall qb, escape_text (tt qb v) = tt (fun s => escape_text (qb s)) v.
Proof.
  intros v Hv qb. unfold escape_text.
  rewrite (pass_tt N.eqb [92] [92; 92] eq_refl v Hv).
  rewrite (pass_tt N.eqb [96] [92; 96] eq_refl v Hv).
  rewrite (pass_tt N.eqb (u "${") (u "\${") eq_refl v Hv).
  rewrite (pass_tt ci_eq (u "</script>") (u "<\/script>") eq_refl v Hv).
  rewrite (pass_tt N.eqb (u "<!--") (u "<\!--") eq_refl v Hv).
  rewrite (pass_tt N.eqb [8232] (u "\u2028") eq_refl v Hv).
  rewrite (pass_tt N.eqb [8233] (u "\u2029") eq_refl v Hv).
  reflexivity.
Qed.

Lemma tt_ext : forall v, json_safe v = true -> forall qb1 qb2,
  (forall s, safe_string s = true -> qb1 s = qb2 s) -> tt qb1 v = tt qb2 v.
Proof.
  induction v as [v Hv|es IHes|ps IHps] using jsval_ind'; intros Hs qb1 qb2 Hq.
  - destruct v as [| |[]|z|ng m x|z|s|d|t|es|ps|s fl|l]; try discriminate Hv; try discriminate Hs;
      try reflexivity.
    cbn [tt]. rewrite Hq by exact Hs. reflexivity.
  - cbn [tt]. f_equal. f_equal. f_equal. apply map_ext_in. intros e He.
    rewrite Forall_forall in IHes. apply IHes; [exact He | | exact Hq].
    simpl in Hs. rewrite forallb_forall in Hs. apply Hs. exact He.
  - cbn [tt]. f_equal. f_equal. f_equal. apply map_ext_in. intros kv Hkv.
    simpl in Hs. apply andb_prop in Hs as [_ Hs]. rewrite forallb_forall in Hs.
    specialize (Hs kv Hkv). apply andb_prop in Hs as [Hk Hs].
    rewrite Forall_forall in IHps. rewrite Hq by exact Hk. rewrite (IHps kv Hkv Hs qb1 qb2 Hq).
    reflexivity.
Qed.

Lemma array_parts_ok : forall (es : list jsval) (t : jsval -> jstr),
  array_parts (map (fun e => Some (SOk (t e))) es) = Parts (map t es).
Proof. intros es t. induction es as [|e es IH]; [reflexivity|]. simpl. rewrite IH. reflexivity. Qed.

Lemma object_parts_ok : forall (ps : list (jstr * jsval)) (t : jsval -> jstr),
  object_parts (map (fun kv => (fst kv, Some (SOk (t (snd kv))))) ps)
  = Parts (map (fun kv => quote (fst kv) ++ 58 :: t (snd kv)) ps).
Proof.
  intros ps t. induction ps as [|[k e] ps IH]; [reflexivity|]. simpl. rewrite IH. reflexivity.
Qed.

Lemma ser_safe : forall v, json_safe v = true ->
  forall fuel H stack, ser fuel H stack v = Some (SOk (tt quote_units v)).
Proof.
  induction v as [v Hv|es IHes|ps IHps] using jsval_ind'; intros Hs fuel H stack.
  - destruct v as [| |[]|z|ng m x|z|s|d|t|es|ps|s fl|l]; try discriminate Hv; try discriminate Hs;
      destruct fuel; reflexivity.
  - rewrite ser_arr.
    rewrite (map_ext_in _ (fun e => Some (SOk (tt quote_units e)))).
    + rewrite array_parts_ok. reflexivity.
    + intros e He. rewrite Forall_forall in IHes. apply IHes; [exact He|].
      simpl in Hs. rewrite forallb_forall in Hs. apply Hs. exact He.
  - rewrite ser_obj.
    rewrite (map_ext_in _ (fun kv => (fst kv, Some (SOk (tt quote_units (snd kv)))))).
    + rewrite object_parts_ok. reflexivity.
    + intros kv Hkv. simpl in Hs. apply andb_prop in Hs as [_ Hs]. rewrite forallb_forall in Hs.
      specialize (Hs kv Hkv). apply andb_prop in Hs as [_ Hs].
      rewrite Forall_forall in IHps. rewrite (IHps kv Hkv Hs). reflexivity.
Qed.

(** The escaper's output on a JSON-safe value. *)
Lemma escape_safe_text : forall H v, json_safe v = true ->
  escapeForServiceWorker H v = tt esc_units v.
Proof.
  intros H v Hs.
  assert (Hstr : stringify H v = Some (Some (tt quote_units v)))
    by (unfold stringify; rewrite ser_safe by exact Hs; reflexivity).
  assert (Hesc : escapeForServiceWorker H v = escape_text (tt quote_units v))
    by (destruct v; try discriminate Hs; unfold escapeForServiceWorker; rewrite Hstr; reflexivity).
  rewrite Hesc, escape_tt by exact Hs. apply tt_ext; [exact Hs|]. apply escape_text_safe.
Qed.

(** ** Reading the text back *)

Lemma skip_ws_nows : forall c t, is_json_ws c = false -> skip_ws (c :: t) = c :: t.
Proof. intros c t Hc. unfold skip_ws. simpl. rewrite Hc. reflexivity. Qed.

Lemma skip_ws_rest : forall rest, rest_ok rest -> skip_ws rest = rest.
Proof. intros [|c r] Hr; [reflexivity|]. destruct Hr as [-> | [-> | ->]]; reflexivity. Qed.

Lemma tt_head : forall v qb, json_safe v = true ->
  exists c t, tt qb v = c :: t /\ is_json_ws c = false /\ c <> 93 /\ c <> 125.
Proof.
  intros v qb Hs.
  destruct v as [| |[]|z|ng m x|z|s|d|t|es|ps|s fl|l]; try discriminate Hs;
    try (eexists; eexists; split; [reflexivity | split; [reflexivity | split; discriminate]]).
  all: match goal with
       | |- exists c t, tt _ (JNum ?z) = _ /\ _ => destruct (int_text_head z) as [c [t [Ez Hc]]]
       | |- exists c t, tt _ (JNumDec ?a ?b ?e) = _ /\ _ =>
           destruct (dec_text_head a b e) as [c [t [Ez Hc]]]
       end.
  all: exists c, t; cbn [tt]; rewrite Ez; split; [reflexivity|].
  all: destruct Hc as [->|Hd]; [split; [reflexivity | split; discriminate]|].
  all: apply digit_range in Hd; unfold is_json_ws; repeat split;
    [repeat rewrite (proj2 (N.eqb_neq c _)) by lia; reflexivity | lia | lia].
Qed.

Lemma skip_ws_tt : forall v qb r, json_safe v = true -> skip_ws (tt qb v ++ r) = tt qb v ++ r.
Proof.
  intros v qb r Hs. destruct (tt_head v qb Hs) as [c [t [-> [Hc _]]]].
  apply skip_ws_nows. exact Hc.
Qed.

Lemma join_head : forall (A : Type) (x : A) xs (g : A -> jstr) c t,
  g x = c :: t -> exists t', join_commas (map g (x :: xs)) = c :: t'.
Proof.
  intros A x xs g c t Hg. destruct xs as [|y xs].
  - exists t. simpl. exact Hg.
  - exists (t ++ 44 :: join_commas (map g (y :: xs))).
    change (join_commas (map g (x :: y :: xs))) with (g x ++ 44 :: join_commas (map g (y :: xs))).
    rewrite Hg. reflexivity.
Qed.

Lemma obj_set_new : forall acc k v, ~ In k (map fst acc) -> obj_set acc k v = acc ++ [(k, v)].
Proof.
  induction acc as [|[k' v'] acc IH]; intros k v Hk; [reflexivity|].
  simpl in Hk |- *. destruct (jstr_eqb k k') eqn:E.
  - apply jstr_eqb_eq in E. subst. exfalso. apply Hk. left. reflexivity.
  - rewrite IH; [reflexivity|]. intro Hin. apply Hk. right. exact Hin.
Qed.

Lemma keys_distinct_app : forall l1 k l2, keys_distinct (l1 ++ k :: l2) = true -> ~ In k l1.
Proof.
  induction l1 as [|k1 l1 IH]; intros k l2 Hd Hin; [destruct Hin|].
  simpl in Hd. apply andb_prop in Hd as [Hn Hd]. destruct Hin as [<-|Hin].
  - apply negb_true_iff in Hn. rewrite existsb_app in Hn. simpl in Hn.
    rewrite jstr_eqb_refl, orb_true_r in Hn. discriminate.
  - exact (IH k l2 Hd Hin).
Qed.

Definition parses (v : jsval) : Prop :=
  json_safe v = true -> forall fuel rest, (2 * List.length (tt esc_units v) < fuel)%nat ->
  rest_ok rest -> parse_value fuel (tt esc_units v ++ rest) = Some (v, rest).

Lemma parse_elements_tt : forall es, Forall parses es -> forallb json_safe es = true -> es <> [] ->
  forall fuel acc rest,
  (2 * List.length (join_commas (map (tt esc_units) es)) + 1 < fuel)%nat ->
  parse_elements fuel acc (join_commas (map (tt esc_units) es) ++ 93 :: rest)
  = Some (JArray (acc ++ es), rest).
Proof.
  induction es as [|e es IH]; intros Hp Hs Hne fuel acc rest Hf; [contradiction|].
  destruct fuel as [|f]; [lia|].
  inversion Hp as [|? ? He Hes]; subst. simpl in Hs. apply andb_prop in Hs as [Hse Hss].
  destruct es as [|e' es'].
  - simpl in Hf |- *. rewrite He; [| exact Hse | lia | right; left; reflexivity].
    reflexivity.
  - change (join_commas (map (tt esc_units) (e :: e' :: es')))
      with (tt esc_units e ++ 44 :: join_commas (map (tt esc_units) (e' :: es'))) in Hf |- *.
    rewrite length_app in Hf. cbn [List.length] in Hf.
    rewrite <- app_assoc, <- app_comm_cons. cbn [parse_elements].
    rewrite He; [| exact Hse | lia | left; reflexivity].
    rewrite skip_ws_nows by reflexivity. cbn [N.eqb Pos.eqb].
    simpl in Hss. apply andb_prop in Hss as [Hse' Hss'].
    destruct (tt_head e' esc_units Hse') as [c [t [Ht [Hc _]]]].
    destruct (join_head _ e' es' (tt esc_units) c t Ht) as [t' Hj].
    rewrite Hj. change ((c :: t') ++ 93 :: rest) with (c :: (t' ++ 93 :: rest)).
    rewrite skip_ws_nows by exact Hc.
    change (c :: (t' ++ 93 :: rest)) with ((c :: t') ++ 93 :: rest). rewrite <- Hj.
    rewrite IH; [rewrite <- app_assoc; reflexivity | exact Hes | simpl; rewrite Hse'; exact Hss'
                | discriminate | lia].
Qed.

Definition member_text (kv : jstr * jsval) : jstr :=
  (34 :: esc_units (fst kv) ++ [34]) ++ 58 :: tt esc_units (snd kv).

Lemma safe_string_units : forall s, safe_string s = true ->
  forall c, In c s -> 32 <= c /\ c <> 34 /\ c <> 92.
Proof.
  intros s Hs. unfold safe_string in Hs. repeat (apply andb_prop in Hs as [Hs _]).
  exact (plain_go_units s false Hs).
Qed.

Lemma member_text_eq : forall k v X,
  member_text (k, v) ++ X = 34 :: esc_units k ++ 34 :: 58 :: (tt esc_units v ++ X).
Proof. intros k v X. unfold member_text. simpl. rewrite <- !app_assoc. reflexivity. Qed.

Lemma parse_members_tt : forall ps, Forall (fun kv => parses (snd kv)) ps ->
  forallb (fun kv => safe_string (fst kv) && json_safe (snd kv)) ps = true -> ps <> [] ->
  forall fuel acc rest, keys_distinct (map fst (acc ++ ps)) = true ->
  (2 * List.length (join_commas (map member_text ps)) + 1 < fuel)%nat ->
  parse_members fuel acc (join_commas (map member_text ps) ++ 125 :: rest)
  = Some (JObject (acc ++ ps), rest).
Proof.
  induction ps as [|[k v] ps IH]; intros Hp Hs Hne fuel acc rest Hd Hf; [contradiction|].
  destruct fuel as [|f]; [lia|].
  inversion Hp as [|? ? Hv Hps]; subst. simpl in Hv, Hs.
  apply andb_prop in Hs as [Hkv Hss]. apply andb_prop in Hkv as [Hk Hsv].
  assert (Hnin : ~ In k (map fst acc)).
  { rewrite map_app in Hd. exact (keys_distinct_app _ k _ Hd). }
  assert (Hlm : List.length (member_text (k, v))
                = (3 + List.length (esc_units k) + List.length (tt esc_units v))%nat).
  { unfold member_text. simpl. rewrite !length_app. simpl. lia. }
  destruct ps as [|kv' ps'].
  - change (join_commas (map member_text [(k, v)])) with (member_text (k, v)) in Hf |- *.
    rewrite member_text_eq. cbn [parse_members]. rewrite N.eqb_refl.
    rewrite parse_string_body_esc by (apply safe_string_units; exact Hk).
    rewrite skip_ws_nows by reflexivity. rewrite N.eqb_refl.
    rewrite skip_ws_tt by exact Hsv.
    rewrite Hv; [| exact Hsv | lia | right; right; reflexivity].
    rewrite skip_ws_nows by reflexivity. cbn [N.eqb Pos.eqb].
    rewrite obj_set_new by exact Hnin. reflexivity.
  - change (join_commas (map member_text ((k, v) :: kv' :: ps')))
      with (member_text (k, v) ++ 44 :: join_commas (map member_text (kv' :: ps'))) in Hf |- *.
    rewrite length_app in Hf. cbn [List.length] in Hf.
    rewrite <- app_assoc, <- app_comm_cons, member_text_eq.
    cbn [parse_members]. rewrite N.eqb_refl.
    rewrite parse_string_body_esc by (apply safe_string_units; exact Hk).
    rewrite skip_ws_nows by reflexivity. rewrite N.eqb_refl.
    rewrite skip_ws_tt by exact Hsv.
    rewrite Hv; [| exact Hsv | lia | left; reflexivity].
    rewrite skip_ws_nows by reflexivity. rewrite N.eqb_refl.
    destruct kv' as [k' v'].
    destruct (join_head _ (k', v') ps' member_text 34 _ eq_refl) as [t' Hj].
    rewrite Hj. change ((34 :: t') ++ 125 :: rest) with (34 :: (t' ++ 125 :: rest)).
    rewrite skip_ws_nows by reflexivity.
    change (34 :: (t' ++ 125 :: rest)) with ((34 :: t') ++ 125 :: rest). rewrite <- Hj.
    rewrite obj_set_new by exact Hnin.
    rewrite IH; [rewrite <- app_assoc; reflexivity | exact Hps | exact Hss | discriminate
                | rewrite <- app_assoc; exact Hd | lia].
Qed.

Lemma parse_value_string : forall f tl,
  parse_value (S f) (34 :: tl)
  = match parse_string_body tl with Some (b, r) => Some (JString b, r) | None => None end.
Proof. reflexivity. Qed.

Lemma parse_value_array : forall f tl,
  parse_value (S f) (91 :: tl)
  = match skip_ws tl with
    | d :: r => if d =? 93 then Some (JArray [], r) else parse_elements f [] (skip_ws tl)
    | [] => None
    end.
Proof. reflexivity. Qed.

Lemma parse_value_object : forall f tl,
  parse_value (S f) (123 :: tl)
  = match skip_ws tl with
    | d :: r => if d =? 125 then Some (JObject [], r) else parse_members f [] (skip_ws tl)
    | [] => None
    end.
Proof. reflexivity. Qed.

Lemma parse_value_number : forall f c tl, c = 45 \/ is_digit c = true ->
  parse_value (S f) (c :: tl) = parse_number (c :: tl).
Proof.
  intros f c tl Hc. cbn [parse_value].
  assert (Hr : 45 <= c <= 57).
  { destruct Hc as [->|Hd]; [lia|]. unfold is_digit in Hd. apply andb_prop in Hd as [H1 H2].
    apply N.leb_le in H1, H2. lia. }
  rewrite !(proj2 (N.eqb_neq c _)) by lia.
  assert (Hn : (c =? 45) || is_digit c = true)
    by (destruct Hc as [->|Hd]; [reflexivity | rewrite Hd, orb_true_r; reflexivity]).
  rewrite Hn. reflexivity.
Qed.

Lemma parse_tt : forall v, parses v.
Proof.
  induction v as [v Hv|es IHes|ps IHps] using jsval_ind'; intros Hs fuel rest Hf Hr;
    (destruct fuel as [|f]; [lia|]).
  - destruct v as [| |[]|z|ng m x|z|s|d|t|es|ps|s fl|l]; try discriminate Hv; try discriminate Hs;
      try reflexivity.
    + cbn [tt] in Hf |- *. destruct (int_text_head z) as [c [t [Ez Hc]]].
      rewrite Ez. cbn [app]. rewrite parse_value_number by exact Hc.
      change (c :: t ++ rest) with ((c :: t) ++ rest). rewrite <- Ez.
      apply parse_int_text; [apply Z.ltb_lt; exact Hs | exact Hr].
    + cbn [tt] in Hf |- *. destruct (dec_text_head ng m x) as [c [t [Ez Hc]]].
      rewrite Ez. cbn [app]. rewrite parse_value_number by exact Hc.
      change (c :: t ++ rest) with ((c :: t) ++ rest). rewrite <- Ez.
      apply parse_dec_text; [exact Hs | exact Hr].
    + cbn [tt] in Hf |- *. rewrite <- app_comm_cons, <- app_assoc. cbn [app].
      rewrite parse_value_string, parse_string_body_esc; [reflexivity|].
      apply safe_string_units. exact Hs.
  - destruct es as [|e es'].
    + reflexivity.
    + cbn [tt] in Hf |- *. rewrite <- app_comm_cons, <- app_assoc. cbn [app].
      rewrite parse_value_array.
      simpl in Hs. pose proof Hs as Hs0. apply andb_prop in Hs as [Hse _].
      destruct (tt_head e esc_units Hse) as [c [t [Ht [Hc [H93 _]]]]].
      destruct (join_head _ e es' (tt esc_units) c t Ht) as [t' Hj].
      rewrite Hj. change ((c :: t') ++ 93 :: rest) with (c :: (t' ++ 93 :: rest)).
      rewrite skip_ws_nows by exact Hc. rewrite (proj2 (N.eqb_neq c 93) H93).
      change (c :: (t' ++ 93 :: rest)) with ((c :: t') ++ 93 :: rest). rewrite <- Hj.
      rewrite parse_elements_tt; [reflexivity | exact IHes | exact Hs0 | discriminate |].
      cbn [List.length] in Hf. rewrite length_app in Hf. cbn [List.length] in Hf. lia.
  - destruct ps as [|[k v] ps'].
    + reflexivity.
    + cbn [tt] in Hf |- *.
      change (map (fun kv => (34 :: esc_units (fst kv) ++ [34]) ++ 58 :: tt esc_units (snd kv))
                ((k, v) :: ps')) with (map member_text ((k, v) :: ps')) in Hf |- *.
      rewrite <- app_comm_cons, <- app_assoc. cbn [app].
      rewrite parse_value_object.
      simpl in Hs. apply andb_prop in Hs as [Hd Hss].
      destruct (join_head _ (k, v) ps' member_text 34 _ eq_refl) as [t' Hj].
      rewrite Hj. change ((34 :: t') ++ 125 :: rest) with (34 :: (t' ++ 125 :: rest)).
      rewrite skip_ws_nows by reflexivity. cbn [N.eqb Pos.eqb].
      change (34 :: (t' ++ 125 :: rest)) with ((34 :: t') ++ 125 :: rest). rewrite <- Hj.
      rewrite (parse_members_tt _ IHps); [reflexivity | simpl; exact Hss | discriminate
                                          | simpl; exact Hd |].
      cbn [List.length] in Hf. rewrite length_app in Hf. cbn [List.length] in Hf. lia.
Qed.

Lemma JSON_parse_tt : forall v, json_safe v = true -> JSON_parse (tt esc_units v) = Some v.
Proof.
  intros v Hs. unfold JSON_parse.
  assert (Hw : skip_ws (tt esc_units v) = tt esc_units v).
  { destruct (tt_head v esc_units Hs) as [c [t [Ht [Hc _]]]]. rewrite Ht. apply skip_ws_nows. exact Hc. }
  rewrite Hw.
  assert (Hp := parse_tt v Hs (2 * List.length (tt esc_units v) + 2)%nat [] ltac:(lia) I).
  rewrite app_nil_r in Hp. rewrite Hp. reflexivity.
Qed.



Definition sample_value : jsval :=
  JObject [(u "k", JArray [JNum (-12); JNumDec false 5 0; JNumDec true 15 (-8); JNumDec false 1 22;
                           JNull; JBool true; JString [104; 105; 8232]]);
           (u "tag", JString (u "</script><p>"))].

Definition self_heap : heap := [HObject [(u "self", JRef 0)]].


End JsonFacts.

Module PathFacts.
Import PathGuard.

(** C3: [sanitizePath] is not idempotent.  On ["a /"] the [trim] step runs
    first and finds nothing to strip; the trailing slash is removed only at
    the end, which exposes a space that survives in the result ["a "].  A
    second application trims it, giving ["a"]. *)
Theorem sanitizePath_not_idempotent :
  sanitizePath (u "a /") = u "a "
  /\ sanitizePath (sanitizePath (u "a /")) = u "a"
  /\ sanitizePath (sanitizePath (u "a /")) <> sanitizePath (u "a /").
Proof.
  vm_compute. split; [reflexivity|split; [reflexivity|]]. intro Heq. discriminate Heq.
Qed.

End PathFacts.

Module ManifestFacts.
Import NodePath ManifestGen.

(** ** Candidates of the three phases *)

(** Where an entry's revision comes from. *)
Inductive rev_source :=
| RevNull
| RevFile (path : jstr)
| RevGiven (r : option jstr).

(** An entry before de-duplication: its final URL and its revision source. *)
Record candidate := { c_url : jstr; c_rev : rev_source }.

Fixpoint filter_map {A B : Type} (f : A -> option B) (l : list A) : list B :=
  match l with
  | [] => []
  | x :: l' => match f x with Some y => y :: filter_map f l' | None => filter_map f l' end
  end.

Section Candidates.
Variable o : ManifestGeneratorOptions.

(** basePath, then the first matching URL-prefix rewrite. *)
Definition with_base (url : jstr) : jstr :=
  applyURLPrefixModifications
    (if basePath_applies (basePath o) then basePath o ++ url else url) (modifyURLPrefix o).

Definition build_candidate (asset : jstr) : option candidate :=
  if is_empty (PathGuard.sanitizePath asset) && negb (is_empty asset) then None
  else if matchesExclusion asset (buildExcludes o) then None
  else
    let url := with_base (if starts_with (u "/") asset then asset else 47 :: asset) in
    Some {| c_url := url;
            c_rev := if needsRevision url then RevFile (join [buildDir o; strip_next asset])
                     else RevNull |}.

Definition public_candidate (file : jstr) : candidate :=
  {| c_url := with_base file; c_rev := RevFile (join [publicDir o; skipn 1 file]) |}.

Definition additional_candidate (entry : PrecacheEntry) : option candidate :=
  if is_empty (url entry) then None
  else if PathGuard.hasPathTraversal (url entry) then None
  else
    Some {| c_url := applyURLPrefixModifications
                       (if starts_with (u "/") (url entry) && basePath_applies (basePath o)
                        then basePath o ++ url entry else url entry)
                       (modifyURLPrefix o);
            c_rev := RevGiven (revision entry) |}.

End Candidates.

(** The value an enumeration step returns. *)
Definition value {A : Type} (default : A) (m : M A) : A :=
  match fst (m []) with Ok a => a | Err _ => default end.

(** All candidates in phase order: build assets, public files, extra entries. *)
Definition candidates (fs : FS) (o : ManifestGeneratorOptions) : list candidate :=
  let manifestAssets :=
    match value None (readBuildManifest fs (buildDir o)) with
    | Some m => extractAssetsFromManifest m
    | None => []
    end in
  let staticFiles := value [] (getStaticBuildFiles fs (buildDir o) (projectRoot o)) in
  let publicFiles := value [] (getPublicFiles fs (publicDir o) (projectRoot o) (publicExcludes o)) in
  filter_map (build_candidate o) (set_add_all [] (manifestAssets ++ staticFiles))
  ++ map (public_candidate o) publicFiles
  ++ filter_map (additional_candidate o) (additionalManifestEntries o).

(** The first candidate of each URL, given the URLs already [seen]. *)
Fixpoint first_from (seen : list jstr) (cs : list candidate) : list candidate :=
  match cs with
  | [] => []
  | c :: cs' =>
      if CacheStrategies.set_has seen (c_url c) then first_from seen cs'
      else c :: first_from (seen ++ [c_url c]) cs'
  end.

(** [h] is a revision [generateRevisionHash] can give for [path]. *)
Definition hash_of (fs : FS) (path : jstr) (h : jstr) : Prop :=
  match fs_read fs path with
  | Some bytes => h = md5_hex8 bytes
  | None => exists t, h = md5_hex8 (now_bytes t)
  end.

(** [e] is the entry made from candidate [c]. *)
Definition entry_of (fs : FS) (c : candidate) (e : PrecacheEntry) : Prop :=
  url e = c_url c
  /\ match c_rev c with
     | RevNull => revision e = None
     | RevGiven r => revision e = r
     | RevFile path => exists h, revision e = Some h /\ hash_of fs path h
     end.

(** [m] returns [a] whatever I/O came before, and only appends to the trace. *)
Definition pure_run {A : Type} (m : M A) (a : A) : Prop :=
  forall tr, exists tr', m tr = (Ok a, tr ++ tr').

(** One loop body: skips its item, or records the candidate's entry unless
    its URL was seen. *)
Definition step_spec {X : Type} (fs : FS) (step : X -> loop_state -> M loop_state)
  (cand : X -> option candidate) : Prop :=
  forall x st tr,
    match cand x with
    | None => step x st tr = (Ok st, tr)
    | Some c =>
        if CacheStrategies.set_has (seenUrls st) (c_url c) then step x st tr = (Ok st, tr)
        else exists e tr',
            step x st tr = (Ok (push_entry e (add_seen (c_url c) st)), tr') /\ entry_of fs c e
    end.

(** ** Scenarios *)

(** A build directory whose only asset is [static/chunks/abcdef1234.js], no
    build manifest, and a public directory holding [robots.txt]. *)
Definition scenario_fs (chunk robots : list Byte.byte) (clock : list event -> Z) : FS :=
  {| fs_exists := fun p => jstr_eqb p (u "/p/.next/static") || jstr_eqb p (u "/p/public");
     fs_read := fun p =>
       if jstr_eqb p (u "/p/.next/static/chunks/abcdef1234.js") then Some chunk
       else if jstr_eqb p (u "/p/public/robots.txt") then Some robots
       else None;
     fs_build_manifest := fun _ => None;
     fs_glob := fun cwd _ =>
       if jstr_eqb cwd (u "/p/.next/static") then Some [u "chunks/abcdef1234.js"]
       else if jstr_eqb cwd (u "/p/public") then Some [u "robots.txt"]
       else None;
     fs_clock := clock |}.

Definition scenario_options : ManifestGeneratorOptions :=
  {| buildDir := u "/p/.next"; publicDir := u "/p/public"; basePath := u "/app";
     publicExcludes := []; buildExcludes := []; additionalManifestEntries := [];
     modifyURLPrefix := []; projectRoot := u "/p" |}.

Definition scenario_result : outcome (list PrecacheEntry) :=
  fst (generatePrecacheManifest
         (scenario_fs (list_byte_of_string "abc") (list_byte_of_string "User-agent: *")
                      (fun _ => 0%Z))
         scenario_options []).

(** Options whose build directory lies outside the project root. *)
Definition outside_options : ManifestGeneratorOptions :=
  {| buildDir := u "/etc"; publicDir := u "/home/p/public"; basePath := [];
     publicExcludes := []; buildExcludes := []; additionalManifestEntries := [];
     modifyURLPrefix := []; projectRoot := u "/home/p" |}.

(** A run with repeated URLs in and across phases. *)
Definition dup_fs : FS :=
  {| fs_exists := fun _ => true;
     fs_read := fun p =>
       if jstr_eqb p (u "/p/public/robots.txt") then Some (list_byte_of_string "User-agent: *")
       else None;
     fs_build_manifest := fun _ =>
       Some {| polyfillFiles := Some [u "/_next/static/chunks/main.js"];
               devFiles := None; ampDevFiles := None; lowPriorityFiles := None;
               rootMainFiles := Some [u "/_next/static/chunks/main.js";
                                      u "/_next/static/css/site.3f9a1b2c.css"];
               pages := Some [(u "/", [u "/_next/static/chunks/pages/index-0123456789ab-x.js"])];
               ampFirstPages := None |};
     fs_glob := fun cwd _ =>
       if jstr_eqb cwd (u "/p/.next/static") then
         Some [u "chunks/main.js"; u "chunks/main.js.map"; u "robots.txt"]
       else if jstr_eqb cwd (u "/p/public") then Some [u "robots.txt"; u "icon.png"]
       else None;
     fs_clock := fun tr => Z.of_nat (List.length tr) |}.

Definition dup_options : ManifestGeneratorOptions :=
  {| buildDir := u "/p/.next"; publicDir := u "/p/public"; basePath := [];
     publicExcludes := []; buildExcludes := [ExclString (u "*.map")];
     additionalManifestEntries := [mkEntry (u "/icon.png") (Some (u "v1"));
                                   mkEntry (u "/offline.html") None;
                                   mkEntry (u "/offline.html") (Some (u "v2"));
                                   mkEntry (u "/../secret") None];
     modifyURLPrefix := [(u "/_next/static/robots.txt", u "/robots.txt")];
     projectRoot := u "/p" |}.

Definition dup_run := generatePrecacheManifest dup_fs dup_options [].

Definition dup_out : list PrecacheEntry :=
  match fst dup_run with Ok out => out | Err _ => [] end.

(** ** Lemmas *)

Lemma pure_ret {A : Type} (a : A) : pure_run (ret a) a.
Proof. intro tr. exists []. rewrite app_nil_r. reflexivity. Qed.

Lemma pure_bind {A B : Type} (m : M A) (k : A -> M B) (a : A) (b : B) :
  pure_run m a -> pure_run (k a) b -> pure_run (bind m k) b.
Proof.
  intros Hm Hk tr. destruct (Hm tr) as [t1 E1]. destruct (Hk (tr ++ t1)) as [t2 E2].
  exists (t1 ++ t2). unfold bind. rewrite E1, E2, app_assoc. reflexivity.
Qed.

Lemma pure_value {A : Type} (d : A) (m : M A) (a : A) : pure_run m a -> value d m = a.
Proof. intro H. unfold value. destruct (H []) as [t E]. rewrite E. reflexivity. Qed.

Lemma stat_pure fs p : pure_run (stat fs p) (fs_exists fs p).
Proof. intro tr. exists [EStat p]. reflexivity. Qed.

Lemma globby_pure fs d ig : pure_run (globby fs d ig) (fs_glob fs d ig).
Proof. intro tr. exists [EGlob d ig]. reflexivity. Qed.

Lemma readBuildManifest_pure fs d :
  pure_run (readBuildManifest fs d) (fs_build_manifest fs (join [d; u "build-manifest.json"])).
Proof. intro tr. eexists. reflexivity. Qed.

Lemma getStaticBuildFiles_pure fs d r : exists v, pure_run (getStaticBuildFiles fs d r) v.
Proof.
  unfold getStaticBuildFiles.
  destruct (fs_exists fs (join [d; u "static"])) eqn:E.
  - destruct (fs_glob fs (join [d; u "static"]) []) as [files|] eqn:G;
      eexists; (eapply pure_bind; [apply stat_pure|]); rewrite E; cbn [negb];
      (eapply pure_bind; [apply globby_pure|]); rewrite G; apply pure_ret.
  - exists []. eapply pure_bind; [apply stat_pure|]. rewrite E. apply pure_ret.
Qed.

Lemma getPublicFiles_pure fs d r ex : exists v, pure_run (getPublicFiles fs d r ex) v.
Proof.
  unfold getPublicFiles.
  destruct (fs_exists fs d) eqn:E.
  - destruct (isPathWithinProject d r) eqn:W.
    + destruct (fs_glob fs d ex) as [files|] eqn:G;
        eexists; (eapply pure_bind; [apply stat_pure|]); rewrite E; cbn [negb];
        (eapply pure_bind; [apply globby_pure|]); rewrite G; apply pure_ret.
    + exists []. eapply pure_bind; [apply stat_pure|]. rewrite E. apply pure_ret.
  - exists []. eapply pure_bind; [apply stat_pure|]. rewrite E. apply pure_ret.
Qed.

Lemma generateRevisionHash_spec fs p tr :
  exists h tr', generateRevisionHash fs p tr = (Ok h, tr') /\ hash_of fs p h.
Proof.
  unfold generateRevisionHash, hash_of, bind, readFile.
  destruct (fs_read fs p) as [bytes|].
  - do 2 eexists. split; reflexivity.
  - do 2 eexists. split; [reflexivity|]. eexists. reflexivity.
Qed.

Lemma build_step_spec fs o : step_spec fs (build_asset_step fs o) (build_candidate o).
Proof.
  intros asset st tr. unfold build_asset_step, build_candidate, with_base.
  destruct (is_empty (PathGuard.sanitizePath asset) && negb (is_empty asset)); [reflexivity|].
  destruct (matchesExclusion asset (buildExcludes o)); [reflexivity|].
  set (U := applyURLPrefixModifications _ (modifyURLPrefix o)).
  cbn [c_url c_rev].
  destruct (CacheStrategies.set_has (seenUrls st) U); [reflexivity|].
  unfold bind. destruct (needsRevision U).
  - destruct (generateRevisionHash_spec fs (join [buildDir o; strip_next asset])
                (tr)) as (h & t1 & E & Hh).
    rewrite E. do 2 eexists. split; [reflexivity|].
    split; [reflexivity|]. exists h. split; [reflexivity|exact Hh].
  - do 2 eexists. split; [reflexivity|]. split; reflexivity.
Qed.

Lemma public_step_spec fs o :
  step_spec fs (public_file_step fs o) (fun file => Some (public_candidate o file)).
Proof.
  intros file st tr. unfold public_file_step, public_candidate, with_base.
  cbn [c_url c_rev].
  destruct (CacheStrategies.set_has (seenUrls st) _); [reflexivity|].
  unfold bind.
  destruct (generateRevisionHash_spec fs (join [publicDir o; skipn 1 file]) tr)
    as (h & t1 & E & Hh).
  rewrite E. do 2 eexists. split; [reflexivity|].
  split; [reflexivity|]. exists h. split; [reflexivity|exact Hh].
Qed.

Lemma additional_step_spec fs o :
  step_spec fs (additional_entry_step o) (additional_candidate o).
Proof.
  intros entry st tr. unfold additional_entry_step, additional_candidate.
  destruct (is_empty (url entry)); [reflexivity|].
  destruct (PathGuard.hasPathTraversal (url entry)); [reflexivity|].
  cbn [c_url c_rev].
  destruct (CacheStrategies.set_has (seenUrls st) _); [reflexivity|].
  do 2 eexists. split; [reflexivity|]. split; reflexivity.
Qed.

Lemma for_each_spec {X : Type} fs (step : X -> loop_state -> M loop_state) cand :
  step_spec fs step cand ->
  forall xs st tr, exists new tr',
    for_each step xs st tr
      = (Ok {| entries := entries st ++ new; seenUrls := seenUrls st ++ map url new |}, tr')
    /\ Forall2 (entry_of fs) (first_from (seenUrls st) (filter_map cand xs)) new.
Proof.
  intros Hs xs. induction xs as [|x xs IH]; intros st tr.
  - exists [], tr. destruct st as [es ss]. cbn. rewrite !app_nil_r. split; constructor.
  - cbn [for_each filter_map]. unfold bind. specialize (Hs x st tr).
    destruct (cand x) as [c|].
    + destruct (CacheStrategies.set_has (seenUrls st) (c_url c)) eqn:Eh.
      * rewrite Hs. destruct (IH st tr) as (new & t2 & E2 & F2).
        exists new, t2. split; [exact E2|]. cbn [first_from]. rewrite Eh. exact F2.
      * destruct Hs as (e & t1 & E & He). rewrite E.
        destruct (IH (push_entry e (add_seen (c_url c) st)) t1) as (new & t2 & E2 & F2).
        exists (e :: new), t2. split.
        -- rewrite E2. cbn [push_entry add_seen entries seenUrls].
           destruct He as [Hu _]. rewrite <- !app_assoc. cbn [app map]. rewrite Hu.
           reflexivity.
        -- cbn [first_from]. rewrite Eh. constructor; [exact He|exact F2].
    + rewrite Hs. apply IH.
Qed.

Lemma first_from_app seen a b :
  first_from seen (a ++ b)
  = first_from seen a ++ first_from (seen ++ map c_url (first_from seen a)) b.
Proof.
  revert seen. induction a as [|c a IH]; intro seen.
  - cbn. rewrite app_nil_r. reflexivity.
  - cbn [app first_from].
    destruct (CacheStrategies.set_has seen (c_url c)); [apply IH|].
    rewrite IH. cbn [app map]. rewrite <- app_assoc. reflexivity.
Qed.

Lemma entry_of_urls fs cs es : Forall2 (entry_of fs) cs es -> map url es = map c_url cs.
Proof.
  induction 1 as [|c e cs es [Hu _] _ IH]; [reflexivity|].
  cbn. rewrite Hu, IH. reflexivity.
Qed.

Lemma filter_map_some {A B : Type} (f : A -> B) l :
  filter_map (fun x => Some (f x)) l = map f l.
Proof. induction l as [|x l IH]; cbn; [reflexivity|]. rewrite IH. reflexivity. Qed.

Lemma set_has_app s1 s2 x :
  CacheStrategies.set_has (s1 ++ s2) x
  = CacheStrategies.set_has s1 x || CacheStrategies.set_has s2 x.
Proof. unfold CacheStrategies.set_has. apply existsb_app. Qed.

Lemma first_from_nodup seen cs :
  NoDup (map c_url (first_from seen cs))
  /\ forall x, In x (map c_url (first_from seen cs)) -> CacheStrategies.set_has seen x = false.
Proof.
  revert seen. induction cs as [|c cs IH]; intro seen.
  - cbn. split; [constructor|]. intros x [].
  - cbn [first_from]. destruct (CacheStrategies.set_has seen (c_url c)) eqn:Eh; [apply IH|].
    destruct (IH (seen ++ [c_url c])) as [Hnd Hout].
    assert (Hout' : forall x, In x (map c_url (first_from (seen ++ [c_url c]) cs)) ->
                    CacheStrategies.set_has seen x = false /\ x <> c_url c).
    { intros x Hx. specialize (Hout x Hx). rewrite set_has_app in Hout.
      apply orb_false_iff in Hout as [H1 H2]. split; [exact H1|].
      intro Hxc. subst x. cbn in H2. rewrite jstr_eqb_refl in H2. discriminate. }
    cbn [map]. split.
    + constructor; [|exact Hnd]. intro Hin. destruct (Hout' _ Hin) as [_ Hne]. auto.
    + intros x [Hx | Hx]; [subst; exact Eh|]. apply (Hout' x Hx).
Qed.

(** ** Claims *)

(** C1: when [generatePrecacheManifest] succeeds, no two entries share a URL,
    and the entries are, in order, the first candidate of each final URL
    among the build assets, then the public files, then the extra entries:
    each has that candidate's URL and a revision from its source. *)
Theorem precache_urls_first_wins :
  forall fs o tr out tr',
    generatePrecacheManifest fs o tr = (Ok out, tr') ->
    NoDup (map url out)
    /\ Forall2 (entry_of fs) (first_from [] (candidates fs o)) out.
Proof.
  intros fs o tr out tr' Hrun.
  unfold generatePrecacheManifest in Hrun.
  destruct (isPathWithinProject (buildDir o) (projectRoot o));
    cbn [negb] in Hrun; [|discriminate Hrun].
  destruct (isPathWithinProject (publicDir o) (projectRoot o));
    cbn [negb] in Hrun; [|discriminate Hrun].
  destruct (getStaticBuildFiles_pure fs (buildDir o) (projectRoot o)) as [sv Hsv].
  destruct (getPublicFiles_pure fs (publicDir o) (projectRoot o) (publicExcludes o))
    as [pv Hpv].
  unfold bind in Hrun.
  destruct (readBuildManifest_pure fs (buildDir o) tr) as [t1 E1]. rewrite E1 in Hrun. cbv beta iota zeta in Hrun.
  destruct (Hsv (tr ++ t1)) as [t2 E2]. rewrite E2 in Hrun. cbv beta iota zeta in Hrun.
  set (bm := fs_build_manifest fs (join [buildDir o; u "build-manifest.json"])) in *.
  set (ma := match bm with Some m => extractAssetsFromManifest m | None => [] end) in *.
  destruct (for_each_spec fs _ _ (build_step_spec fs o) (set_add_all [] (ma ++ sv))
              {| entries := []; seenUrls := [] |} ((tr ++ t1) ++ t2))
    as (new1 & t3 & E3 & F3).
  rewrite E3 in Hrun. cbv beta iota zeta in Hrun.
  destruct (Hpv t3) as [t4 E4]. rewrite E4 in Hrun. cbv beta iota zeta in Hrun.
  match type of Hrun with
  | context [for_each (public_file_step fs o) pv ?st ?t] =>
      destruct (for_each_spec fs _ _ (public_step_spec fs o) pv st t) as (new2 & t5 & E5 & F5)
  end.
  rewrite E5 in Hrun. cbv beta iota zeta in Hrun.
  match type of Hrun with
  | context [for_each (additional_entry_step o) ?xs ?st ?t] =>
      destruct (for_each_spec fs _ _ (additional_step_spec fs o) xs st t)
        as (new3 & t6 & E6 & F6)
  end.
  rewrite E6 in Hrun. cbv beta iota zeta in Hrun.
  cbv [ret] in Hrun. injection Hrun as Hout _. subst out.
  cbn [entries seenUrls app] in *.
  unfold candidates.
  rewrite (pure_value None _ _ (readBuildManifest_pure fs (buildDir o))).
  rewrite (pure_value [] _ _ Hsv), (pure_value [] _ _ Hpv).
  fold bm. fold ma.
  rewrite <- (filter_map_some (public_candidate o)).
  assert (Hall : Forall2 (entry_of fs)
                   (first_from []
                      (filter_map (build_candidate o) (set_add_all [] (ma ++ sv))
                       ++ filter_map (fun file => Some (public_candidate o file)) pv
                       ++ filter_map (additional_candidate o) (additionalManifestEntries o)))
                   ((new1 ++ new2) ++ new3)).
  { rewrite first_from_app, first_from_app, <- (app_assoc new1 new2 new3).
    cbn [app]. rewrite <- (entry_of_urls _ _ _ F3).
    apply Forall2_app; [exact F3|].
    rewrite <- (entry_of_urls _ _ _ F5).
    apply Forall2_app; [exact F5|exact F6]. }
  split; [|exact Hall].
  rewrite (entry_of_urls _ _ _ Hall). apply first_from_nodup.
Qed.

(** C1 on a run where the build manifest and the static listing repeat an
    asset, a rewrite maps a build asset onto a public file's URL, and the
    extra entries repeat a public URL and each other. *)
Lemma precache_urls_first_wins_witness :
  dup_run = (Ok dup_out, snd dup_run)
  /\ NoDup (map url dup_out)
  /\ Forall2 (entry_of dup_fs) (first_from [] (candidates dup_fs dup_options)) dup_out.
Proof.
  assert (E : dup_run = (Ok dup_out, snd dup_run)) by (vm_compute; reflexivity).
  split; [exact E|]. exact (precache_urls_first_wins dup_fs dup_options [] dup_out _ E).
Defined.

(** C6 (counterexample): in the scenario, the chunk
    [/app/_next/static/chunks/abcdef1234.js] gets a content revision (the MD5
    prefix of its bytes), not [null]: [needsRevision] only treats a hex run
    as a content hash when a dot precedes it ([name.hash.ext]) or a dash
    follows it. *)
Lemma chunk_revision_not_null :
  scenario_result
    = Ok [mkEntry (u "/app/_next/static/chunks/abcdef1234.js") (Some (u "90015098"));
          mkEntry (u "/app/robots.txt") (Some (u "ca121b5d"))]
  /\ scenario_result
    <> Ok [mkEntry (u "/app/_next/static/chunks/abcdef1234.js") None;
           mkEntry (u "/app/robots.txt") (Some (u "ca121b5d"))].
Proof. vm_compute. split; [reflexivity | discriminate]. Qed.

(** C6 (amended): in the scenario, whatever the two files hold, the manifest is
    exactly the chunk with the first 8 hex digits of the MD5 of its bytes,
    then [/app/robots.txt] with those of its own bytes. *)
Theorem scenario_manifest :
  forall chunk robots clock,
    needsRevision (u "/app/_next/static/chunks/abcdef1234.js") = true
    /\ fst (generatePrecacheManifest (scenario_fs chunk robots clock) scenario_options [])
       = Ok [mkEntry (u "/app/_next/static/chunks/abcdef1234.js") (Some (md5_hex8 chunk));
             mkEntry (u "/app/robots.txt") (Some (md5_hex8 robots))].
Proof.
  intros chunk robots clock. split; [vm_compute; reflexivity|].
  cbv -[md5_hex8]. reflexivity.
Qed.

(** C9: when the build or the public directory fails the containment check,
    [generatePrecacheManifest] throws before any file-system access: the
    outcome is an error and the I/O trace is unchanged. *)
Theorem containment_violation_aborts :
  forall fs o tr,
    isPathWithinProject (buildDir o) (projectRoot o) = false
    \/ isPathWithinProject (publicDir o) (projectRoot o) = false ->
    exists message, generatePrecacheManifest fs o tr = (Err message, tr).
Proof.
  intros fs o tr [H | H]; unfold generatePrecacheManifest.
  - rewrite H. cbn [negb]. eexists. reflexivity.
  - destruct (isPathWithinProject (buildDir o) (projectRoot o)); cbn [negb];
      [rewrite H; cbn [negb]|]; eexists; reflexivity.
Qed.

(** C9 with the build directory [/etc] and the project root [/home/p]. *)
Lemma containment_violation_aborts_witness :
  isPathWithinProject (u "/etc") (u "/home/p") = false
  /\ exists message,
      generatePrecacheManifest (scenario_fs [] [] (fun _ => 0%Z)) outside_options []
      = (Err message, []).
Proof.
  split; [vm_compute; reflexivity|].
  apply containment_violation_aborts. left. vm_compute. reflexivity.
Defined.

End ManifestFacts.

Module SecurityFacts.
Import Js Security.

Lemma includes_single : forall s x, includes s [x] = existsb (N.eqb x) s.
Proof.
  induction s as [|c s IH]; intro x; [reflexivity|].
  cbn [includes existsb starts_with]. rewrite IH, andb_true_r. reflexivity.
Qed.

Lemma starts_with_app : forall p x, starts_with p (p ++ x) = true.
Proof. induction p as [|c p IH]; intro x; [reflexivity|]. cbn. rewrite N.eqb_refl. apply IH. Qed.

Lemma starts_with_nil_r : forall p, p <> [] -> starts_with p [] = false.
Proof. intros [|c p] H; [congruence|reflexivity]. Qed.

(** Appending the same unit to both sides of a prefix test. *)
Lemma starts_with_snoc : forall b s x,
  starts_with (b ++ [x]) (s ++ [x]) = jstr_eqb b s || starts_with (b ++ [x]) s.
Proof.
  induction b as [|p b IH]; intros s x.
  - destruct s as [|y s]; cbn.
    + rewrite N.eqb_refl. reflexivity.
    + rewrite !andb_true_r. reflexivity.
  - destruct s as [|y s]; cbn [app].
    + cbn [starts_with jstr_eqb orb].
      rewrite (starts_with_nil_r (b ++ [x])) by (destruct b; discriminate).
      rewrite andb_false_r. reflexivity.
    + cbn [starts_with jstr_eqb]. rewrite IH. rewrite andb_orb_distrib_r. reflexivity.
Qed.

Lemma jstr_eqb_sym : forall a b, jstr_eqb a b = jstr_eqb b a.
Proof.
  intros a b. destruct (jstr_eqb a b) eqn:E; symmetry.
  - apply jstr_eqb_eq in E. subst. apply jstr_eqb_refl.
  - destruct (jstr_eqb b a) eqn:E'; [|reflexivity].
    apply jstr_eqb_eq in E'. subst. rewrite jstr_eqb_refl in E. discriminate.
Qed.

(** The checks that come before the [basePath] test. *)
Definition scope_shape (s : jstr) : bool :=
  negb (NodePath.is_empty s) && starts_with (u "/") s && negb (includes s (u ".."))
  && negb (includes s [0]) && negb (includes s (u "?")) && negb (includes s (u "#"))
  && negb (includes s [92]).

Lemma validateScope_shape : forall s b,
  validateScope (JString s) b
  = scope_shape s
    && match b with
       | JUndefined => true
       | JString b =>
           starts_with (if ends_with (u "/") b then b else b ++ [47])
                       (if ends_with (u "/") s then s else s ++ [47])
       | _ => false
       end.
Proof.
  intros s b. unfold validateScope, scope_shape.
  destruct (NodePath.is_empty s), (starts_with (u "/") s), (includes s (u "..")),
    (includes s [0]), (includes s (u "?")), (includes s (u "#")), (includes s [92]);
    reflexivity.
Qed.

Lemma name_tail_spec : forall t,
  name_tail_test t = true <-> exists m, t = m ++ u ".js" /\ forallb is_name_char m = true.
Proof.
  induction t as [|c t IH]; split.
  - discriminate.
  - intros [m [E _]]. destruct m; discriminate.
  - cbn [name_tail_test]. intro H. apply orb_true_iff in H as [H | H].
    + apply jstr_eqb_eq in H. exists []. split; [exact H | reflexivity].
    + apply andb_prop in H as [Hc Ht]. apply IH in Ht as [m [E Hm]].
      exists (c :: m). split; [rewrite E; reflexivity|]. cbn. rewrite Hc. exact Hm.
  - intros [m [E Hm]]. cbn [name_tail_test]. apply orb_true_iff.
    destruct m as [|d m].
    + left. rewrite E. reflexivity.
    + right. cbn in E, Hm. injection E as -> E. apply andb_prop in Hm as [Hd Hm].
      rewrite Hd. apply IH. exists m. split; [exact E | exact Hm].
Qed.

Lemma valid_chars : forall c m x, is_alnum c = true -> forallb is_name_char m = true ->
  In x (c :: m ++ u ".js") -> is_name_char x = true.
Proof.
  intros c m x Hc Hm [Hx | Hx].
  - subst. unfold is_name_char. rewrite Hc. reflexivity.
  - apply in_app_or in Hx as [Hx | Hx].
    + rewrite forallb_forall in Hm. exact (Hm x Hx).
    + cbn in Hx. destruct Hx as [<- | [<- | [<- | []]]]; reflexivity.
Qed.

Lemma not_name_char_absent : forall s x, (forall y, In y s -> is_name_char y = true) ->
  is_name_char x = false -> includes s [x] = false.
Proof.
  intros s x Hs Hx. rewrite includes_single. apply not_true_is_false. intro H.
  apply existsb_exists in H as [y [Hy Exy]]. apply N.eqb_eq in Exy. subst y.
  rewrite (Hs x Hy) in Hx. discriminate.
Qed.

Lemma jstr_eqb_length : forall a b, jstr_eqb a b = true -> List.length a = List.length b.
Proof. intros a b H. apply jstr_eqb_eq in H. subst. reflexivity. Qed.

(** [isValidFilename] accepts exactly the strings of at most 255 code units
    made of an ASCII letter or digit, then letters, digits, dots, dashes and
    underscores, then [.js]: its other checks never reject such a name. *)
Theorem isValidFilename_spec : forall v,
  isValidFilename v = true
  <-> exists s c m, v = JString s /\ s = c :: m ++ u ".js" /\ is_alnum c = true
                    /\ forallb is_name_char m = true /\ (List.length s <= 255)%nat.
Proof.
  intro v. split.
  - destruct v as [| |b|z|ng m x|z|s|d|t|es|ps|src fl|l]; cbn [isValidFilename]; try discriminate.
    destruct (Nat.eqb (List.length s) 0); [discriminate|].
    destruct (Nat.ltb 255 (List.length s)) eqn:El; [discriminate|].
    destruct (includes s [0]); [discriminate|].
    destruct (includes s (u "/")); [discriminate|].
    destruct (includes s [92]); [discriminate|].
    destruct (jstr_eqb s (u ".") || jstr_eqb s (u "..")); [discriminate|].
    destruct (negb (ends_with (u ".js") s)); [discriminate|].
    destruct (jstr_eqb s (u ".js")); [discriminate|].
    destruct (validFilenamePattern_test s) eqn:Ep; [intros _|discriminate].
    destruct s as [|c t]; [discriminate|].
    cbn [validFilenamePattern_test] in Ep. apply andb_prop in Ep as [Hc Ht].
    apply name_tail_spec in Ht as [m [Et Hm]].
    exists (c :: t), c, m. repeat split; try assumption.
    + rewrite Et. reflexivity.
    + apply Nat.ltb_ge. exact El.
  - intros (s & c & m & -> & Es & Hc & Hm & Hl). cbn [isValidFilename].
    assert (Hch : forall x, In x s -> is_name_char x = true).
    { intros x Hx. rewrite Es in Hx. exact (valid_chars c m x Hc Hm Hx). }
    assert (Hlen : (4 <= List.length s)%nat).
    { rewrite Es. cbn [List.length]. rewrite length_app. cbn. lia. }
    replace (Nat.eqb (List.length s) 0) with false by (symmetry; apply Nat.eqb_neq; lia).
    replace (Nat.ltb 255 (List.length s)) with false by (symmetry; apply Nat.ltb_ge; lia).
    rewrite (not_name_char_absent s 0 Hch eq_refl).
    change (u "/") with [47]. rewrite (not_name_char_absent s 47 Hch eq_refl).
    rewrite (not_name_char_absent s 92 Hch eq_refl).
    destruct (jstr_eqb s (u ".")) eqn:E1;
      [apply jstr_eqb_length in E1; cbn in E1; lia|].
    destruct (jstr_eqb s (u "..")) eqn:E2;
      [apply jstr_eqb_length in E2; cbn in E2; lia|].
    cbn [orb].
    replace (ends_with (u ".js") s) with true.
    2:{ symmetry. unfold ends_with. rewrite Es. change (c :: m ++ u ".js") with ((c :: m) ++ u ".js").
        rewrite rev_app_distr. apply starts_with_app. }
    destruct (jstr_eqb s (u ".js")) eqn:E3;
      [apply jstr_eqb_length in E3; cbn in E3; lia|].
    cbn [negb]. rewrite Es. cbn [validFilenamePattern_test]. rewrite Hc.
    replace (name_tail_test (m ++ u ".js")) with true; [reflexivity|].
    symmetry. apply name_tail_spec. exists m. split; [reflexivity | exact Hm].
Qed.

Lemma isValidFilename_spec_witness :
  isValidFilename (JString (u "a..js")) = true
  /\ exists s c m, JString (u "a..js") = JString s /\ s = c :: m ++ u ".js"
                   /\ is_alnum c = true /\ forallb is_name_char m = true
                   /\ (List.length s <= 255)%nat.
Proof.
  assert (H : isValidFilename (JString (u "a..js")) = true) by reflexivity.
  split; [exact H|]. apply (proj1 (isValidFilename_spec (JString (u "a..js")))). exact H.
Defined.

(** With a [basePath] [b] that does not end in ["/"], [validateScope]
    accepts a scope [s] exactly when it accepts [s] without a [basePath] and
    [s] is [b] itself or lies below [b + "/"]: the test stops at a segment
    boundary, so ["/app"] does not accept ["/application/"]. *)
Theorem validateScope_base_boundary : forall s b,
  ends_with (u "/") b = false ->
  validateScope (JString s) (JString b)
  = validateScope (JString s) JUndefined && (jstr_eqb s b || starts_with (b ++ [47]) s).
Proof.
  intros s b Hb. rewrite !validateScope_shape, Hb, andb_true_r.
  destruct (scope_shape s); [cbn [andb]|reflexivity].
  destruct (ends_with (u "/") s) eqn:Es.
  - destruct (jstr_eqb s b) eqn:E; [|reflexivity].
    apply jstr_eqb_eq in E. subst. rewrite Hb in Es. discriminate.
  - rewrite starts_with_snoc, jstr_eqb_sym. reflexivity.
Qed.

Lemma validateScope_base_boundary_witness :
  ends_with (u "/") (u "/app") = false
  /\ validateScope (JString (u "/application/")) (JString (u "/app"))
     = validateScope (JString (u "/application/")) JUndefined
       && (jstr_eqb (u "/application/") (u "/app")
           || starts_with (u "/app" ++ [47]) (u "/application/")).
Proof.
  assert (H : ends_with (u "/") (u "/app") = false) by reflexivity.
  split; [exact H|]. exact (validateScope_base_boundary _ _ H).
Defined.

(** A [basePath] only narrows what [validateScope] accepts, and the base
    paths [""] and ["/"] do not narrow it at all. *)
Theorem validateScope_base_narrows : forall s b,
  (validateScope s (JString b) = true -> validateScope s JUndefined = true)
  /\ validateScope s (JString []) = validateScope s JUndefined
  /\ validateScope s (JString (u "/")) = validateScope s JUndefined.
Proof.
  intros [| |x|z|ng m e|z|s|d|t|es|ps|src fl|l] b;
    try (cbn [validateScope]; split; [discriminate | split; reflexivity]).
  rewrite !validateScope_shape. rewrite !andb_true_r.
  destruct (scope_shape s) eqn:Hs; [|split; [discriminate | split; reflexivity]].
  cbn [andb]. split; [intros _; reflexivity|].
  assert (H47 : starts_with [47] (if ends_with (u "/") s then s else s ++ [47]) = true).
  { unfold scope_shape in Hs. apply andb_prop in Hs as [Hs _]. apply andb_prop in Hs as [Hs _].
    apply andb_prop in Hs as [Hs _]. apply andb_prop in Hs as [Hs _].
    apply andb_prop in Hs as [Hs _]. apply andb_prop in Hs as [_ Hs].
    destruct s as [|c s]; [discriminate|]. destruct (ends_with (u "/") (c :: s)); exact Hs. }
  split; exact H47.
Qed.

Lemma validateScope_base_narrows_witness :
  validateScope (JString (u "/app/x/")) JUndefined = true
  /\ validateScope (JString (u "/app/x/")) (JString []) = true.
Proof.
  destruct (validateScope_base_narrows (JString (u "/app/x/")) (u "/app")) as [H [E _]].
  assert (Hb : validateScope (JString (u "/app/x/")) (JString (u "/app")) = true) by reflexivity.
  split; [exact (H Hb)|]. rewrite E. exact (H Hb).
Defined.

End SecurityFacts.

Module MergeLaws.
Import CacheStrategies.

Definition pats (rules : list RuntimeCachingRule) : list jstr :=
  map (fun rule => normalizeUrlPattern (urlPattern rule)) rules.

Lemma merge_unfold : forall c d,
  mergeRuntimeCaching c d = c ++ filter (fun r => negb (set_has (pats c) (identity r))) d.
Proof. reflexivity. Qed.

Lemma set_has_pats_app : forall a b x,
  set_has (pats (a ++ b)) x = set_has (pats a) x || set_has (pats b) x.
Proof. intros a b x. unfold pats, set_has. rewrite map_app. apply existsb_app. Qed.

Lemma set_has_pats_filter : forall c1 c2 x,
  set_has (pats (filter (fun r => negb (set_has (pats c1) (identity r))) c2)) x
  = set_has (pats c2) x && negb (set_has (pats c1) x).
Proof.
  intros c1 c2 x. induction c2 as [|r c2 IH]; [reflexivity|].
  cbn [filter]. unfold identity at 1.
  destruct (set_has (pats c1) (normalizeUrlPattern (urlPattern r))) eqn:Er;
    cbn [negb]; unfold set_has, pats in *; cbn [map existsb]; rewrite IH.
  - destruct (jstr_eqb x (normalizeUrlPattern (urlPattern r))) eqn:Ex; [|reflexivity].
    apply jstr_eqb_eq in Ex. rewrite <- Ex in Er. rewrite Er. cbn. rewrite andb_false_r. reflexivity.
  - destruct (jstr_eqb x (normalizeUrlPattern (urlPattern r))) eqn:Ex; [|reflexivity].
    apply jstr_eqb_eq in Ex. rewrite <- Ex in Er. rewrite Er. reflexivity.
Qed.

Lemma filter_filter_andb : forall {A} (f g : A -> bool) l,
  filter f (filter g l) = filter (fun x => g x && f x) l.
Proof.
  intros A f g l. induction l as [|x l IH]; [reflexivity|].
  cbn [filter]. destruct (g x); cbn [andb filter]; [destruct (f x)|]; rewrite ?IH; reflexivity.
Qed.

Lemma filter_all_false : forall {A} (f : A -> bool) l,
  (forall x, In x l -> f x = false) -> filter f l = [].
Proof.
  intros A f l H. induction l as [|x l IH]; [reflexivity|].
  cbn [filter]. rewrite (H x (or_introl eq_refl)). apply IH. intros y Hy. apply H. right. exact Hy.
Qed.

(** Merging is associative: layering custom rules [c1] over the merge of
    [c2] with the defaults gives the same list as merging [c1] with [c2]
    first, then with the defaults. *)
Theorem mergeRuntimeCaching_assoc : forall c1 c2 d,
  mergeRuntimeCaching c1 (mergeRuntimeCaching c2 d)
  = mergeRuntimeCaching (mergeRuntimeCaching c1 c2) d.
Proof.
  intros c1 c2 d. rewrite !merge_unfold, filter_app, <- app_assoc. f_equal. f_equal.
  rewrite filter_filter_andb. apply filter_ext. intro r.
  rewrite set_has_pats_app, set_has_pats_filter.
  destruct (set_has (pats c1) (identity r)), (set_has (pats c2) (identity r)); reflexivity.
Qed.

(** Merging the same custom rules twice changes nothing. *)
Theorem mergeRuntimeCaching_idempotent : forall c d,
  mergeRuntimeCaching c (mergeRuntimeCaching c d) = mergeRuntimeCaching c d.
Proof.
  intros c d. rewrite !merge_unfold, filter_app. f_equal.
  replace (filter (fun r => negb (set_has (pats c) (identity r))) c) with (@nil RuntimeCachingRule).
  - cbn [app]. rewrite filter_filter_andb. apply filter_ext. intro r.
    destruct (set_has (pats c) (identity r)); reflexivity.
  - symmetry. apply filter_all_false. intros r Hr.
    replace (set_has (pats c) (identity r)) with true; [reflexivity|]. symmetry.
    apply existsb_exists. exists (identity r). split; [|apply jstr_eqb_refl].
    unfold pats. apply in_map_iff. exists r. split; [reflexivity | exact Hr].
Qed.

End MergeLaws.

Module PathLaws.
Import PathGuard.

(** No two adjacent code units equal to [x]. *)
Fixpoint no_pair (x : N) (s : jstr) : bool :=
  match s with
  | c :: ((d :: _) as t) => negb ((c =? x) && (d =? x)) && no_pair x t
  | _ => true
  end.

Lemma includes_pair : forall x s, includes s [x; x] = negb (no_pair x s).
Proof.
  intros x s. induction s as [|c t IH]; [reflexivity|].
  destruct t as [|d t'].
  - cbn. rewrite andb_false_r. reflexivity.
  - change (includes (c :: d :: t') [x; x])
      with (((x =? c) && ((x =? d) && true)) || includes (d :: t') [x; x]).
    rewrite IH. change (no_pair x (c :: d :: t'))
      with (negb ((c =? x) && (d =? x)) && no_pair x (d :: t')).
    rewrite andb_true_r, (N.eqb_sym x c), (N.eqb_sym x d), negb_andb, negb_involutive.
    reflexivity.
Qed.

Lemma no_pair_cons : forall x c t, no_pair x (c :: t) = true -> no_pair x t = true.
Proof. intros x c [|d t] H; [reflexivity|]. apply andb_prop in H as [_ H]. exact H. Qed.

Lemma no_pair_suffix : forall x a b, no_pair x (a ++ b) = true -> no_pair x b = true.
Proof. intros x a b. induction a as [|c a IH]; intro H; [exact H|]. apply IH. exact (no_pair_cons _ _ _ H). Qed.

Lemma no_pair_prefix : forall x a b, no_pair x (a ++ b) = true -> no_pair x a = true.
Proof.
  intros x a b. induction a as [|c a IH]; intro H; [reflexivity|].
  destruct a as [|d a]; [reflexivity|].
  cbn [app] in H. change (no_pair x (c :: d :: a ++ b))
    with (negb ((c =? x) && (d =? x)) && no_pair x (d :: a ++ b)) in H.
  apply andb_prop in H as [H1 H2].
  change (no_pair x (c :: d :: a)) with (negb ((c =? x) && (d =? x)) && no_pair x (d :: a)).
  rewrite H1. apply IH. exact H2.
Qed.

Lemma drop_while_suffix : forall p l, exists pre, l = pre ++ drop_while p l.
Proof.
  intros p l. induction l as [|c l [pre IH]]; [exists []; reflexivity|].
  cbn. destruct (p c); [exists (c :: pre); cbn; congruence | exists []; reflexivity].
Qed.

Lemma drop_while_head : forall p l,
  match drop_while p l with c :: _ => p c = false | [] => True end.
Proof.
  intros p l. induction l as [|c l IH]; [exact I|].
  cbn. destruct (p c) eqn:E; [exact IH | exact E].
Qed.

Lemma strip_trailing_prefix : forall s, exists t, s = strip_trailing_slashes s ++ t.
Proof.
  intro s. unfold strip_trailing_slashes.
  destruct (drop_while_suffix (fun c => c =? 47) (rev s)) as [pre E].
  exists (rev pre). rewrite <- rev_app_distr, <- E, rev_involutive. reflexivity.
Qed.

Lemma collapse_no_dotdot : forall s b, no_pair 46 s = true ->
  no_pair 46 (collapse_slashes_go b s) = true
  /\ (b = false -> hd_error (collapse_slashes_go b s) = hd_error s).
Proof.
  induction s as [|c t IH]; intros b H; [split; reflexivity|].
  assert (Ht := no_pair_cons _ _ _ H).
  cbn [collapse_slashes_go]. destruct (c =? 47) eqn:Ec.
  - apply N.eqb_eq in Ec. subst c. destruct b.
    + split; [apply (IH true Ht) | discriminate].
    + split; [|reflexivity]. destruct (IH true Ht) as [H1 _].
      destruct (collapse_slashes_go true t); [reflexivity|]. exact H1.
  - split; [|reflexivity]. destruct (IH false Ht) as [H1 H2].
    specialize (H2 eq_refl).
    destruct (collapse_slashes_go false t) as [|d r] eqn:Er; [reflexivity|].
    change (no_pair 46 (c :: d :: r)) with (negb ((c =? 46) && (d =? 46)) && no_pair 46 (d :: r)).
    rewrite H1, andb_true_r. destruct t as [|e t]; [discriminate|].
    cbn in H2. injection H2 as ->. apply andb_prop in H as [H _]. exact H.
Qed.

Lemma collapse_no_double_slash : forall s b,
  no_pair 47 (collapse_slashes_go b s) = true
  /\ (b = true -> hd_error (collapse_slashes_go b s) <> Some 47).
Proof.
  induction s as [|c t IH]; intro b; [split; [reflexivity | discriminate]|].
  cbn [collapse_slashes_go]. destruct (c =? 47) eqn:Ec.
  - destruct b.
    + apply IH.
    + split; [|discriminate]. destruct (IH true) as [H1 H2]. specialize (H2 eq_refl).
      destruct (collapse_slashes_go true t) as [|d r]; [reflexivity|].
      change (no_pair 47 (c :: d :: r)) with (negb ((c =? 47) && (d =? 47)) && no_pair 47 (d :: r)).
      rewrite H1, andb_true_r. destruct (d =? 47) eqn:Ed; [|rewrite andb_false_r; reflexivity].
      apply N.eqb_eq in Ed. subst. cbn in H2. congruence.
  - split.
    + destruct (IH false) as [H1 _].
      destruct (collapse_slashes_go false t) as [|d r]; [reflexivity|].
      change (no_pair 47 (c :: d :: r)) with (negb ((c =? 47) && (d =? 47)) && no_pair 47 (d :: r)).
      rewrite H1, Ec. reflexivity.
    + intros _ E. injection E as E. subst. rewrite N.eqb_refl in Ec. discriminate.
Qed.

Lemma remove_dotdot_shrinks : forall n s, (List.length s <= n)%nat ->
  (List.length (remove_dotdot s) <= List.length s)%nat
  /\ (includes s [46; 46] = true -> (List.length (remove_dotdot s) + 2 <= List.length s)%nat).
Proof.
  induction n as [|n IH]; intros s Hs.
  - destruct s; [split; [constructor | discriminate] | cbn in Hs; lia].
  - destruct s as [|c [|d t]].
    + split; [constructor | discriminate].
    + split; [constructor|]. cbn. rewrite andb_false_r. discriminate.
    + cbn [List.length] in Hs.
      change (remove_dotdot (c :: d :: t))
        with (if (c =? 46) && (d =? 46) then remove_dotdot t else c :: remove_dotdot (d :: t)).
      rewrite includes_pair. change (no_pair 46 (c :: d :: t))
        with (negb ((c =? 46) && (d =? 46)) && no_pair 46 (d :: t)).
      destruct ((c =? 46) && (d =? 46)).
      * destruct (IH t ltac:(lia)) as [H1 _]. cbn [List.length]. split; intros; lia.
      * destruct (IH (d :: t) ltac:(cbn [List.length]; lia)) as [H1 H2].
        rewrite includes_pair in H2. cbn [negb andb]. cbn [List.length] in *.
        split; [lia|]. intro H. specialize (H2 H). lia.
Qed.

Lemma dotdot_loop_clean : forall fuel s, (List.length s <= fuel)%nat ->
  includes (dotdot_loop fuel s) (u "..") = false.
Proof.
  induction fuel as [|f IH]; intros s Hs.
  - destruct s; [reflexivity | cbn in Hs; lia].
  - cbn [dotdot_loop]. destruct (includes s (u "..")) eqn:E; [|exact E].
    apply IH. destruct (remove_dotdot_shrinks (List.length s) s (le_n _)) as [_ H2].
    specialize (H2 E). lia.
Qed.

(** Each pass of [sanitizePath] only removes or rewrites units. *)
Definition keeps_units (f : jstr -> jstr) : Prop := forall s c, In c (f s) -> In c s.

Lemma drop_while_keeps : forall p, keeps_units (drop_while p).
Proof.
  intros p s c. destruct (drop_while_suffix p s) as [pre E].
  intro H. rewrite E. apply in_or_app. right. exact H.
Qed.

Lemma strip_trailing_keeps : keeps_units strip_trailing_slashes.
Proof.
  intros s c H. destruct (strip_trailing_prefix s) as [t E]. rewrite E. apply in_or_app. left. exact H.
Qed.

Lemma collapse_keeps : forall b, keeps_units (collapse_slashes_go b).
Proof.
  intros b s. revert b. induction s as [|x s IH]; intros b c H; [exact H|].
  cbn [collapse_slashes_go] in H.
  destruct (x =? 47); [destruct b|];
    [right; exact (IH _ _ H) | destruct H as [H|H]; [left; exact H | right; exact (IH _ _ H)]
    | destruct H as [H|H]; [left; exact H | right; exact (IH _ _ H)]].
Qed.

Lemma strip_current_keeps : forall b, keeps_units (strip_current_refs_go b).
Proof.
  intros b s. revert b. induction s as [|x s IH]; intros b c H; [exact H|].
  cbn [strip_current_refs_go] in H.
  destruct (b && (x =? 47)); [right; exact (IH _ _ H)|].
  destruct ((x =? 46) && match s with d :: _ => d =? 47 | [] => false end);
    [right; exact (IH _ _ H)|].
  destruct H as [H|H]; [left; exact H | right; exact (IH _ _ H)].
Qed.

Lemma strip_parent_keeps : keeps_units strip_parent_refs.
Proof.
  intro s. induction s as [s IH] using (well_founded_induction (Wf_nat.well_founded_ltof _ (@List.length N))).
  intros c H. destruct s as [|x [|d t]]; [exact H | exact H|].
  cbn [strip_parent_refs] in H.
  destruct ((x =? 46) && (d =? 46)).
  - destruct t as [|e t3]; [destruct H|].
    destruct (e =? 47).
    + right. right. right. apply (IH t3); [unfold Wf_nat.ltof; cbn; lia | exact H].
    + destruct H as [H|H]; [left; exact H|]. right.
      apply (IH (d :: e :: t3)); [unfold Wf_nat.ltof; cbn; lia | exact H].
  - destruct H as [H|H]; [left; exact H|]. right.
    apply (IH (d :: t)); [unfold Wf_nat.ltof; cbn; lia | exact H].
Qed.

Lemma remove_dotdot_keeps : keeps_units remove_dotdot.
Proof.
  intro s. induction s as [s IH] using (well_founded_induction (Wf_nat.well_founded_ltof _ (@List.length N))).
  intros c H. destruct s as [|x [|d t]]; [exact H | exact H|].
  cbn [remove_dotdot] in H. destruct ((x =? 46) && (d =? 46)).
  - right. right. apply (IH t); [unfold Wf_nat.ltof; cbn; lia | exact H].
  - destruct H as [H|H]; [left; exact H|]. right.
    apply (IH (d :: t)); [unfold Wf_nat.ltof; cbn; lia | exact H].
Qed.

Lemma dotdot_loop_keeps : forall fuel, keeps_units (dotdot_loop fuel).
Proof.
  induction fuel as [|f IH]; intros s c H; [exact H|].
  cbn [dotdot_loop] in H. destruct (includes s (u "..")); [|exact H].
  apply remove_dotdot_keeps. exact (IH _ _ H).
Qed.

(** What [sanitizePath] returns never contains [".."] or ["//"], a backslash
    or a NUL, and never starts or ends with ["/"]. *)
Theorem sanitizePath_output_shape : forall p,
  includes (sanitizePath p) (u "..") = false
  /\ includes (sanitizePath p) (u "//") = false
  /\ ~ In 92 (sanitizePath p)
  /\ ~ In 0 (sanitizePath p)
  /\ starts_with (u "/") (sanitizePath p) = false
  /\ Security.ends_with (u "/") (sanitizePath p) = false.
Proof.
  intro p. unfold sanitizePath.
  set (s0 := strip_leading_slashes (collapse_slashes (strip_current_refs
               (strip_parent_refs (remove_nul (backslash_to_slash (trim p))))))).
  set (s1 := dotdot_loop (List.length s0) s0).
  set (z := strip_leading_slashes (collapse_slashes s1)).
  destruct (strip_trailing_prefix z) as [tl Ez].
  set (r := strip_trailing_slashes z) in *.
  assert (Hback : forall c, In c r -> In c s0).
  { intros c H. apply (dotdot_loop_keeps (List.length s0)). fold s1.
    apply (collapse_keeps false). apply (drop_while_keeps (fun c => c =? 47)).
    apply strip_trailing_keeps. exact H. }
  assert (Hs0 : forall c, In c s0 -> In c (remove_nul (backslash_to_slash (trim p)))).
  { intros c H. apply strip_parent_keeps. apply (strip_current_keeps false).
    apply (collapse_keeps false). apply (drop_while_keeps (fun c => c =? 47)). exact H. }
  split; [|split; [|split; [|split; [|split]]]].
  - assert (H1 := dotdot_loop_clean (List.length s0) s0 (le_n _)). fold s1 in H1.
    change (u "..") with [46; 46] in *. rewrite includes_pair in H1 |- *.
    apply negb_false_iff in H1. apply negb_false_iff.
    destruct (collapse_no_dotdot s1 false H1) as [H2 _].
    destruct (drop_while_suffix (fun c => c =? 47) (collapse_slashes s1)) as [pre Ep].
    assert (Ep' : collapse_slashes s1 = pre ++ z) by exact Ep.
    change (collapse_slashes_go false s1) with (collapse_slashes s1) in H2.
    rewrite Ep' in H2. apply no_pair_suffix in H2.
    rewrite Ez in H2. apply no_pair_prefix in H2. exact H2.
  - change (u "//") with [47; 47]. rewrite includes_pair. apply negb_false_iff.
    destruct (collapse_no_double_slash s1 false) as [H2 _].
    destruct (drop_while_suffix (fun c => c =? 47) (collapse_slashes s1)) as [pre Ep].
    assert (Ep' : collapse_slashes s1 = pre ++ z) by exact Ep.
    change (collapse_slashes_go false s1) with (collapse_slashes s1) in H2.
    rewrite Ep' in H2. apply no_pair_suffix in H2.
    rewrite Ez in H2. apply no_pair_prefix in H2. exact H2.
  - intro H. apply Hback, Hs0 in H. apply filter_In in H as [H _].
    unfold backslash_to_slash in H. apply in_map_iff in H as [x [Ex _]].
    destruct (x =? 92) eqn:E; [discriminate|]. subst x. rewrite N.eqb_refl in E. discriminate.
  - intro H. apply Hback, Hs0 in H. apply filter_In in H as [_ H]. discriminate H.
  - assert (Hh := drop_while_head (fun c => c =? 47) (collapse_slashes s1)).
    change (drop_while (fun c => c =? 47) (collapse_slashes s1)) with z in Hh.
    rewrite Ez in Hh. clearbody r. destruct r as [|c r']; [reflexivity|].
    cbv beta iota in Hh. change (u "/") with [47]. cbn [starts_with].
    rewrite N.eqb_sym, Hh. reflexivity.
  - unfold Security.ends_with. unfold r, strip_trailing_slashes. rewrite rev_involutive.
    assert (Hh := drop_while_head (fun c => c =? 47) (rev z)).
    destruct (drop_while (fun c => c =? 47) (rev z)) as [|c r']; [reflexivity|].
    change (rev (u "/")) with [47]. cbn [starts_with]. rewrite N.eqb_sym, Hh. reflexivity.
Qed.

End PathLaws.

Module EscapeLaws.
Import Js Json JsonFacts.

Fixpoint suffixes (l : jstr) : list jstr :=
  match l with
  | [] => []
  | _ :: l' => l :: suffixes l'
  end.

Lemma suffixes_in : forall a1 a2 l, l = a1 ++ a2 -> a2 <> [] -> In a2 (suffixes l).
Proof.
  induction a1 as [|c a1 IH]; intros a2 l -> Hne.
  - destruct a2; [contradiction | left; reflexivity].
  - right. apply (IH a2 _ eq_refl Hne).
Qed.

Lemma replace_go_skip : forall eq q r k s,
  replace_go eq q r k s = replace_go eq q r O (skipn k s).
Proof.
  intros eq q r k. induction k as [|k IH]; intro s; [reflexivity|].
  destruct s as [|c s]; [reflexivity|]. cbn [replace_go skipn]. apply IH.
Qed.

Section Kill.
Variable eq1 : N -> N -> bool.
Variable P : jstr.
Variable eq2 : N -> N -> bool.
Variable Q R : jstr.

(** A match of [P] against the first units of [a2]. *)
Definition partial (a2 : jstr) : bool := prefix_by eq1 (firstn (List.length a2) P) a2.

(** No match of [P] starts inside [R], and no unit after the first of [P]
    matches the first unit of [R]. *)
Definition starts_clear : bool :=
  forallb (fun a2 => negb (partial a2)) (suffixes R)
  && forallb (fun x => negb (eq1 x (hd 0 R))) (tl P)
  && negb (NodePath.is_empty R).

Lemma prefix_partial : forall a2 b, prefix_by eq1 P (a2 ++ b) = true -> partial a2 = true.
Proof.
  unfold partial. generalize P. intro p. induction p as [|p ps IH]; intros a2 b H.
  - destruct (List.length a2); reflexivity.
  - destruct a2 as [|c a2]; [reflexivity|].
    cbn [app prefix_by] in H. apply andb_prop in H as [H1 H2].
    cbn [List.length firstn prefix_by]. rewrite H1. exact (IH a2 b H2).
Qed.

Lemma no_match_app : forall a b,
  (forall a1 a2, a = a1 ++ a2 -> a2 <> [] -> prefix_by eq1 P (a2 ++ b) = false) ->
  no_match eq1 P b = true -> no_match eq1 P (a ++ b) = true.
Proof.
  induction a as [|c a IH]; intros b Ha Hb; [exact Hb|].
  cbn [app no_match].
  replace (prefix_by eq1 P (c :: a ++ b)) with false
    by (symmetry; exact (Ha [] (c :: a) eq_refl ltac:(discriminate))).
  cbn [negb andb].
  apply IH; [|exact Hb]. intros a1 a2 E Hne. apply (Ha (c :: a1) a2); [rewrite E; reflexivity | exact Hne].
Qed.

Hypothesis Hclear : starts_clear = true.

Lemma clear_inside : forall a1 a2 b, R = a1 ++ a2 -> a2 <> [] -> prefix_by eq1 P (a2 ++ b) = false.
Proof.
  intros a1 a2 b E Hne. apply not_true_is_false. intro H. apply prefix_partial in H.
  unfold starts_clear in Hclear. apply andb_prop in Hclear as [H1 _]. apply andb_prop in H1 as [H1 _].
  rewrite forallb_forall in H1. specialize (H1 a2 (suffixes_in a1 a2 R E Hne)).
  rewrite H in H1. discriminate.
Qed.

Lemma clear_head : forall x, In x (tl P) -> eq1 x (hd 0 R) = false.
Proof.
  intros x Hx. unfold starts_clear in Hclear. apply andb_prop in Hclear as [H1 _].
  apply andb_prop in H1 as [_ H1]. rewrite forallb_forall in H1. apply negb_true_iff. exact (H1 x Hx).
Qed.

Lemma clear_nonempty : R <> [].
Proof.
  unfold starts_clear in Hclear. apply andb_prop in Hclear as [_ H]. destruct R; [discriminate | discriminate].
Qed.

(** A match of [q] (units from the tail of [P]) in the output is a match in the input. *)
Lemma prefix_through : forall t q, (forall x, In x q -> In x (tl P)) ->
  prefix_by eq1 q (replace_go eq2 Q R O t) = true -> prefix_by eq1 q t = true.
Proof.
  induction t as [|c t IH]; intros q Hq H.
  - exact H.
  - cbn [replace_go] in H. destruct (prefix_by eq2 Q (c :: t)).
    + destruct q as [|x q]; [reflexivity|]. exfalso.
      destruct R as [|r R'] eqn:ER; [exact (clear_nonempty ER)|].
      cbn [app prefix_by] in H. apply andb_prop in H as [H _].
      assert (Hx := clear_head x (Hq x (or_introl eq_refl))). rewrite ER in Hx.
      cbn [hd] in Hx. rewrite Hx in H. discriminate.
    + destruct q as [|x q]; [reflexivity|].
      cbn [prefix_by] in H |- *. apply andb_prop in H as [H1 H2]. rewrite H1.
      apply IH; [intros y Hy; apply Hq; right; exact Hy | exact H2].
Qed.

(** Wherever [P] matches the input, [Q] does too. *)
Definition covered (s : jstr) : Prop :=
  forall s1 s2, s = s1 ++ s2 -> prefix_by eq1 P s2 = true -> prefix_by eq2 Q s2 = true.

Lemma replace_kills : forall s, covered s -> no_match eq1 P (replace_go eq2 Q R O s) = true.
Proof.
  intro s. induction s as [s IH] using (well_founded_induction (Wf_nat.well_founded_ltof _ (@List.length N))).
  intro Hc. destruct s as [|c t]; [reflexivity|].
  cbn [replace_go]. destruct (prefix_by eq2 Q (c :: t)) eqn:EQ.
  - rewrite replace_go_skip. apply no_match_app.
    + intros a1 a2 E Hne. apply (clear_inside a1 a2 _ E Hne).
    + apply IH.
      * unfold Wf_nat.ltof. rewrite length_skipn. cbn [List.length]. lia.
      * intros s1 s2 E. apply (Hc (c :: firstn (pred (List.length Q)) t ++ s1) s2).
        cbn [app]. rewrite <- app_assoc, <- E, firstn_skipn. reflexivity.
  - cbn [no_match]. apply andb_true_intro. split.
    + apply negb_true_iff. apply not_true_is_false. intro H.
      assert (Hc0 := Hc [] (c :: t) eq_refl). cbn [app] in Hc0.
      assert (H2 : prefix_by eq1 (tl P) t = true).
      { apply prefix_through; [intros y Hy; exact Hy|].
        destruct P as [|p ps]; [reflexivity|]. cbn [prefix_by] in H.
        apply andb_prop in H as [_ H]. exact H. }
      assert (H3 : prefix_by eq1 P (c :: t) = true).
      { destruct P as [|p ps]; [reflexivity|]. cbn [prefix_by tl] in H, H2 |- *.
        apply andb_prop in H as [H _]. rewrite H, H2. reflexivity. }
      rewrite (Hc0 H3) in EQ. discriminate.
    + apply IH; [unfold Wf_nat.ltof; cbn; lia|].
      intros s1 s2 E. apply (Hc (c :: s1) s2). rewrite E. reflexivity.
Qed.

End Kill.

Lemma covered_self : forall eq P s, covered eq P eq P s.
Proof. intros eq P s s1 s2 _ H. exact H. Qed.

Lemma covered_no_match : forall eq1 P eq2 Q s, P <> [] ->
  no_match eq1 P s = true -> covered eq1 P eq2 Q s.
Proof.
  intros eq1 P eq2 Q s HP. induction s as [|c s IH]; intros Hm s1 s2 E Hp.
  - destruct s1; [|discriminate]. cbn in E. subst s2. destruct P; [contradiction | discriminate].
  - destruct s1 as [|x s1].
    + cbn in E. subst s2. cbn [no_match] in Hm. rewrite Hp in Hm. discriminate.
    + cbn in E. injection E as -> E. cbn [no_match] in Hm. apply andb_prop in Hm as [_ Hm].
      exact (IH Hm s1 s2 E Hp).
Qed.

Lemma prefix_by_eqb : forall p s, prefix_by N.eqb p s = starts_with p s.
Proof. induction p as [|x p IH]; intros [|c s]; cbn; rewrite ?IH; reflexivity. Qed.

Lemma prefix_by_ci : forall p s, prefix_by ci_eq p s = starts_with_ci p s.
Proof. induction p as [|x p IH]; intros [|c s]; cbn; rewrite ?IH; reflexivity. Qed.

Lemma no_match_includes : forall p s, p <> [] -> no_match N.eqb p s = true -> includes s p = false.
Proof.
  intros p s Hp. induction s as [|c s IH]; intro Hm.
  - destruct p; [contradiction | reflexivity].
  - cbn [no_match] in Hm. apply andb_prop in Hm as [H1 H2]. cbn [includes].
    rewrite <- prefix_by_eqb. apply negb_true_iff in H1. rewrite H1, IH by exact H2. reflexivity.
Qed.

Lemma no_match_includes_ci : forall p s, p <> [] -> no_match ci_eq p s = true -> includes_ci s p = false.
Proof.
  intros p s Hp. induction s as [|c s IH]; intro Hm.
  - destruct p; [contradiction | reflexivity].
  - cbn [no_match] in Hm. apply andb_prop in Hm as [H1 H2]. cbn [includes_ci].
    rewrite <- prefix_by_ci. apply negb_true_iff in H1. rewrite H1, IH by exact H2. reflexivity.
Qed.

Definition SCRIPT_CLOSE : jstr := u "</script>".
Definition COMMENT_OPEN : jstr := u "<!--".

Lemma script_close_ne : SCRIPT_CLOSE <> [].
Proof. discriminate. Qed.

Lemma comment_open_ne : COMMENT_OPEN <> [].
Proof. discriminate. Qed.

(** The text [escape_text] returns has no [</script>] in any letter case
    and no [<!--]. *)
Lemma escape_text_no_markup : forall t,
  no_match ci_eq SCRIPT_CLOSE (escape_text t) = true
  /\ no_match N.eqb COMMENT_OPEN (escape_text t) = true.
Proof.
  intro t. unfold escape_text.
  set (t3 := replace_all N.eqb (u "${") (u "\${")
               (replace_all N.eqb [96] [92; 96] (replace_all N.eqb [92] [92; 92] t))).
  set (t4 := replace_all ci_eq (u "</script>") (u "<\/script>") t3).
  set (t5 := replace_all N.eqb (u "<!--") (u "<\!--") t4).
  set (t6 := replace_all N.eqb [8232] (u "\u2028") t5).
  assert (H4 : no_match ci_eq SCRIPT_CLOSE t4 = true)
    by exact (replace_kills ci_eq SCRIPT_CLOSE ci_eq SCRIPT_CLOSE (u "<\/script>")
                ltac:(vm_compute; reflexivity) t3 (covered_self _ _ _)).
  assert (H5 : no_match ci_eq SCRIPT_CLOSE t5 = true)
    by exact (replace_kills ci_eq SCRIPT_CLOSE N.eqb COMMENT_OPEN (u "<\!--")
                ltac:(vm_compute; reflexivity) t4
                (covered_no_match _ _ _ _ _ script_close_ne H4)).
  assert (H5' : no_match N.eqb COMMENT_OPEN t5 = true)
    by exact (replace_kills N.eqb COMMENT_OPEN N.eqb COMMENT_OPEN (u "<\!--")
                ltac:(vm_compute; reflexivity) t4 (covered_self _ _ _)).
  assert (H6 : no_match ci_eq SCRIPT_CLOSE t6 = true)
    by exact (replace_kills ci_eq SCRIPT_CLOSE N.eqb [8232] (u "\u2028")
                ltac:(vm_compute; reflexivity) t5
                (covered_no_match _ _ _ _ _ script_close_ne H5)).
  assert (H6' : no_match N.eqb COMMENT_OPEN t6 = true)
    by exact (replace_kills N.eqb COMMENT_OPEN N.eqb [8232] (u "\u2028")
                ltac:(vm_compute; reflexivity) t5
                (covered_no_match _ _ _ _ _ comment_open_ne H5')).
  split.
  - exact (replace_kills ci_eq SCRIPT_CLOSE N.eqb [8233] (u "\u2029")
             ltac:(vm_compute; reflexivity) t6
             (covered_no_match _ _ _ _ _ script_close_ne H6)).
  - exact (replace_kills N.eqb COMMENT_OPEN N.eqb [8233] (u "\u2029")
             ltac:(vm_compute; reflexivity) t6
             (covered_no_match _ _ _ _ _ comment_open_ne H6')).
Qed.

Lemma bigint_text_units : forall z c, In c (34 :: z_text z ++ [34]) ->
  In c [34; 45; 48; 49; 50; 51; 52; 53; 54; 55; 56; 57].
Proof.
  intros z c [H | H]; [left; exact H|].
  apply in_app_or in H as [H | [H | []]]; [|left; exact H].
  destruct (z_text_units z c H) as [H1 | H1]; [right; left; symmetry; exact H1|].
  right. right. exact (digit_cases c H1).
Qed.

Lemma no_match_outside_units : forall eq p s, p <> [] ->
  (forall c, In c s -> eq (hd 0 p) c = false) -> no_match eq p s = true.
Proof. intros eq p s Hp Hc. apply no_match_head; assumption. Qed.

(** Whatever value it is given, [escapeForServiceWorker] returns a text in
    which [</script>] (in any letter case) and [<!--] do not occur, so the
    injected manifest cannot close the script element or open an HTML
    comment. *)
Theorem escapeForServiceWorker_no_markup : forall H v,
  includes_ci (escapeForServiceWorker H v) (u "</script>") = false
  /\ includes (escapeForServiceWorker H v) (u "<!--") = false.
Proof.
  intros H v.
  assert (Hs : forall t, no_match ci_eq SCRIPT_CLOSE t = true -> no_match N.eqb COMMENT_OPEN t = true ->
            includes_ci t (u "</script>") = false /\ includes t (u "<!--") = false).
  { intros t H1 H2. split; [apply no_match_includes_ci | apply no_match_includes];
      ((vm_compute; discriminate) || assumption). }
  assert (Hc : forall t, (forall c, In c t -> In c [34; 45; 48; 49; 50; 51; 52; 53; 54; 55; 56; 57]) ->
            includes_ci t (u "</script>") = false /\ includes t (u "<!--") = false).
  { intros t Ht. apply Hs; apply no_match_outside_units; try (vm_compute; discriminate);
      intros c Hin; specialize (Ht c Hin); cbn in Ht;
      repeat (destruct Ht as [<- | Ht]; [reflexivity|]); destruct Ht. }
  unfold escapeForServiceWorker.
  destruct v as [| |b|z|ng m x|z|s|d|t|es|ps|src fl|l];
    [vm_compute; split; reflexivity | | | | | apply Hc; apply bigint_text_units | |
     vm_compute; split; reflexivity | vm_compute; split; reflexivity | | | | ];
    (destruct (stringify H _) as [[t|]|];
     [apply Hs; apply escape_text_no_markup | vm_compute; split; reflexivity
     | vm_compute; split; reflexivity]).
Qed.

Lemma In_existsb_eqb : forall y l, In y l -> existsb (N.eqb y) l = true.
Proof. intros y l H. apply existsb_exists. exists y. split; [exact H | apply N.eqb_refl]. Qed.

Lemma in_flat_map_single : forall (eq : N -> N -> bool) x repl s y,
  In y (flat_map (fun c => if eq x c then repl else [c]) s) ->
  In y repl \/ (In y s /\ eq x y = false).
Proof.
  intros eq x repl s y H. apply in_flat_map in H as [c [Hc H]].
  destruct (eq x c) eqn:E; [left; exact H|]. right.
  destruct H as [<- | []]. split; assumption.
Qed.

(** Whatever value it is given, [escapeForServiceWorker] returns a text
    without the raw line terminators U+2028 and U+2029. *)
Theorem escapeForServiceWorker_no_line_separators : forall H v,
  ~ In 8232 (escapeForServiceWorker H v) /\ ~ In 8233 (escapeForServiceWorker H v).
Proof.
  intros H v.
  assert (Ht : forall t, ~ In 8232 (escape_text t) /\ ~ In 8233 (escape_text t)).
  { intro t. unfold escape_text. rewrite !replace_single.
    split; intro Hin.
    - apply in_flat_map_single in Hin as [Hin | [Hin _]]; [apply In_existsb_eqb in Hin; vm_compute in Hin; discriminate Hin|].
      apply in_flat_map_single in Hin as [Hin | [_ Hin]]; [apply In_existsb_eqb in Hin; vm_compute in Hin; discriminate Hin|].
      discriminate Hin.
    - apply in_flat_map_single in Hin as [Hin | [_ Hin]]; [apply In_existsb_eqb in Hin; vm_compute in Hin; discriminate Hin|].
      discriminate Hin. }
  assert (Hd : forall t, (forall c, In c t -> In c [34; 45; 48; 49; 50; 51; 52; 53; 54; 55; 56; 57]) ->
            ~ In 8232 t /\ ~ In 8233 t).
  { intros t Hc. split; intro Hin; specialize (Hc _ Hin); cbn in Hc;
      repeat (destruct Hc as [Hc | Hc]; [discriminate|]); destruct Hc. }
  assert (Hk : forall t, (forallb (fun c => negb ((c =? 8232) || (c =? 8233))) t = true) ->
            ~ In 8232 t /\ ~ In 8233 t).
  { intros t Hf. rewrite forallb_forall in Hf.
    split; intro Hin; specialize (Hf _ Hin); discriminate Hf. }
  unfold escapeForServiceWorker.
  destruct v as [| |b|z|ng m x|z|s|d|t|es|ps|src fl|l];
    [apply Hk; reflexivity | | | | | apply Hd; apply bigint_text_units | |
     apply Hk; reflexivity | apply Hk; reflexivity | | | | ];
    (destruct (stringify H _) as [[t|]|];
     [apply Ht | apply Hk; reflexivity | apply Hk; reflexivity]).
Qed.

End EscapeLaws.

Module ManifestLaws.
Import NodePath ManifestGen ManifestFacts.

(** ** Sets of assets *)

Lemma set_has_In : forall s x, CacheStrategies.set_has s x = true <-> In x s.
Proof.
  intros s x. unfold CacheStrategies.set_has. rewrite existsb_exists. split.
  - intros [y [Hy E]]. apply jstr_eqb_eq in E. subst. exact Hy.
  - intro H. exists x. split; [exact H | apply jstr_eqb_refl].
Qed.

Lemma set_add_all_spec : forall xs set, NoDup set ->
  NoDup (set_add_all set xs) /\ (forall x, In x (set_add_all set xs) <-> In x set \/ In x xs).
Proof.
  induction xs as [|y xs IH]; intros set Hnd.
  - split; [exact Hnd|]. intro x. cbn. tauto.
  - cbn [set_add_all]. destruct (CacheStrategies.set_has set y) eqn:E.
    + apply set_has_In in E. destruct (IH set Hnd) as [H1 H2]. split; [exact H1|].
      intro x. rewrite H2. cbn. split; [tauto|]. intros [H|[<-|H]]; tauto.
    + assert (Hnd' : NoDup (set ++ [y])).
      { apply NoDup_app; [exact Hnd | constructor; [intros [] | constructor] | ].
        intros x Hx [Ex | []]. subst x.
        assert (Hy : CacheStrategies.set_has set y = true) by (apply set_has_In; exact Hx).
        congruence. }
      destruct (IH (set ++ [y]) Hnd') as [H1 H2]. split; [exact H1|].
      intro x. rewrite H2, in_app_iff. cbn. tauto.
Qed.

Lemma pages_fold_spec : forall (ps : list (jstr * list jstr)) set, NoDup set ->
  NoDup (fold_left (fun s pageAssets => set_add_all s (snd pageAssets)) ps set)
  /\ (forall x, In x (fold_left (fun s pageAssets => set_add_all s (snd pageAssets)) ps set)
                <-> In x set \/ exists page files, In (page, files) ps /\ In x files).
Proof.
  induction ps as [|[page files] ps IH]; intros set Hnd.
  - split; [exact Hnd|]. intro x. split; [tauto|]. intros [H|(p & f & [] & _)]. exact H.
  - cbn [fold_left snd]. destruct (set_add_all_spec files set Hnd) as [H1 H2].
    destruct (IH _ H1) as [H3 H4]. split; [exact H3|].
    intro x. rewrite H4, H2. split.
    + intros [[H|H]|(p & f & Hin & Hx)]; [tauto| |].
      * right. exists page, files. split; [left; reflexivity | exact H].
      * right. exists p, f. split; [right; exact Hin | exact Hx].
    + intros [H|(p & f & [E|Hin] & Hx)]; [tauto| |].
      * injection E as -> ->. left. right. exact Hx.
      * right. exists p, f. split; assumption.
Qed.

(** [extractAssetsFromManifest] lists every file of [polyfillFiles],
    [rootMainFiles], [lowPriorityFiles] and of every page of [pages], each
    once, and nothing else ([devFiles], [ampDevFiles] and [ampFirstPages]
    are not read). *)
Theorem extractAssetsFromManifest_spec : forall m,
  NoDup (extractAssetsFromManifest m)
  /\ forall x, In x (extractAssetsFromManifest m)
       <-> In x (opt_list (polyfillFiles m)) \/ In x (opt_list (rootMainFiles m))
           \/ In x (opt_list (lowPriorityFiles m))
           \/ exists page files,
                In (page, files) (match pages m with Some ps => ps | None => [] end)
                /\ In x files.
Proof.
  intro m. unfold extractAssetsFromManifest.
  destruct (set_add_all_spec (opt_list (polyfillFiles m)) [] (NoDup_nil _)) as [N1 I1].
  destruct (set_add_all_spec (opt_list (rootMainFiles m)) _ N1) as [N2 I2].
  destruct (set_add_all_spec (opt_list (lowPriorityFiles m)) _ N2) as [N3 I3].
  assert (Hbase : forall x, In x (set_add_all (set_add_all (set_add_all [] (opt_list (polyfillFiles m)))
                                    (opt_list (rootMainFiles m))) (opt_list (lowPriorityFiles m)))
                  <-> In x (opt_list (polyfillFiles m)) \/ In x (opt_list (rootMainFiles m))
                      \/ In x (opt_list (lowPriorityFiles m))).
  { intro x. rewrite I3, I2, I1. cbn. tauto. }
  destruct (pages m) as [ps|].
  - destruct (pages_fold_spec ps _ N3) as [N4 I4]. split; [exact N4|].
    intro x. rewrite I4, Hbase. tauto.
  - split; [exact N3|]. intro x. rewrite Hbase. split; [tauto|].
    intros [H|[H|[H|(p & f & [] & _)]]]; tauto.
Qed.

(** ** Listed files *)

Lemma filter_map_shape : forall (pre : jstr) files,
  Forall (fun f => starts_with pre f = true /\ PathGuard.hasPathTraversal f = false)
    (filter (fun file => negb (PathGuard.hasPathTraversal file)) (map (fun file => pre ++ file) files)).
Proof.
  intros pre files. apply Forall_forall. intros f Hf. apply filter_In in Hf as [Hf Ht].
  apply in_map_iff in Hf as [g [<- _]]. split; [apply SecurityFacts.starts_with_app|].
  apply negb_true_iff. exact Ht.
Qed.

(** [getStaticBuildFiles] and [getPublicFiles] never throw; every file they
    return is under [/_next/static/] (resp. starts with ["/"]) and passes
    [hasPathTraversal]. *)
Theorem listed_files_shape : forall fs buildDir publicDir root ex tr,
  (exists files tr', getStaticBuildFiles fs buildDir root tr = (Ok files, tr')
     /\ Forall (fun f => starts_with (u "/_next/static/") f = true
                         /\ PathGuard.hasPathTraversal f = false) files)
  /\ (exists files tr', getPublicFiles fs publicDir root ex tr = (Ok files, tr')
     /\ Forall (fun f => starts_with (u "/") f = true
                         /\ PathGuard.hasPathTraversal f = false) files).
Proof.
  intros fs bd pd root ex tr. split.
  - unfold getStaticBuildFiles, bind, stat, globby, ret.
    destruct (fs_exists fs (join [bd; u "static"])); cbn [negb];
      [destruct (fs_glob fs (join [bd; u "static"]) []) as [files|]|];
      do 2 eexists; (split; [reflexivity|]); try constructor.
    apply (filter_map_shape (u "/_next/static/")).
  - unfold getPublicFiles, bind, stat, globby, ret.
    destruct (fs_exists fs pd); cbn [negb];
      [destruct (isPathWithinProject pd root); cbn [negb];
       [destruct (fs_glob fs pd ex) as [files|]|]|];
      do 2 eexists; (split; [reflexivity|]); try constructor.
    apply (filter_map_shape [47]).
Qed.

(** When the public directory fails the containment check,
    [getPublicFiles] returns no file and lists nothing: its only I/O is the
    [stat] of the directory. *)
Theorem getPublicFiles_outside_root : forall fs d r ex tr,
  isPathWithinProject d r = false -> getPublicFiles fs d r ex tr = (Ok [], tr ++ [EStat d]).
Proof.
  intros fs d r ex tr H. unfold getPublicFiles, bind, stat, ret.
  destruct (fs_exists fs d); cbn [negb]; [rewrite H|]; reflexivity.
Qed.

Lemma getPublicFiles_outside_root_witness :
  isPathWithinProject (u "/srv/public") (u "/home/p") = false
  /\ getPublicFiles (scenario_fs [] [] (fun _ => 0%Z)) (u "/srv/public") (u "/home/p") [] []
     = (Ok [], [EStat (u "/srv/public")]).
Proof.
  assert (H : isPathWithinProject (u "/srv/public") (u "/home/p") = false)
    by (vm_compute; reflexivity).
  split; [exact H|]. exact (getPublicFiles_outside_root _ _ _ [] [] H).
Defined.

End ManifestLaws.

Module RevisionLaws.
Import NodePath ManifestGen ManifestFacts.

(** A character that [matchesExclusion] turns into a wildcard. *)
Definition no_wildcard (c : N) : bool := negb ((c =? 42) || (c =? 63)).

(** ** Digests *)

Lemma le_bytes_shape : forall w x,
  List.length (Md5.le_bytes w x) = w /\ Forall (fun b => (0 <= b < 256)%Z) (Md5.le_bytes w x).
Proof.
  induction w as [|w IH]; intro x; cbn [Md5.le_bytes List.length].
  - split; [reflexivity | constructor].
  - destruct (IH (x / 256)%Z) as [H1 H2]. split; [rewrite H1; reflexivity|].
    constructor; [apply Z.mod_pos_bound; lia | exact H2].
Qed.

Lemma digest_shape : forall msg,
  List.length (Md5.digest msg) = 16%nat /\ Forall (fun b => (0 <= b < 256)%Z) (Md5.digest msg).
Proof.
  intro msg. unfold Md5.digest. cbv zeta.
  destruct (Md5.blocks _ Md5.init (Md5.pad msg)) as [[[a b] c] d].
  destruct (le_bytes_shape 4 a) as [La Fa], (le_bytes_shape 4 b) as [Lb Fb],
    (le_bytes_shape 4 c) as [Lc Fc], (le_bytes_shape 4 d) as [Ld Fd].
  split.
  - rewrite !length_app, La, Lb, Lc, Ld. reflexivity.
  - repeat (apply Forall_app; split); assumption.
Qed.

Lemma hex_digit_lower : forall d, d < 16 -> is_hex_lower (Json.hex_digit d) = true.
Proof.
  intros d Hd. unfold Json.hex_digit, is_hex_lower.
  destruct (d <? 10) eqn:E; [apply N.ltb_lt in E | apply N.ltb_ge in E];
    apply orb_true_iff; [left|right]; apply andb_true_iff; split; apply N.leb_le; lia.
Qed.

Lemma hex_shape : forall bs, Forall (fun b => (0 <= b < 256)%Z) bs ->
  List.length (Md5.hex bs) = (2 * List.length bs)%nat /\ forallb is_hex_lower (Md5.hex bs) = true.
Proof.
  induction bs as [|b bs IH]; intro F; [split; reflexivity|].
  inversion F as [|? ? Hb Fbs]; subst. destruct (IH Fbs) as [L H].
  unfold Md5.hex in *. cbn [flat_map].
  assert (Hhi : is_hex_lower (Json.hex_digit (Z.to_N b / 16)) = true).
  { apply hex_digit_lower. apply N.Div0.div_lt_upper_bound. lia. }
  assert (Hlo : is_hex_lower (Json.hex_digit (Z.to_N b mod 16)) = true).
  { apply hex_digit_lower. apply N.mod_lt. discriminate. }
  split.
  - cbn [app List.length]. rewrite L. lia.
  - cbn [app forallb]. rewrite Hhi, Hlo, H. reflexivity.
Qed.

Lemma forallb_firstn {A : Type} (f : A -> bool) : forall n l,
  forallb f l = true -> forallb f (firstn n l) = true.
Proof.
  induction n as [|n IH]; intros [|x l] H; cbn in *; try reflexivity.
  apply andb_true_iff in H as [H1 H2]. rewrite H1, (IH l H2). reflexivity.
Qed.

Lemma md5_hex8_shape : forall content,
  List.length (md5_hex8 content) = 8%nat /\ forallb is_hex_lower (md5_hex8 content) = true.
Proof.
  intro content. unfold md5_hex8.
  destruct (digest_shape (map (fun b => Z.of_N (Byte.to_N b)) content)) as [L F].
  destruct (hex_shape _ F) as [L' H]. split.
  - rewrite length_firstn, L', L. reflexivity.
  - apply forallb_firstn. exact H.
Qed.

Lemma hash_of_shape : forall fs p h,
  hash_of fs p h -> List.length h = 8%nat /\ forallb is_hex_lower h = true.
Proof.
  intros fs p h Hh. unfold hash_of in Hh.
  destruct (fs_read fs p); [subst; apply md5_hex8_shape|].
  destruct Hh as [t ->]. apply md5_hex8_shape.
Qed.

(** ** Content-hashed names *)

Lemma count_while_stop {f : N -> bool} : forall a c b,
  forallb f a = true -> f c = false -> count_while f (a ++ c :: b) = List.length a.
Proof.
  induction a as [|x a IH]; intros c b Ha Hc; cbn [app count_while List.length].
  - rewrite Hc. reflexivity.
  - cbn [forallb] in Ha. apply andb_true_iff in Ha as [H1 H2].
    rewrite H1, (IH c b H2 Hc). reflexivity.
Qed.

Lemma forallb_rev {A : Type} (f : A -> bool) : forall l, forallb f (rev l) = forallb f l.
Proof.
  induction l as [|x l IH]; [reflexivity|]. cbn [rev forallb].
  rewrite forallb_app, IH. cbn [forallb]. rewrite andb_true_r, andb_comm. reflexivity.
Qed.

Lemma starts_with_ci_self : forall a b, starts_with_ci a (a ++ b) = true.
Proof.
  induction a as [|x a IH]; intro b; [reflexivity|]. cbn [app starts_with_ci].
  rewrite N.eqb_refl, IH. reflexivity.
Qed.

Lemma firstn_length_app {A : Type} : forall (a b : list A), firstn (List.length a) (a ++ b) = a.
Proof. induction a as [|x a IH]; intro b; [reflexivity|]. cbn. rewrite IH. reflexivity. Qed.

Lemma skipn_length_app {A : Type} : forall (a b : list A), skipn (List.length a) (a ++ b) = b.
Proof. induction a as [|x a IH]; intro b; [reflexivity|]. cbn. apply IH. Qed.

Lemma hex_lower_not_dash : forall c, is_hex_lower c = true -> (c =? 45) = false.
Proof.
  intros c H. destruct (c =? 45) eqn:E; [|reflexivity].
  apply N.eqb_eq in E. subst. discriminate H.
Qed.

Lemma chunk_go_run : forall h run rest, forallb is_hex_lower h = true ->
  chunk_go run (h ++ rest) = chunk_go (run + List.length h) rest.
Proof.
  induction h as [|c h IH]; intros run rest H; cbn [app List.length].
  - rewrite Nat.add_0_r. reflexivity.
  - cbn [forallb] in H. apply andb_true_iff in H as [H1 H2].
    cbn [chunk_go]. rewrite (hex_lower_not_dash c H1), H1, (IH (S run) rest H2).
    f_equal. lia.
Qed.

Lemma chunk_go_prefix : forall p s run,
  (forall r, chunk_go r s = true) -> chunk_go run (p ++ s) = true.
Proof.
  induction p as [|c p IH]; intros s run Hs; cbn [app]; [apply Hs|].
  cbn [chunk_go]. destruct (c =? 45).
  - rewrite (IH s O Hs). apply orb_true_r.
  - destruct (is_hex_lower c); apply IH; exact Hs.
Qed.

(** ** Glob patterns *)

Lemma glob_test_cons : forall pc p v, pc <> 42 -> pc <> 63 ->
  glob_test (pc :: p) v
  = match v with c :: v' => (pc =? c) && glob_test p v' | [] => false end.
Proof.
  intros pc p v H42 H63. destruct pc as [|q]; [reflexivity|].
  do 7 (try (destruct q as [q|q|]); try reflexivity;
        try (exfalso; apply H42; reflexivity); try (exfalso; apply H63; reflexivity)).
Qed.

Lemma glob_literal : forall p v, forallb no_wildcard p = true -> glob_test p v = jstr_eqb p v.
Proof.
  induction p as [|pc p IH]; intros v H.
  - destruct v; reflexivity.
  - cbn [forallb] in H. apply andb_true_iff in H as [H1 H2].
    unfold no_wildcard in H1. apply negb_true_iff, orb_false_iff in H1 as [H42 H63].
    apply N.eqb_neq in H42, H63.
    rewrite glob_test_cons by assumption.
    destruct v as [|c v]; [reflexivity|]. cbn [jstr_eqb]. rewrite (IH v H2). reflexivity.
Qed.

Lemma glob_star_cons : forall lit c v,
  glob_test (42 :: lit) (c :: v)
  = glob_test lit (c :: v) || (negb (is_line_terminator c) && glob_test (42 :: lit) v).
Proof. reflexivity. Qed.

Lemma glob_star_nil : forall lit, glob_test (42 :: lit) [] = glob_test lit [].
Proof. intro lit. cbn [glob_test]. apply orb_false_r. Qed.

Lemma glob_star_spec : forall lit v,
  glob_test (42 :: lit) v = true
  <-> exists a b, v = a ++ b
                  /\ forallb (fun c => negb (is_line_terminator c)) a = true
                  /\ glob_test lit b = true.
Proof.
  intro lit. induction v as [|c v IH].
  - rewrite glob_star_nil. split.
    + intro H. exists [], []. auto.
    + intros (a & b & E & _ & H). destruct a as [|x a]; [|discriminate E].
      cbn in E. subst b. exact H.
  - rewrite glob_star_cons, orb_true_iff, andb_true_iff, IH. split.
    + intros [H | [Hc (a & b & E & Ha & Hb)]].
      * exists [], (c :: v). auto.
      * exists (c :: a), b. subst v. split; [reflexivity|].
        cbn [forallb]. rewrite Hc, Ha. auto.
    + intros (a & b & E & Ha & Hb). destruct a as [|x a].
      * cbn in E. subst b. left. exact Hb.
      * cbn in E. injection E as -> ->. cbn [forallb] in Ha.
        apply andb_true_iff in Ha as [Hx Ha]. right. split; [exact Hx|].
        exists a, b. auto.
Qed.

(** ** Entries of a generated manifest *)

Lemma generate_entries_spec :
  forall fs o tr out tr',
    generatePrecacheManifest fs o tr = (Ok out, tr') ->
    Forall2 (entry_of fs) (first_from [] (candidates fs o)) out.
Proof.
  intros fs o tr out tr' Hrun.
  unfold generatePrecacheManifest in Hrun.
  destruct (isPathWithinProject (buildDir o) (projectRoot o));
    cbn [negb] in Hrun; [|discriminate Hrun].
  destruct (isPathWithinProject (publicDir o) (projectRoot o));
    cbn [negb] in Hrun; [|discriminate Hrun].
  destruct (getStaticBuildFiles_pure fs (buildDir o) (projectRoot o)) as [sv Hsv].
  destruct (getPublicFiles_pure fs (publicDir o) (projectRoot o) (publicExcludes o))
    as [pv Hpv].
  unfold bind in Hrun.
  destruct (readBuildManifest_pure fs (buildDir o) tr) as [t1 E1]. rewrite E1 in Hrun. cbv beta iota zeta in Hrun.
  destruct (Hsv (tr ++ t1)) as [t2 E2]. rewrite E2 in Hrun. cbv beta iota zeta in Hrun.
  set (bm := fs_build_manifest fs (join [buildDir o; u "build-manifest.json"])) in *.
  set (ma := match bm with Some m => extractAssetsFromManifest m | None => [] end) in *.
  destruct (for_each_spec fs _ _ (build_step_spec fs o) (set_add_all [] (ma ++ sv))
              {| entries := []; seenUrls := [] |} ((tr ++ t1) ++ t2))
    as (new1 & t3 & E3 & F3).
  rewrite E3 in Hrun. cbv beta iota zeta in Hrun.
  destruct (Hpv t3) as [t4 E4]. rewrite E4 in Hrun. cbv beta iota zeta in Hrun.
  match type of Hrun with
  | context [for_each (public_file_step fs o) pv ?st ?t] =>
      destruct (for_each_spec fs _ _ (public_step_spec fs o) pv st t) as (new2 & t5 & E5 & F5)
  end.
  rewrite E5 in Hrun. cbv beta iota zeta in Hrun.
  match type of Hrun with
  | context [for_each (additional_entry_step o) ?xs ?st ?t] =>
      destruct (for_each_spec fs _ _ (additional_step_spec fs o) xs st t)
        as (new3 & t6 & E6 & F6)
  end.
  rewrite E6 in Hrun. cbv beta iota zeta in Hrun.
  cbv [ret] in Hrun. injection Hrun as Hout _. subst out.
  cbn [entries seenUrls app] in *.
  unfold candidates.
  rewrite (pure_value None _ _ (readBuildManifest_pure fs (buildDir o))).
  rewrite (pure_value [] _ _ Hsv), (pure_value [] _ _ Hpv).
  fold bm. fold ma.
  rewrite <- (filter_map_some (public_candidate o)).
  rewrite first_from_app, first_from_app, <- (app_assoc new1 new2 new3).
  cbn [app]. rewrite <- (entry_of_urls _ _ _ F3).
  apply Forall2_app; [exact F3|].
  rewrite <- (entry_of_urls _ _ _ F5).
  apply Forall2_app; [exact F5|exact F6].
Qed.

Lemma first_from_In : forall cs seen c, In c (first_from seen cs) -> In c cs.
Proof.
  induction cs as [|c' cs IH]; intros seen c H; [exact H|]. cbn [first_from] in H.
  destruct (CacheStrategies.set_has seen (c_url c')).
  - right. exact (IH _ _ H).
  - destruct H as [<- | H]; [left; reflexivity | right; exact (IH _ _ H)].
Qed.

Lemma filter_map_In {A B : Type} (f : A -> option B) : forall l y,
  In y (filter_map f l) -> exists x, In x l /\ f x = Some y.
Proof.
  induction l as [|x l IH]; intros y H; [destruct H|]. cbn [filter_map] in H.
  destruct (f x) as [z|] eqn:E.
  - destruct H as [Ey | H]; [subst y; exists x; split; [left; reflexivity | exact E]|].
    destruct (IH y H) as (x' & H1 & H2). exists x'. split; [right; exact H1 | exact H2].
  - destruct (IH y H) as (x' & H1 & H2). exists x'. split; [right; exact H1 | exact H2].
Qed.

(** The three ways an entry can get its revision. *)
Definition revision_origin (o : ManifestGeneratorOptions) (e : PrecacheEntry) : Prop :=
  (revision e = None /\ needsRevision (url e) = false)
  \/ (exists h, revision e = Some h /\ List.length h = 8%nat /\ forallb is_hex_lower h = true)
  \/ (exists a, In a (additionalManifestEntries o) /\ revision e = revision a).

Lemma candidate_revision : forall fs o c e,
  In c (candidates fs o) -> entry_of fs c e -> revision_origin o e.
Proof.
  intros fs o c e Hc [Hu Hr]. unfold candidates in Hc.
  apply in_app_iff in Hc as [Hc | Hc]; [|apply in_app_iff in Hc as [Hc | Hc]].
  - apply filter_map_In in Hc as (x & _ & Hx).
    unfold build_candidate in Hx. cbv zeta in Hx.
    destruct (_ && _); [discriminate Hx|].
    destruct (matchesExclusion _ _); [discriminate Hx|].
    injection Hx as <-. cbn [c_url c_rev] in Hu, Hr.
    match type of Hr with
    | context [needsRevision ?U] => destruct (needsRevision U) eqn:N
    end.
    + right; left. destruct Hr as (h & Eh & Hh). exists h. split; [exact Eh|].
      exact (hash_of_shape _ _ _ Hh).
    + left. split; [exact Hr|]. rewrite Hu. exact N.
  - apply in_map_iff in Hc as (x & <- & _). cbn [c_rev] in Hr.
    right; left. destruct Hr as (h & Eh & Hh). exists h. split; [exact Eh|].
    exact (hash_of_shape _ _ _ Hh).
  - apply filter_map_In in Hc as (a & Ha & Hx).
    unfold additional_candidate in Hx.
    destruct (is_empty (url a)); [discriminate Hx|].
    destruct (PathGuard.hasPathTraversal (url a)); [discriminate Hx|].
    injection Hx as <-. cbn [c_rev] in Hr.
    right; right. exists a. split; [exact Ha | exact Hr].
Qed.

Lemma Forall2_In_r {A B : Type} (R : A -> B -> Prop) (P : B -> Prop) : forall l1 l2,
  Forall2 R l1 l2 -> (forall x y, In x l1 -> R x y -> P y) -> Forall P l2.
Proof.
  intros l1 l2 H. induction H as [|x y l1 l2 Hxy _ IH]; intro Hp; constructor.
  - apply (Hp x); [left; reflexivity | exact Hxy].
  - apply IH. intros x' y' Hx'. apply Hp. right. exact Hx'.
Qed.

(** ** Properties *)

(** [generateRevisionHash] always succeeds, and its result is the first 8
    lower-case hex digits of an MD5 digest: of the file's bytes when the file
    can be read, otherwise of the decimal text of some [Date.now()] value
    ([hash_of]); so it is 8 code units long and all lower-case hex. *)
Theorem generateRevisionHash_shape : forall fs p tr,
  exists h tr', generateRevisionHash fs p tr = (Ok h, tr')
                /\ hash_of fs p h
                /\ List.length h = 8%nat /\ forallb is_hex_lower h = true.
Proof.
  intros fs p tr. destruct (generateRevisionHash_spec fs p tr) as (h & tr' & E & Hh).
  exists h, tr'. split; [exact E|]. split; [exact Hh|]. exact (hash_of_shape _ _ _ Hh).
Qed.

(** [needsRevision] is false for a URL ending in [.HASH.EXT] where [HASH] is
    at least 8 hex digits in either case and [EXT] one of the listed asset
    extensions, whatever precedes it. *)
Theorem needsRevision_hashed_name : forall p h ext,
  In ext hash_extensions -> (8 <= List.length h)%nat -> forallb is_hex_ci h = true ->
  needsRevision (p ++ 46 :: h ++ 46 :: ext) = false.
Proof.
  intros p h ext Hext Hlen Hh. unfold needsRevision.
  replace (hashPattern_test (p ++ 46 :: h ++ 46 :: ext)) with true; [reflexivity|].
  symmetry. unfold hashPattern_test. apply existsb_exists. exists ext. split; [exact Hext|].
  replace (p ++ 46 :: h ++ 46 :: ext) with ((p ++ 46 :: h) ++ 46 :: ext)
    by (rewrite <- app_assoc; reflexivity).
  apply andb_true_iff. split.
  - rewrite rev_app_distr. apply starts_with_ci_self.
  - rewrite length_app, Nat.add_sub, firstn_length_app.
    unfold ends_dot_hex8. rewrite rev_app_distr. cbn [rev]. rewrite <- app_assoc. cbn [app].
    rewrite (count_while_stop (rev h) 46 (rev p)); [| rewrite forallb_rev; exact Hh | reflexivity].
    rewrite skipn_length_app, length_rev.
    apply andb_true_iff. split; [apply Nat.leb_le; exact Hlen | reflexivity].
Qed.

Lemma needsRevision_hashed_name_witness :
  In (u "css") hash_extensions /\ (8 <= List.length (u "0123ABcd"))%nat
  /\ forallb is_hex_ci (u "0123ABcd") = true
  /\ needsRevision (u "/_next/static/css/app" ++ 46 :: u "0123ABcd" ++ 46 :: u "css") = false.
Proof.
  assert (H1 : In (u "css") hash_extensions) by (right; left; reflexivity).
  assert (H2 : (8 <= List.length (u "0123ABcd"))%nat) by (cbn; lia).
  assert (H3 : forallb is_hex_ci (u "0123ABcd") = true) by reflexivity.
  split; [exact H1|]. split; [exact H2|]. split; [exact H3|].
  exact (needsRevision_hashed_name (u "/_next/static/css/app") _ _ H1 H2 H3).
Defined.

(** [needsRevision] is false for every URL containing at least 8 lower-case
    hex digits followed by a dash, wherever they occur. *)
Theorem needsRevision_chunk_hash : forall p h q,
  (8 <= List.length h)%nat -> forallb is_hex_lower h = true ->
  needsRevision (p ++ h ++ 45 :: q) = false.
Proof.
  intros p h q Hlen Hh. unfold needsRevision.
  destruct (hashPattern_test (p ++ h ++ 45 :: q)); [reflexivity|].
  unfold chunkHashPattern_test. rewrite chunk_go_prefix; [reflexivity|].
  intro r. rewrite (chunk_go_run h r (45 :: q) Hh). cbn [chunk_go N.eqb Pos.eqb].
  apply orb_true_iff. left. apply Nat.leb_le. lia.
Qed.

Lemma needsRevision_chunk_hash_witness :
  (8 <= List.length (u "0a1b2c3d4e"))%nat /\ forallb is_hex_lower (u "0a1b2c3d4e") = true
  /\ needsRevision (u "/_next/static/chunks/" ++ u "0a1b2c3d4e" ++ 45 :: u "main.js") = false.
Proof.
  assert (H1 : (8 <= List.length (u "0a1b2c3d4e"))%nat) by (cbn; lia).
  assert (H2 : forallb is_hex_lower (u "0a1b2c3d4e") = true) by reflexivity.
  split; [exact H1|]. split; [exact H2|].
  exact (needsRevision_chunk_hash _ _ (u "main.js") H1 H2).
Defined.

(** A string exclusion pattern without [*] or [?] matches exactly the value
    equal to it, and [*] followed by such a literal matches exactly the values
    ending with the literal whose prefix holds no line terminator: the star
    also crosses ['/'] separators. *)
Theorem glob_test_literal_and_star : forall lit v,
  forallb no_wildcard lit = true ->
  glob_test lit v = jstr_eqb lit v
  /\ (glob_test (42 :: lit) v = true
      <-> exists a, v = a ++ lit /\ forallb (fun c => negb (is_line_terminator c)) a = true).
Proof.
  intros lit v H. split; [exact (glob_literal lit v H)|].
  rewrite glob_star_spec. split.
  - intros (a & b & E & Ha & Hb). rewrite (glob_literal lit b H) in Hb.
    apply jstr_eqb_eq in Hb. subst b. exists a. split; [exact E | exact Ha].
  - intros (a & E & Ha). exists a, lit. split; [exact E|]. split; [exact Ha|].
    rewrite (glob_literal lit lit H). apply jstr_eqb_refl.
Qed.

Lemma glob_test_literal_and_star_witness :
  forallb no_wildcard (u ".map") = true
  /\ glob_test (42 :: u ".map") (u "static/chunks/app.js.map") = true.
Proof.
  assert (H : forallb no_wildcard (u ".map") = true) by reflexivity.
  split; [exact H|].
  apply (proj2 (proj2 (glob_test_literal_and_star _ (u "static/chunks/app.js.map") H))).
  exists (u "static/chunks/app.js"). split; reflexivity.
Defined.

(** Every entry of a manifest [generatePrecacheManifest] returns has a
    [null] revision only when [needsRevision] is false for its URL, or
    8 lower-case hex digits, or the revision of one of the
    [additionalManifestEntries]. *)
Theorem generated_revisions : forall fs o tr out tr',
  generatePrecacheManifest fs o tr = (Ok out, tr') -> Forall (revision_origin o) out.
Proof.
  intros fs o tr out tr' Hrun.
  apply (Forall2_In_r _ _ _ _ (generate_entries_spec fs o tr out tr' Hrun)).
  intros c e Hc He. apply (candidate_revision fs o c e); [|exact He].
  exact (first_from_In _ _ _ Hc).
Qed.

Lemma generated_revisions_witness :
  dup_run = (Ok dup_out, snd dup_run) /\ Forall (revision_origin dup_options) dup_out.
Proof.
  assert (E : dup_run = (Ok dup_out, snd dup_run)) by (vm_compute; reflexivity).
  split; [exact E|]. exact (generated_revisions dup_fs dup_options [] dup_out _ E).
Defined.

End RevisionLaws.

Module ContainmentLaws.
Import NodePath ManifestGen.

Definition no_slash (s : jstr) : bool := forallb (fun c => negb (c =? 47)) s.

(** A path segment [normalize] keeps as it is: not empty, not ["."] or
    [".."], without ['/']. *)
Definition ordinary (seg : jstr) : bool :=
  negb (is_empty seg) && negb (jstr_eqb seg (u ".")) && negb (jstr_eqb seg (u ".."))
  && no_slash seg.

Lemma ordinary_no_slash : forall segs, forallb ordinary segs = true -> forallb no_slash segs = true.
Proof.
  induction segs as [|s segs IH]; intro H; [reflexivity|]. cbn [forallb] in *.
  apply andb_true_iff in H as [H1 H2]. unfold ordinary in H1.
  apply andb_true_iff in H1 as [_ H1]. rewrite H1, (IH H2). reflexivity.
Qed.

Lemma split_go_seg : forall seg cur rest, no_slash seg = true ->
  split_slash_go cur (seg ++ rest) = split_slash_go (rev seg ++ cur) rest.
Proof.
  induction seg as [|c seg IH]; intros cur rest H; [reflexivity|].
  cbn [no_slash forallb] in H. unfold no_slash in H. cbn [forallb] in H.
  apply andb_true_iff in H as [Hc H]. apply negb_true_iff in Hc.
  cbn [app split_slash_go]. rewrite Hc, (IH (c :: cur) rest H).
  cbn [rev]. rewrite <- app_assoc. reflexivity.
Qed.

Lemma split_join : forall rest s0 cur, forallb no_slash (s0 :: rest) = true ->
  split_slash_go cur (join_slash (s0 :: rest)) = (rev cur ++ s0) :: rest.
Proof.
  induction rest as [|s1 rest IH]; intros s0 cur H; cbn [forallb] in H;
    apply andb_true_iff in H as [H0 H].
  - replace (join_slash [s0]) with (s0 ++ []) by (rewrite app_nil_r; reflexivity).
    rewrite (split_go_seg s0 cur [] H0). cbn [split_slash_go].
    rewrite rev_app_distr, rev_involutive. reflexivity.
  - change (join_slash (s0 :: s1 :: rest)) with (s0 ++ 47 :: join_slash (s1 :: rest)).
    rewrite (split_go_seg s0 cur _ H0). cbn [split_slash_go N.eqb Pos.eqb].
    rewrite (IH s1 [] H). rewrite rev_app_distr, rev_involutive. reflexivity.
Qed.

Lemma normalize_ordinary : forall segs acc, forallb ordinary segs = true ->
  normalize_segments false acc segs = rev segs ++ acc.
Proof.
  induction segs as [|s segs IH]; intros acc H; [reflexivity|].
  cbn [forallb] in H. apply andb_true_iff in H as [Hs H].
  unfold ordinary in Hs. apply andb_true_iff in Hs as [Hs _].
  apply andb_true_iff in Hs as [Hs H2]. apply andb_true_iff in Hs as [H0 H1].
  apply negb_true_iff in H0, H1, H2.
  cbn [normalize_segments]. rewrite H0, H1, H2. cbn [orb].
  rewrite (IH (s :: acc) H). cbn [rev]. rewrite <- app_assoc. reflexivity.
Qed.

Lemma join_slash_last : forall segs, segs <> [] -> forallb ordinary segs = true ->
  exists pre c, join_slash segs = pre ++ [c] /\ c <> 47.
Proof.
  induction segs as [|s segs IH]; intros Hne H; [contradiction|].
  cbn [forallb] in H. apply andb_true_iff in H as [Hs H].
  destruct segs as [|s1 segs].
  - unfold ordinary in Hs. apply andb_true_iff in Hs as [Hs Hns].
    apply andb_true_iff in Hs as [Hs _]. apply andb_true_iff in Hs as [He _].
    destruct s as [|a s]; [discriminate He|].
    destruct (exists_last (l := a :: s) ltac:(discriminate)) as (pre & c & E).
    exists pre, c. split; [exact E|].
    unfold no_slash in Hns. rewrite forallb_forall in Hns.
    assert (Hin : In c (a :: s)) by (rewrite E; apply in_or_app; right; left; reflexivity).
    specialize (Hns c Hin). apply negb_true_iff, N.eqb_neq in Hns. exact Hns.
  - destruct (IH ltac:(discriminate) H) as (pre & c & E & Hc).
    exists (s ++ 47 :: pre), c. split; [|exact Hc].
    change (join_slash (s :: s1 :: segs)) with (s ++ 47 :: join_slash (s1 :: segs)).
    rewrite E, <- app_assoc. reflexivity.
Qed.

(** [path.join] leaves an absolute path of ordinary segments as it is. *)
Lemma join_canonical : forall segs, segs <> [] -> forallb ordinary segs = true ->
  join (@cons jstr (47 :: join_slash segs) []) = 47 :: join_slash segs.
Proof.
  intros segs Hne Hord. destruct (join_slash_last segs Hne Hord) as (pre & c & EX & Hc).
  assert (Hsplit : split_slash (47 :: join_slash segs) = [] :: segs).
  { destruct segs as [|s0 rest]; [contradiction|]. unfold split_slash.
    change (split_slash_go [] (47 :: join_slash (s0 :: rest)))
      with ([] :: split_slash_go [] (join_slash (s0 :: rest))).
    rewrite (split_join rest s0 [] (ordinary_no_slash _ Hord)). reflexivity. }
  unfold join.
  change (filter (fun a => negb (is_empty a)) [47 :: join_slash segs])
    with [47 :: join_slash segs].
  change (join_slash [47 :: join_slash segs]) with (47 :: join_slash segs).
  change (normalize (47 :: join_slash segs) = 47 :: join_slash segs).
  unfold normalize. cbv beta iota zeta.
  replace (starts_with [47] (47 :: join_slash segs)) with true by reflexivity.
  replace (last (47 :: join_slash segs) 0 =? 47) with false.
  2: { rewrite EX. change (47 :: pre ++ [c]) with ((47 :: pre) ++ [c]).
       rewrite last_last. symmetry. apply N.eqb_neq. exact Hc. }
  rewrite Hsplit. cbn [negb normalize_segments is_empty orb].
  rewrite (normalize_ordinary segs [] Hord), app_nil_r, rev_involutive.
  rewrite EX. destruct pre; reflexivity.
Qed.

Lemma join_slash_cons : forall x y, y <> [] -> join_slash (x :: y) = x ++ 47 :: join_slash y.
Proof. intros x [|y0 y] H; [contradiction | reflexivity]. Qed.

Lemma join_slash_app_last : forall segs l s,
  join_slash (segs ++ [l]) ++ s = join_slash (segs ++ [l ++ s]).
Proof.
  induction segs as [|x segs IH]; intros l s; [reflexivity|]. cbn [app].
  rewrite !join_slash_cons by (destruct segs; discriminate).
  rewrite <- app_assoc. cbn [app]. rewrite IH. reflexivity.
Qed.

Lemma ordinary_extend : forall l s, ordinary l = true -> s <> [] -> no_slash s = true ->
  ordinary (l ++ s) = true.
Proof.
  intros l s Hl Hs Hns. unfold ordinary in *.
  apply andb_true_iff in Hl as [Hl Hl4]. apply andb_true_iff in Hl as [Hl Hl3].
  apply andb_true_iff in Hl as [Hl1 Hl2].
  destruct l as [|a l]; [discriminate Hl1|]. destruct s as [|b s]; [contradiction|].
  assert (Hlen : (2 <= List.length ((a :: l) ++ b :: s))%nat)
    by (rewrite length_app; cbn [List.length]; lia).
  replace (no_slash ((a :: l) ++ b :: s)) with true
    by (unfold no_slash in *; rewrite forallb_app, Hl4, Hns; reflexivity).
  destruct (jstr_eqb ((a :: l) ++ b :: s) (u ".")) eqn:E1.
  { apply jstr_eqb_eq in E1. rewrite E1 in Hlen. cbn in Hlen. lia. }
  destruct (jstr_eqb ((a :: l) ++ b :: s) (u "..")) eqn:E2; [|reflexivity].
  apply jstr_eqb_eq in E2. exfalso.
  destruct l as [|a' l].
  - cbn in E2. injection E2 as Ea _. subst a. discriminate Hl2.
  - apply (f_equal (@List.length N)) in E2. rewrite length_app in E2.
    cbn [List.length] in E2. change (List.length (u "..")) with 2%nat in E2. lia.
Qed.

(** ** Properties *)

(** [isPathWithinProject] compares the normalized strings by prefix, not by
    path segments: for a root [/s1/.../l] of ordinary segments, a path whose
    last segment only extends [l] (a sibling such as [/home/app-evil] of the
    root [/home/app]) counts as inside the project. *)
Theorem isPathWithinProject_no_boundary : forall segs l s,
  forallb ordinary (segs ++ [l]) = true -> s <> [] -> no_slash s = true ->
  isPathWithinProject (47 :: join_slash (segs ++ [l ++ s])) (47 :: join_slash (segs ++ [l]))
  = true.
Proof.
  intros segs l s Hord Hs Hns. unfold isPathWithinProject. cbv zeta.
  assert (Hord' : forallb ordinary (segs ++ [l ++ s]) = true).
  { rewrite forallb_app in *. apply andb_true_iff in Hord as [H1 H2].
    cbn [forallb] in *. rewrite andb_true_r in H2.
    rewrite H1, (ordinary_extend l s H2 Hs Hns). reflexivity. }
  assert (Hne : forall x : jstr, segs ++ [x] <> []) by (intro x; destruct segs; discriminate).
  assert (J1 : join (@cons jstr (47 :: join_slash (segs ++ [l])) [])
               = 47 :: join_slash (segs ++ [l]))
    by exact (join_canonical _ (Hne l) Hord).
  assert (J2 : join (@cons jstr (47 :: join_slash (segs ++ [l ++ s])) [])
               = 47 :: join_slash (segs ++ [l ++ s]))
    by exact (join_canonical _ (Hne (l ++ s)) Hord').
  rewrite J1, J2.
  rewrite <- join_slash_app_last, app_comm_cons. apply SecurityFacts.starts_with_app.
Qed.

Lemma isPathWithinProject_no_boundary_witness :
  forallb ordinary ([u "home"] ++ [u "app"]) = true /\ u "-evil" <> []
  /\ no_slash (u "-evil") = true
  /\ isPathWithinProject (47 :: join_slash ([u "home"] ++ [u "app" ++ u "-evil"]))
                         (47 :: join_slash ([u "home"] ++ [u "app"])) = true.
Proof.
  assert (H1 : forallb ordinary ([u "home"] ++ [u "app"]) = true) by reflexivity.
  assert (H2 : u "-evil" <> []) by discriminate.
  assert (H3 : no_slash (u "-evil") = true) by reflexivity.
  split; [exact H1|]. split; [exact H2|]. split; [exact H3|].
  exact (isPathWithinProject_no_boundary _ _ _ H1 H2 H3).
Defined.

End ContainmentLaws.
